(** * TabCorr: tabulated correlation functions

    A shallow embedding of [tabcorr/tabcorr.py] (class [TabCorr]:
    [tabulate], [read], [write], [predict]) and the properties of its
    binning, assignment, matrix builder, prediction and persistence
    stages.

    Numbers are kept abstract: every numpy float operation the source uses
    is a field of the class [Num], and no algebraic law is assumed unless
    a lemma says so.  Python exceptions are values of [pyerr], threaded
    through the [result] monad. *)

From Stdlib Require Import ZArith Lia.
From Corelib Require PrimFloat.
From stdpp Require Import base option list gmap strings pretty sorting.

Open Scope Z_scope.
Open Scope nat_scope.

(** ** Exceptions and the result monad *)

Inductive pyerr : Type :=
  | ValueError
  | KeyError
  | IndexError
  | AttributeError
  | AssertionError
  | UnboundLocalError
  | ZeroDivisionError
  | FileExistsError
  | FileNotFoundError
  | CallableError.

Inductive result (A : Type) : Type :=
  | Ok (a : A)
  | Raise (e : pyerr).
Arguments Ok {A} a.
Arguments Raise {A} e.

Definition bind {A B} (r : result A) (k : A -> result B) : result B :=
  match r with
  | Ok a => k a
  | Raise e => Raise e
  end.

Notation "x <- r ;; k" := (bind r (fun x => k))
  (at level 100, r at next level, right associativity).

Definition from_option {A} (e : pyerr) (o : option A) : result A :=
  match o with
  | Some a => Ok a
  | None => Raise e
  end.

(** A Python [for] loop whose body may raise: the state is threaded from
    left to right and the first exception ends the loop. *)
Fixpoint for_each {S X} (body : X -> S -> result S) (xs : list X) (s : S)
  : result S :=
  match xs with
  | [] => Ok s
  | x :: xs' => s' <- body x s ;; for_each body xs' s'
  end.

(** [range(a, b)] *)
Definition range (a b : nat) : list nat := seq a (b - a).

(** ** Numbers *)

Class Num (F : Type) : Type := {
  fzero : F;
  fone : F;
  fhalf : F;
  fadd : F -> F -> F;
  fsub : F -> F -> F;
  fmul : F -> F -> F;
  fdiv : F -> F -> F;
  of_nat : nat -> F;
  flt : F -> F -> bool;
  fle : F -> F -> bool;
  feq : F -> F -> bool;
  fis_finite : F -> bool;
  log10 : F -> F;
  pow10 : F -> F
}.

(** ** Arrays *)

(** An n-dimensional array: its shape and its elements in row-major
    order, which is what [ravel()] returns. *)
Record ndarray (F : Type) : Type := mk_ndarray {
  shape : list nat;
  ravel : list F
}.
Arguments mk_ndarray {F} shape ravel.
Arguments shape {F} _.
Arguments ravel {F} _.

(** What a correlation callable may return: an array, or a tuple of
    arrays (as [delta_sigma] does). *)
Inductive pyval (F : Type) : Type :=
  | PArr (a : ndarray F)
  | PTuple (items : list (ndarray F)).
Arguments PArr {F} a.
Arguments PTuple {F} items.

Definition prod_list (l : list nat) : nat := foldr Nat.mul 1 l.

Section Arrays.
Context {F : Type} `{Num F}.

Definition sum_list (l : list F) : F := foldl fadd fzero l.

Definition tile {A} (l : list A) (reps : nat) : list A :=
  concat (replicate reps l).

Definition repeat_each {A} (l : list A) (reps : nat) : list A :=
  concat (map (replicate reps) l).

(** [xi.ravel()]: a tuple has no such method. *)
Definition val_ravel (v : pyval F) : result (list F) :=
  match v with
  | PArr a => Ok (ravel a)
  | PTuple _ => Raise AttributeError
  end.

Definition val_shape (v : pyval F) : result (list nat) :=
  match v with
  | PArr a => Ok (shape a)
  | PTuple _ => Raise AttributeError
  end.

(** [xi[1]]: the second item of a tuple, or the second slice of an
    array along its first axis. *)
Definition val_item1 (v : pyval F) : result (pyval F) :=
  match v with
  | PTuple items => from_option IndexError (PArr <$> items !! 1)
  | PArr a =>
      match shape a with
      | [] => Raise IndexError
      | d :: rest =>
          if decide (1 < d)
          then Ok (PArr (mk_ndarray rest
                 (take (prod_list rest) (drop (prod_list rest) (ravel a)))))
          else Raise IndexError
      end
  end.

(** Broadcasting a flat vector into a slot of [k] elements: the lengths
    agree, or the vector has one element which is repeated. *)
Definition broadcast_to (k : nat) (v : list F) : result (list F) :=
  if decide (length v = k) then Ok v
  else match v with
       | [x] => Ok (replicate k x)
       | _ => Raise ValueError
       end.
End Arrays.

(** ** The tabulation matrix *)

(** The matrix has shape [(K, n, n)] in auto mode and [(K, n)] in cross
    mode, [n] being the number of bins and [K] the flattened size of one
    result of the callable.  It is kept as [K] planes (auto) or [K] rows
    (cross) together with [n], which the planes cannot tell when [K = 0]. *)
Inductive tmatrix (F : Type) : Type :=
  | Mat3 (n : nat) (planes : list (list (list F)))
  | Mat2 (n : nat) (rows : list (list F)).
Arguments Mat3 {F} n planes.
Arguments Mat2 {F} n rows.

(** The arguments of one call of the correlation callable.  The forwarded
    [*tpcf_args] and [**tpcf_kwargs] are the same in every call and are
    part of the callable here. *)
Record tpcf_call (P : Type) : Type := mk_call {
  sample1 : list P;
  sample2 : option (list P);
  do_auto : option bool;
  do_cross : option bool
}.
Arguments mk_call {P} sample1 sample2 do_auto do_cross.
Arguments sample1 {P} _.
Arguments sample2 {P} _.
Arguments do_auto {P} _.
Arguments do_cross {P} _.

Inductive tmode : Type := Auto | Cross | OtherMode (name : string).

Definition mode_string (m : tmode) : string :=
  match m with
  | Auto => "auto"
  | Cross => "cross"
  | OtherMode s => s
  end.

Section Builder.
Context {F : Type} `{Num F} {P : Type}.

(** The local variables [tpcf_matrix] and [tpcf_shape] of [tabulate]
    (absent until the first call returns) and the calls made so far, as
    the bin indices they were made for (most recent first; in cross mode
    both indices are the bin). *)
Record builder : Type := mk_builder {
  b_locals : option (tmatrix F * list nat);
  b_calls : list (nat * nat)
}.

Definition builder_init : builder := mk_builder None [].

Definition zeros3 (k n : nat) : list (list (list F)) :=
  replicate k (replicate n (replicate n fzero)).

Definition zeros2 (k n : nat) : list (list F) :=
  replicate k (replicate n fzero).

(** [plane[i, k] = x] *)
Definition set_cell (i k : nat) (x : F) (plane : list (list F))
  : list (list F) :=
  alter (fun row => <[k := x]> row) i plane.

(** [tpcf_matrix[:, i, k] = v] *)
Definition assign3 (m : tmatrix F) (i k : nat) (v : list F)
  : result (tmatrix F) :=
  match m with
  | Mat3 n planes =>
      if decide (i < n /\ k < n) then
        v' <- broadcast_to (length planes) v ;;
        Ok (Mat3 n (zip_with (fun plane x => set_cell i k x plane) planes v'))
      else Raise IndexError
  | Mat2 _ _ => Raise IndexError
  end.

(** [tpcf_matrix[:, i] = v] *)
Definition assign2 (m : tmatrix F) (i : nat) (v : list F)
  : result (tmatrix F) :=
  match m with
  | Mat2 n rows =>
      if decide (i < n) then
        v' <- broadcast_to (length rows) v ;;
        Ok (Mat2 n (zip_with (fun row x => <[i := x]> row) rows v'))
      else Raise IndexError
  | Mat3 _ _ => Raise IndexError
  end.

(** [matrix[s, i, j]] and [matrix[s, i]] *)
Definition cell3 (m : tmatrix F) (s i j : nat) : option F :=
  match m with
  | Mat3 _ planes => row ← (plane ← planes !! s; plane !! i); row !! j
  | Mat2 _ _ => None
  end.

Definition cell2 (m : tmatrix F) (s i : nat) : option F :=
  match m with
  | Mat2 _ rows => row ← rows !! s; row !! i
  | Mat3 _ _ => None
  end.

(** [matrix[:, i]] *)
Definition column2 (m : tmatrix F) (i : nat) : option (list F) :=
  match m with
  | Mat2 _ rows => mapM (fun row => row !! i) rows
  | Mat3 _ _ => None
  end.

Variable tpcf : tpcf_call P -> result (pyval F).
Variable tpcf_name : string.
(** [pos]: one subset of positions per bin. *)
Variable pos : list (list P).

Definition n_bins : nat := length pos.

Definition pos_at (i : nat) : result (list P) :=
  from_option IndexError (pos !! i).

(** The body of [for k in range(i, len(halotab.gal_type))]. *)
Definition auto_body (i k : nat) (b : builder) : result builder :=
  pi <- pos_at i ;;
  pk <- pos_at k ;;
  if decide (0 < length pi * length pk) then
    xi <- tpcf (mk_call pi
                  (if decide (k <> i) then Some pk else None)
                  (Some (bool_decide (i = k)))
                  (Some (negb (bool_decide (i = k))))) ;;
    v <- val_ravel xi ;;
    ms <- match b_locals b with
          | Some ms => Ok ms
          | None =>
              shp <- val_shape xi ;;
              Ok (Mat3 n_bins (zeros3 (length v) n_bins), shp)
          end ;;
    m1 <- assign3 ms.1 i k v ;;
    m2 <- assign3 m1 k i v ;;
    Ok (mk_builder (Some (m2, ms.2)) ((i, k) :: b_calls b))
  else Ok b.

(** The body of the [mode == 'cross'] branch. *)
Definition cross_body (i : nat) (b : builder) : result builder :=
  pi <- pos_at i ;;
  if decide (0 < length pi) then
    xi0 <- tpcf (mk_call pi None None None) ;;
    xi <- (if decide (tpcf_name = "delta_sigma") then val_item1 xi0
           else Ok xi0) ;;
    v <- val_ravel xi ;;
    ms <- match b_locals b with
          | Some ms => Ok ms
          | None =>
              shp <- val_shape xi ;;
              Ok (Mat2 n_bins (zeros2 (length v) n_bins), shp)
          end ;;
    m1 <- assign2 ms.1 i v ;;
    Ok (mk_builder (Some (m1, ms.2)) ((i, i) :: b_calls b))
  else Ok b.

(** The body of [for i in range(len(halotab.gal_type))]; a mode that is
    neither ['auto'] nor ['cross'] does nothing. *)
Definition row_body (mode : tmode) (i : nat) (b : builder)
  : result builder :=
  match mode with
  | Auto => for_each (auto_body i) (range i n_bins) b
  | Cross => cross_body i b
  | OtherMode _ => Ok b
  end.

Definition build (mode : tmode) : result builder :=
  for_each (row_body mode) (range 0 n_bins) builder_init.
End Builder.

(** ** The catalogues *)

(** A row of the halo table: [prim] is the column [prim_haloprop_key]. *)
Record halo (F : Type) : Type := mk_halo {
  halo_id : Z;
  halo_pid : Z;
  prim : F
}.
Arguments mk_halo {F} halo_id halo_pid prim.
Arguments halo_id {F} _.
Arguments halo_pid {F} _.
Arguments prim {F} _.

Record halo_catalog (F : Type) : Type := mk_halocat {
  halo_table : list (halo F);
  particle_mass : F;
  Lbox : list F;
  redshift : F;
  simname : string
}.
Arguments mk_halocat {F} halo_table particle_mass Lbox redshift simname.
Arguments halo_table {F} _.
Arguments particle_mass {F} _.
Arguments Lbox {F} _.
Arguments redshift {F} _.
Arguments simname {F} _.

(** A row of the mock galaxy table, with its row of [pos_all]. *)
Record galaxy (F P : Type) : Type := mk_galaxy {
  g_halo_id : Z;
  g_prim : F;
  g_gal_type : string;
  g_pos : P
}.
Arguments mk_galaxy {F P} g_halo_id g_prim g_gal_type g_pos.
Arguments g_halo_id {F P} _.
Arguments g_prim {F P} _.
Arguments g_gal_type {F P} _.
Arguments g_pos {F P} _.

(** The bin table [halotab.gal_type], column by column; the column [sec]
    exists only when the secondary split is on.  [len(table)] is the
    length of the first column, [n_h]. *)
Record bin_table (F : Type) : Type := mk_bin_table {
  col_n_h : list F;
  col_sec : option (list nat);
  col_gal_type : list string;
  col_log_prim_haloprop_min : list F;
  col_log_prim_haloprop_max : list F;
  col_prim_haloprop : list F
}.
Arguments mk_bin_table {F} col_n_h col_sec col_gal_type
  col_log_prim_haloprop_min col_log_prim_haloprop_max col_prim_haloprop.
Arguments col_n_h {F} _.
Arguments col_sec {F} _.
Arguments col_gal_type {F} _.
Arguments col_log_prim_haloprop_min {F} _.
Arguments col_log_prim_haloprop_max {F} _.
Arguments col_prim_haloprop {F} _.

Definition table_len {F} (t : bin_table F) : nat := length (col_n_h t).

(** ** numpy and halotools routines used by [tabulate] *)

Section Numpy.
Context {F : Type} `{Num F}.

Definition prod_F (l : list F) : F := foldl fmul fone l.

Definition min_F (x : F) (l : list F) : F :=
  foldl (fun m y => if flt y m then y else m) x l.

Definition max_F (x : F) (l : list F) : F :=
  foldl (fun m y => if flt m y then y else m) x l.

(** [np.linspace(start, stop, num)] for [num = div + 1 >= 2]: the first
    [div] samples are [k * step + start], the last one is [stop]. *)
Definition linspace (start stop : F) (div : nat) : list F :=
  let step := fdiv (fsub stop start) (of_nat div) in
  map (fun k => fadd (fmul (of_nat k) step) start) (seq 0 div) ++ [stop].

(** The range [np.histogram] bins over: [(0, 1)] for no data, the
    extrema of the data otherwise, widened by a half on each side when
    they coincide. *)
Definition outer_edges (a : list F) : result (F * F) :=
  match a with
  | [] => Ok (fzero, fone)
  | x :: a' =>
      let lo := min_F x a' in
      let hi := max_F x a' in
      if fis_finite lo && fis_finite hi then
        if feq lo hi then Ok (fsub lo fhalf, fadd hi fhalf) else Ok (lo, hi)
      else Raise ValueError
  end.

(** The counts of [np.histogram]: every bin is closed on the left and
    open on the right, but the last, which is closed on both sides. *)
Fixpoint bin_counts (a : list F) (edges : list F) : list nat :=
  match edges with
  | lo :: ((hi :: rest) as tl) =>
      length (filter (fun v => fle lo v &&
                        match rest with
                        | [] => fle v hi
                        | _ :: _ => flt v hi
                        end) a)
      :: bin_counts a tl
  | _ => []
  end.

Fixpoint increasing (edges : list F) : bool :=
  match edges with
  | lo :: ((hi :: _) as tl) => negb (flt hi lo) && increasing tl
  | _ => true
  end.

(** [np.histogram(a, bins=n)] for an integer [n]. *)
Definition histogram (a : list F) (bins : nat) : result (list nat * list F) :=
  if decide (bins = 0) then Raise ValueError
  else
    r <- outer_edges a ;;
    let edges := linspace r.1 r.2 bins in
    Ok (bin_counts a edges, edges).

(** [np.histogram(a, bins=edges)] for an array of edges. *)
Definition histogram_edges (a : list F) (edges : list F)
  : result (list nat * list F) :=
  if decide (length edges < 2) then Raise ValueError
  else if increasing edges then Ok (bin_counts a edges, edges)
  else Raise ValueError.

(** [a[mask]] for a boolean mask. *)
Definition select {A} (mask : list bool) (a : list A) : list A :=
  zip mask a ≫= (fun p : bool * A => if p.1 then [p.2] else []).

(** [a[idx]] for an array of indices. *)
Definition take_at {A} (a : list A) (idx : list nat) : result (list A) :=
  from_option IndexError (mapM (fun i => a !! i) idx).

(** [a[idx] = vals] for an array of indices and as many values. *)
Fixpoint put_at {A} (a : list A) (idx : list nat) (vals : list A)
  : result (list A) :=
  match idx, vals with
  | [], [] => Ok a
  | i :: idx', v :: vals' =>
      if decide (i < length a) then put_at (<[i := v]> a) idx' vals'
      else Raise IndexError
  | _, _ => Raise ValueError
  end.

(** [a // b] on Python integers. *)
Definition floor_div (a b : nat) : result nat :=
  if decide (b = 0) then Raise ZeroDivisionError else Ok (Nat.div a b).

(** Adding a column to a table that has [n] rows. *)
Definition column {A} (n : nat) (c : list A) : result (list A) :=
  if decide (length c = n) then Ok c else Raise ValueError.

(** [halotools.utils.crossmatch(x, y)], by its documented contract: [y]
    must hold no repeated entry; the result pairs every index of [x]
    whose entry occurs in [y] with the index of that entry in [y], and
    leaves out the entries of [x] without a match. *)
Fixpoint index_of (z : Z) (y : list Z) : option nat :=
  match y with
  | [] => None
  | w :: y' => if decide (w = z) then Some 0 else S <$> index_of z y'
  end.

Definition crossmatch (x y : list Z) : result (list nat * list nat) :=
  if decide (NoDup y) then
    let pairs :=
      (zip (seq 0 (length x)) x) ≫=
        (fun p : nat * Z => match index_of p.2 y with
                  | Some b => [(p.1, b)]
                  | None => []
                  end) in
    Ok (pairs.*1, pairs.*2)
  else Raise ValueError.
End Numpy.

(** ** The tabulated object *)

(** Python values kept in [attrs], [tpcf_args] and [tpcf_kwargs] and
    stored in the file. *)
Inductive pyobj (F : Type) : Type :=
  | OStr (s : string)
  | OBool (b : bool)
  | OInt (z : Z)
  | OFloat (x : F)
  | OArr (a : ndarray F)
  | OShape (l : list nat)
  | OMatrix (m : tmatrix F).
Arguments OStr {F} s.
Arguments OBool {F} b.
Arguments OInt {F} z.
Arguments OFloat {F} x.
Arguments OArr {F} a.
Arguments OShape {F} l.
Arguments OMatrix {F} m.

Record TabCorr (F : Type) : Type := mk_TabCorr {
  init : bool;
  gal_type : bin_table F;
  attrs : gmap string (pyobj F);
  tpcf_args : list (pyobj F);
  tpcf_kwargs : gmap string (pyobj F);
  tpcf_shape : list nat;
  tpcf_matrix : tmatrix F
}.
Arguments mk_TabCorr {F} init gal_type attrs tpcf_args tpcf_kwargs
  tpcf_shape tpcf_matrix.
Arguments init {F} _.
Arguments gal_type {F} _.
Arguments attrs {F} _.
Arguments tpcf_args {F} _.
Arguments tpcf_kwargs {F} _.
Arguments tpcf_shape {F} _.
Arguments tpcf_matrix {F} _.

(** The keyword parameters of [tabulate] that the embedding uses. *)
Record tab_options (F : Type) : Type := mk_options {
  mode : tmode;
  Num_ptcl_requirement : nat;
  prim_haloprop_key : string;
  sec_haloprop : bool;
  sec_haloprop_key : string;
  sec_haloprop_split : F;
  prim_haloprop_bins : nat
}.
Arguments mk_options {F} mode Num_ptcl_requirement prim_haloprop_key
  sec_haloprop sec_haloprop_key sec_haloprop_split prim_haloprop_bins.
Arguments mode {F} _.
Arguments Num_ptcl_requirement {F} _.
Arguments prim_haloprop_key {F} _.
Arguments sec_haloprop {F} _.
Arguments sec_haloprop_key {F} _.
Arguments sec_haloprop_split {F} _.
Arguments prim_haloprop_bins {F} _.

(** ** [TabCorr.tabulate] *)

Fixpoint map_result {A B} (f : A -> result B) (l : list A) : result (list B) :=
  match l with
  | [] => Ok []
  | x :: l' => y <- f x ;; ys <- map_result f l' ;; Ok (y :: ys)
  end.

Section Tabulate.
Context {F : Type} `{Num F} {P : Type}.

(** What [halotools]' [compute_conditional_percentiles] returns for a
    table of halos that has rows; what it does on a table without rows
    is in [percentiles]. *)
Variable compute_conditional_percentiles : list (halo F) -> list F.
(** The rows of [model.mock.galaxy_table] that survive the
    downsampling. *)
Variable gals : list (galaxy F P).
Variable tpcf : tpcf_call P -> result (pyval F).
Variable tpcf_name : string.
Variable args : list (pyobj F).
Variable kwargs : gmap string (pyobj F).
Variable halocat : halo_catalog F.
Variable opts : tab_options F.

(** Host halos at or above the particle-count threshold. *)
Definition qualifying_halos : list (halo F) :=
  filter (fun h => fle (fmul (of_nat (Num_ptcl_requirement opts))
                          (particle_mass halocat)) (prim h))
    (filter (fun h => halo_pid h = (-1)%Z) (halo_table halocat)).

(** The column [sec_haloprop_key + '_percentile'] of the halo table.
    [compute_conditional_percentiles] starts by binning the primary
    column between its [np.min] and [np.max], and these raise a
    [ValueError] on a column without entries: on an empty table the call
    raises before anything is assigned. *)
Definition percentiles (halos : list (halo F)) : result (list F) :=
  match halos with
  | [] => Raise ValueError
  | _ :: _ => column (length halos) (compute_conditional_percentiles halos)
  end.

Definition log_prims (halos : list (halo F)) : list F :=
  map (fun h => log10 (prim h)) halos.

Definition density (counts : list nat) : list F :=
  map (fun c => fdiv (of_nat c) (prod_F (Lbox halocat))) counts.

Definition below_split (pct : list F) : list bool :=
  map (fun p => flt p (sec_haloprop_split opts)) pct.

Definition above_split (pct : list F) : list bool :=
  map (fun p => fle (sec_haloprop_split opts) p) pct.

(** The Binning Engine: [halotab.gal_type]. *)
Definition make_bin_table (halos : list (halo F)) (pct : list F)
  : result (bin_table F) :=
  r <- histogram (log_prims halos) (prim_haloprop_bins opts) ;;
  let n_h := r.1 in
  c <- (if sec_haloprop opts then
          r0 <- histogram_edges
                  (log_prims (select (below_split pct) halos)) r.2 ;;
          r1 <- histogram_edges
                  (log_prims (select (above_split pct) halos)) r0.2 ;;
          let col := density (tile (r0.1 ++ r1.1) 2) in
          sec <- column (length col)
                   (tile (repeat_each [0; 1] (length n_h)) 2) ;;
          Ok (col, Some sec, r1.2)
        else Ok (density (tile n_h 2), None, r.2)) ;;
  let '(col_n, sec, edges) := c in
  let n := length col_n in
  gt <- column n (replicate (Nat.div n 2) "centrals"
                  ++ replicate (Nat.div n 2) "satellites") ;;
  q1 <- floor_div n (length (removelast edges)) ;;
  lmin <- column n (tile (removelast edges) q1) ;;
  q2 <- floor_div n (length (tail edges)) ;;
  lmax <- column n (tile (tail edges) q2) ;;
  Ok (mk_bin_table col_n sec gt lmin lmax
        (zip_with (fun a b => pow10 (fmul fhalf (fadd a b))) lmin lmax)).

(** The galaxy-to-halo join: the column [sec_haloprop_key +
    '_percentile'] of the galaxy table. *)
Definition join_percentiles (halos : list (halo F)) (pct : list F)
  : result (list F) :=
  let gids := map g_halo_id gals in
  let hids := map halo_id halos in
  r <- crossmatch gids hids ;;
  gi <- take_at gids r.1 ;;
  hi <- take_at hids r.2 ;;
  if decide (gi = hi) then
    vals <- take_at pct r.2 ;;
    put_at (replicate (length gals) fzero) r.1 vals
  else Raise AssertionError.

(** The mask of bin [i] over the galaxy table. *)
Definition bin_mask (t : bin_table F) (gpct : list F) (i : nat)
  : result (list bool) :=
  lo <- from_option IndexError (col_log_prim_haloprop_min t !! i) ;;
  hi <- from_option IndexError (col_log_prim_haloprop_max t !! i) ;;
  gt <- from_option IndexError (col_gal_type t !! i) ;;
  let mask :=
    map (fun g => flt (pow10 lo) (g_prim g)
                  && fle (g_prim g) (pow10 hi)
                  && bool_decide (gt = g_gal_type g)) gals in
  if sec_haloprop opts then
    secs <- from_option KeyError (col_sec t) ;;
    s <- from_option IndexError (secs !! i) ;;
    if decide (s = 0) then Ok (zip_with andb mask (below_split gpct))
    else Ok (zip_with andb mask (above_split gpct))
  else Ok mask.

(** Galaxy Assignment: the list [pos]. *)
Definition position_subsets (t : bin_table F) (gpct : list F)
  : result (list (list P)) :=
  map_result
    (fun i => mask <- bin_mask t gpct i ;; Ok (select mask (map g_pos gals)))
    (range 0 (table_len t)).

Definition make_attrs : gmap string (pyobj F) :=
  <["sec_haloprop_split" := OFloat (sec_haloprop_split opts)]>
  (<["sec_haloprop_key" := OStr (sec_haloprop_key opts)]>
  (<["sec_haloprop" := OBool (sec_haloprop opts)]>
  (<["prim_haloprop_key" := OStr (prim_haloprop_key opts)]>
  (<["Num_ptcl_requirement" :=
       OInt (Z.of_nat (Num_ptcl_requirement opts))]>
  (<["redshift" := OFloat (redshift halocat)]>
  (<["simname" := OStr (simname halocat)]>
  (<["mode" := OStr (mode_string (mode opts))]>
  (<["tpcf" := OStr tpcf_name]> ∅)))))))).

(** [tabulate], returning beside the object the calls of the callable
    it made. *)
Definition tabulate_run : result (TabCorr F * list (nat * nat)) :=
  let halos := qualifying_halos in
  pct <- percentiles halos ;;
  t <- make_bin_table halos pct ;;
  gpct <- join_percentiles halos pct ;;
  pos <- position_subsets t gpct ;;
  b <- build tpcf tpcf_name pos (mode opts) ;;
  ms <- from_option UnboundLocalError (b_locals b) ;;
  Ok (mk_TabCorr true t make_attrs args kwargs ms.2 ms.1, b_calls b).

Definition tabulate : result (TabCorr F) :=
  r <- tabulate_run ;; Ok r.1.
End Tabulate.

(** ** Shapes of the matrix *)

Section Shapes.
Context {F : Type}.

(** A plane of an [(K, n, n)] matrix is an [n] by [n] grid. *)
Definition grid (n : nat) (plane : list (list F)) : Prop :=
  length plane = n /\ Forall (fun row : list F => length row = n) plane.

Definition wf3 (m : tmatrix F) : Prop :=
  match m with
  | Mat3 n planes => Forall (grid n) planes
  | Mat2 _ _ => False
  end.

Definition wf2 (m : tmatrix F) : Prop :=
  match m with
  | Mat2 n rows => Forall (fun row : list F => length row = n) rows
  | Mat3 _ _ => False
  end.

Definition depth (m : tmatrix F) : nat :=
  match m with
  | Mat3 _ planes => length planes
  | Mat2 _ rows => length rows
  end.

Definition bins_of (m : tmatrix F) : nat :=
  match m with
  | Mat3 n _ => n
  | Mat2 n _ => n
  end.

(** Symmetry under the swap of the two bin indices. *)
Definition symmetric3 (m : tmatrix F) : Prop :=
  forall s i j, cell3 m s i j = cell3 m s j i.

Definition subset_len {P} (pos : list (list P)) (i : nat) : nat :=
  length (default [] (pos !! i)).

(** Both position subsets of a pair of bins hold a galaxy. *)
Definition nonempty_pair {P} (pos : list (list P)) (p : nat * nat) : Prop :=
  0 < subset_len pos p.1 * subset_len pos p.2.

#[global] Instance nonempty_pair_dec {P} (pos : list (list P)) p :
  Decision (nonempty_pair pos p) :=
  decide (0 < subset_len pos p.1 * subset_len pos p.2).

(** The pairs of bins the auto-mode loops go through, in order. *)
Definition auto_pairs (n : nat) : list (nat * nat) :=
  i ← range 0 n; pair i <$> range i n.
End Shapes.

Section Invariants.
Context {F : Type} `{Num F}.

(** The cells of the pairs that were not computed hold zero. *)
Definition untouched_zero (m : tmatrix F) (calls : list (nat * nat)) : Prop :=
  forall s i j, s < depth m -> i < bins_of m -> j < bins_of m ->
    (i, j) ∉ calls -> (j, i) ∉ calls -> cell3 m s i j = Some fzero.

Definition auto_inv (n : nat) (b : builder) : Prop :=
  match b_locals b with
  | None => True
  | Some ms =>
      wf3 ms.1 /\ bins_of ms.1 = n /\ symmetric3 ms.1
      /\ untouched_zero ms.1 (b_calls b)
  end.

(** The arguments [tabulate] calls the callable with, for a pair of
    bins in auto mode and for a bin in cross mode. *)
Definition auto_call {P} (pos : list (list P)) (i k : nat) : tpcf_call P :=
  mk_call (default [] (pos !! i))
    (if decide (k <> i) then Some (default [] (pos !! k)) else None)
    (Some (bool_decide (i = k))) (Some (negb (bool_decide (i = k)))).

Definition cross_call {P} (pos : list (list P)) (i : nat) : tpcf_call P :=
  mk_call (default [] (pos !! i)) None None None.

(** The cells of the pair [(i, k)], on both sides of the diagonal, hold
    the flattened value [xi]. *)
Definition stored3 (m : tmatrix F) (i k : nat) (xi : pyval F) : Prop :=
  exists v col, val_ravel xi = Ok v
    /\ broadcast_to (depth m) v = Ok col
    /\ forall s, cell3 m s i k = col !! s /\ cell3 m s k i = col !! s.

(** The column of bin [i] holds the flattened value [xi]. *)
Definition stored2 (m : tmatrix F) (i : nat) (xi : pyval F) : Prop :=
  exists v col, val_ravel xi = Ok v
    /\ broadcast_to (depth m) v = Ok col
    /\ column2 m i = Some col.

(** What the cross-mode branch keeps of the value the callable returned. *)
Definition kept_component (name : string) (xi0 : pyval F)
  : result (pyval F) :=
  if decide (name = "delta_sigma") then val_item1 xi0 else Ok xi0.

(** The shape and the leading dimension recorded at the first call. *)
Definition recorded (m : tmatrix F) (shp : list nat) (xi : pyval F) : Prop :=
  val_shape xi = Ok shp
  /\ exists v, val_ravel xi = Ok v /\ length v = depth m.

Section LoopInvariants.
Context {P : Type}.
Variable tpcf : tpcf_call P -> result (pyval F).
Variable tpcf_name : string.
Variable pos : list (list P).

(** The cross-mode loop before it handles bin [i]. *)
Definition cross_inv (i : nat) (b : builder) : Prop :=
  (forall a c, (a, c) ∈ b_calls b ->
     a = c /\ a < i /\ 0 < subset_len pos a)
  /\ (forall a, a < i -> 0 < subset_len pos a -> (a, a) ∈ b_calls b)
  /\ match b_locals b with
     | None => b_calls b = []
     | Some ms =>
         wf2 ms.1 /\ bins_of ms.1 = length pos
         /\ (forall a, (a, a) ∈ b_calls b ->
               exists xi0 xi, tpcf (cross_call pos a) = Ok xi0
                 /\ kept_component tpcf_name xi0 = Ok xi
                 /\ stored2 ms.1 a xi)
         /\ (exists a0 xi0 xi, last (b_calls b) = Some (a0, a0)
               /\ tpcf (cross_call pos a0) = Ok xi0
               /\ kept_component tpcf_name xi0 = Ok xi
               /\ recorded ms.1 ms.2 xi)
     end.

(** The auto-mode loops before they handle the pair [(i, k)]. *)
Definition auto_stored_inv (i k : nat) (b : builder) : Prop :=
  (forall a c, (a, c) ∈ b_calls b ->
     a <= c /\ (a < i \/ (a = i /\ c < k)))
  /\ match b_locals b with
     | None => b_calls b = []
     | Some ms =>
         wf3 ms.1 /\ bins_of ms.1 = length pos
         /\ (forall a c, (a, c) ∈ b_calls b ->
               exists xi, tpcf (auto_call pos a c) = Ok xi
                 /\ stored3 ms.1 a c xi)
         /\ (exists a0 c0 xi, last (b_calls b) = Some (a0, c0)
               /\ tpcf (auto_call pos a0 c0) = Ok xi
               /\ recorded ms.1 ms.2 xi)
     end.
End LoopInvariants.
End Invariants.

(** ** [TabCorr.predict] *)

(** The occupation model: its two evaluators take the primary property
    of the bins of one type and, when the split is on, their secondary
    sides, and return one mean occupation per bin. *)
Record hod_model (F : Type) : Type := mk_model {
  mean_occupation_centrals : list F -> option (list nat) -> list F;
  mean_occupation_satellites : list F -> option (list nat) -> list F
}.
Arguments mk_model {F} _ _.
Arguments mean_occupation_centrals {F} _ _ _.
Arguments mean_occupation_satellites {F} _ _ _.

Section Predict.
Context {F : Type} `{Num F}.

(** Elementwise combination of two arrays along one axis, with numpy's
    broadcasting of an axis of length one. *)
Definition bzip {A B C} (f : A -> B -> result C) (l : list A) (k : list B)
  : result (list C) :=
  if decide (length l = length k) then
    map_result (fun p : A * B => f p.1 p.2) (zip l k)
  else
    match l, k with
    | [x], _ => map_result (f x) k
    | _, [y] => map_result (fun x => f x y) l
    | _, _ => Raise ValueError
    end.

Definition mul2 (a b : F) : result F := Ok (fmul a b).

(** [np.outer(a, b)] *)
Definition outer (a b : list F) : list (list F) :=
  map (fun x => map (fun y => fmul x y) b) a.

(** [a[mask] = vals] for a boolean mask: the selected entries are
    replaced, in order, by the values. *)
Fixpoint scatter (a : list F) (mask : list bool) (vals : list F) : list F :=
  match a, mask with
  | x :: a', true :: mask' =>
      match vals with
      | v :: vals' => v :: scatter a' mask' vals'
      | [] => x :: scatter a' mask' []
      end
  | x :: a', false :: mask' => x :: scatter a' mask' vals
  | _, _ => a
  end.

Definition count_true (mask : list bool) : nat :=
  length (filter (fun b => b = true) mask).

Definition mask_assign (a : list F) (mask : list bool) (vals : list F)
  : result (list F) :=
  if decide (length mask = length a) then
    vals' <- broadcast_to (count_true mask) vals ;;
    Ok (scatter a mask vals')
  else Raise IndexError.

(** The truth value of a Python object in an [if]. *)
Definition truthy (o : pyobj F) : result bool :=
  match o with
  | OBool b => Ok b
  | OInt z => Ok (negb (Z.eqb z 0))
  | OStr s => Ok (negb (String.eqb s ""))
  | OFloat x => Ok (negb (feq x fzero))
  | OShape l => Ok (negb (Nat.eqb (length l) 0))
  | OArr _ | OMatrix _ => Raise ValueError
  end.

Definition is_str (s : string) (o : pyobj F) : bool :=
  match o with
  | OStr s' => String.eqb s' s
  | _ => false
  end.

(** [x.reshape(shape)] of a flat array. *)
Definition reshape (x : list F) (shp : list nat) : result (ndarray F) :=
  if decide (prod_list shp = length x) then Ok (mk_ndarray shp x)
  else Raise ValueError.

(** [self.gal_type['sec'][mask] if self.attrs['sec_haloprop'] else None] *)
Definition sec_argument (self : TabCorr F) (mask : list bool)
  : result (option (list nat)) :=
  flag <- from_option KeyError (attrs self !! "sec_haloprop") ;;
  b <- truthy flag ;;
  if b then
    secs <- from_option KeyError (col_sec (gal_type self)) ;;
    Ok (Some (select mask secs))
  else Ok None.

(** The per-bin galaxy density [ngal]. *)
Definition galaxy_density (self : TabCorr F) (model : hod_model F)
  : result (list F) :=
  let t := gal_type self in
  let zeros := replicate (table_len t) fzero in
  let mask := map (fun g => bool_decide (g = "centrals")) (col_gal_type t) in
  let nmask := map negb mask in
  sec_c <- sec_argument self mask ;;
  occ1 <- mask_assign zeros mask
            (mean_occupation_centrals model
               (select mask (col_prim_haloprop t)) sec_c) ;;
  sec_s <- sec_argument self nmask ;;
  occ2 <- mask_assign occ1 nmask
            (mean_occupation_satellites model
               (select nmask (col_prim_haloprop t)) sec_s) ;;
  bzip mul2 occ2 (col_n_h t).

Definition predict (self : TabCorr F) (model : hod_model F)
  : result (list F * ndarray F) :=
  ngal <- galaxy_density self model ;;
  mode_attr <- from_option KeyError (attrs self !! "mode") ;;
  let total := sum_list ngal in
  if is_str "auto" mode_attr then
    match tpcf_matrix self with
    | Mat3 _ planes =>
        prods <- map_result
                   (fun plane => bzip (bzip mul2) plane (outer ngal ngal))
                   planes ;;
        let sums := map (fun p => sum_list (concat p)) prods in
        xi <- reshape (map (fun x => fdiv x (fmul total total)) sums)
                (tpcf_shape self) ;;
        Ok (ngal, xi)
    | Mat2 _ _ => Raise ValueError
    end
  else if is_str "cross" mode_attr then
    match tpcf_matrix self with
    | Mat2 _ rows =>
        prods <- map_result (fun row => bzip mul2 row ngal) rows ;;
        let sums := map sum_list prods in
        xi <- reshape (map (fun x => fdiv x total) sums) (tpcf_shape self) ;;
        Ok (ngal, xi)
    | Mat3 _ _ => Raise ValueError
    end
  else Raise UnboundLocalError.

(** *** The prediction, entry by entry *)

Definition at_index (l : list F) (i : nat) : F := default fzero (l !! i).

Definition entry3 (m : tmatrix F) (s i j : nat) : F :=
  default fzero (cell3 m s i j).

(** The mean occupation of every bin: the next value of the central
    evaluator for a bin of centrals, of the satellite evaluator
    otherwise. *)
Fixpoint interleave (mask : list bool) (cen sat : list F) : list F :=
  match mask with
  | [] => []
  | true :: mask' => at_index cen 0 :: interleave mask' (tail cen) sat
  | false :: mask' => at_index sat 0 :: interleave mask' cen (tail sat)
  end.

(** The sum over both bin dimensions of the matrix times the outer
    product of the density vector with itself, for statistic element
    [s]. *)
Definition weighted_pair_sum (m : tmatrix F) (ngal : list F) (s : nat) : F :=
  sum_list
    (i ← seq 0 (length ngal);
     j ← seq 0 (length ngal);
     [fmul (entry3 m s i j) (fmul (at_index ngal i) (at_index ngal j))]).

Definition centrals_mask (t : bin_table F) : list bool :=
  map (fun g => bool_decide (g = "centrals")) (col_gal_type t).

Definition sec_sides (b : bool) (t : bin_table F) (mask : list bool)
  : option (list nat) :=
  if b then select mask <$> col_sec t else None.

(** The mean occupation and the galaxy density of every bin: the mean
    occupation times [n_h]. *)
Definition bin_occupation (model : hod_model F) (b : bool)
    (t : bin_table F) : list F :=
  let mask := centrals_mask t in
  let nmask := map negb mask in
  interleave mask
    (mean_occupation_centrals model (select mask (col_prim_haloprop t))
       (sec_sides b t mask))
    (mean_occupation_satellites model (select nmask (col_prim_haloprop t))
       (sec_sides b t nmask)).

Definition bin_density (model : hod_model F) (b : bool) (t : bin_table F)
  : list F :=
  zip_with fmul (bin_occupation model b t) (col_n_h t).

Definition auto_statistic (m : tmatrix F) (ngal : list F) : list F :=
  map (fun s => fdiv (weighted_pair_sum m ngal s)
                  (fmul (sum_list ngal) (sum_list ngal)))
    (seq 0 (depth m)).
End Predict.

(** ** The file store *)

(** What a file holds under a name at its root: a dataset, a group of
    datasets, or the table that [astropy] writes. *)
Inductive h5node (F : Type) : Type :=
  | Dataset (v : pyobj F)
  | Group (members : gmap string (pyobj F))
  | TableNode (t : bin_table F).
Arguments Dataset {F} v.
Arguments Group {F} members.
Arguments TableNode {F} t.

Record h5file (F : Type) : Type := mk_h5file {
  f_attrs : gmap string (pyobj F);
  f_root : gmap string (h5node F)
}.
Arguments mk_h5file {F} f_attrs f_root.
Arguments f_attrs {F} _.
Arguments f_root {F} _.

(** The order in which a group lists its members: by name, byte by
    byte. *)
Definition name_le (a b : string) : Prop := String.leb a b.

#[global] Instance name_le_dec a b : Decision (name_le a b) :=
  Is_true_dec (String.leb a b).

Definition keys {V} (g : gmap string V) : list string :=
  merge_sort name_le (map fst (map_to_list g)).

(** ['arg_%d' % i] *)
Definition arg_name (i : nat) : string := "arg_" +:+ pretty i.

(** The attributes that [write] stores. *)
Definition attr_keys : list string :=
  ["tpcf"; "mode"; "simname"; "redshift"; "Num_ptcl_requirement";
   "prim_haloprop_key"; "sec_haloprop"; "sec_haloprop_key";
   "sec_haloprop_split"].

(** Files by name. *)
Abbreviation store F := (gmap string (h5file F)).

Section Persistence.
Context {F : Type}.

(** A step that may raise and may change the files. *)
Definition io (A : Type) : Type := store F -> result A * store F.

Definition io_ret {A} (a : A) : io A := fun fs => (Ok a, fs).

Definition io_bind {A B} (c : io A) (k : A -> io B) : io B :=
  fun fs =>
    match c fs with
    | (Ok a, fs') => k a fs'
    | (Raise e, fs') => (Raise e, fs')
    end.

Fixpoint io_for {X} (body : X -> io unit) (xs : list X) : io unit :=
  match xs with
  | [] => io_ret tt
  | x :: xs' => io_bind (body x) (fun _ => io_for body xs')
  end.

Definition empty_file : h5file F := mk_h5file ∅ ∅.

(** [h5py.File(fname, 'w-')]: create the file, fail if it exists. *)
Definition create_new (fname : string) : io unit :=
  fun fs =>
    match fs !! fname with
    | Some _ => (Raise FileExistsError, fs)
    | None => (Ok tt, <[fname := empty_file]> fs)
    end.

(** A change to the open file. *)
Definition on_file (fname : string) (f : h5file F -> result (h5file F))
  : io unit :=
  fun fs =>
    match fs !! fname with
    | None => (Raise FileNotFoundError, fs)
    | Some file =>
        match f file with
        | Ok file' => (Ok tt, <[fname := file']> fs)
        | Raise e => (Raise e, fs)
        end
    end.

(** [fstream.attrs[key] = v] *)
Definition set_attr (key : string) (v : pyobj F) (file : h5file F)
  : result (h5file F) :=
  Ok (mk_h5file (<[key := v]> (f_attrs file)) (f_root file)).

(** [fstream[name] = v]: a name that exists is not written over. *)
Definition set_node (name : string) (node : h5node F) (file : h5file F)
  : result (h5file F) :=
  match f_root file !! name with
  | Some _ => Raise ValueError
  | None => Ok (mk_h5file (f_attrs file) (<[name := node]> (f_root file)))
  end.

(** [fstream[group + '/' + key] = v]: the group is created when it is
    missing. *)
Definition set_member (group key : string) (v : pyobj F) (file : h5file F)
  : result (h5file F) :=
  match f_root file !! group with
  | None =>
      Ok (mk_h5file (f_attrs file)
            (<[group := Group {[key := v]}]> (f_root file)))
  | Some (Group g) =>
      match g !! key with
      | Some _ => Raise ValueError
      | None =>
          Ok (mk_h5file (f_attrs file)
                (<[group := Group (<[key := v]> g)]> (f_root file)))
      end
  | Some _ => Raise ValueError
  end.

(** [TabCorr.write] *)
Definition write (self : TabCorr F) (fname : string) : io unit :=
  io_bind (create_new fname) (fun _ =>
  io_bind (io_for (fun key =>
             on_file fname (fun file =>
               v <- from_option KeyError (attrs self !! key) ;;
               set_attr key v file)) attr_keys) (fun _ =>
  io_bind (on_file fname
             (set_node "tpcf_matrix" (Dataset (OMatrix (tpcf_matrix self)))))
    (fun _ =>
  io_bind (io_for (fun p : nat * pyobj F =>
             on_file fname (set_member "tpcf_args" (arg_name p.1) p.2))
             (imap pair (tpcf_args self))) (fun _ =>
  io_bind (io_for (fun p : string * pyobj F =>
             on_file fname (set_member "tpcf_kwargs" p.1 p.2))
             (map_to_list (tpcf_kwargs self))) (fun _ =>
  io_bind (on_file fname
             (set_node "tpcf_shape" (Dataset (OShape (tpcf_shape self)))))
    (fun _ =>
  on_file fname (set_node "gal_type" (TableNode (gal_type self))))))))).

(** What [write] puts in the file it created, step by step. *)
Definition write_file (self : TabCorr F) (file : h5file F)
  : result (h5file F) :=
  f1 <- for_each (fun key file =>
                    v <- from_option KeyError (attrs self !! key) ;;
                    set_attr key v file) attr_keys file ;;
  f2 <- set_node "tpcf_matrix" (Dataset (OMatrix (tpcf_matrix self))) f1 ;;
  f3 <- for_each (fun p : nat * pyobj F =>
                    set_member "tpcf_args" (arg_name p.1) p.2)
          (imap pair (tpcf_args self)) f2 ;;
  f4 <- for_each (fun p : string * pyobj F =>
                    set_member "tpcf_kwargs" p.1 p.2)
          (map_to_list (tpcf_kwargs self)) f3 ;;
  f5 <- set_node "tpcf_shape" (Dataset (OShape (tpcf_shape self))) f4 ;;
  set_node "gal_type" (TableNode (gal_type self)) f5.

(** The members of the group [tpcf_args], and the root of the file with
    the group [tpcf_kwargs], which exists only for a non-empty mapping. *)
Definition named_args (args : list (pyobj F)) : list (string * pyobj F) :=
  imap (fun i v => (arg_name i, v)) args.

Definition with_kwargs (kwargs : gmap string (pyobj F))
    (root : gmap string (h5node F)) : gmap string (h5node F) :=
  if decide (kwargs = ∅) then root
  else <["tpcf_kwargs" := Group kwargs]> root.

(** The file that [write] leaves for an object with a positional
    argument. *)
Definition written (self : TabCorr F) : h5file F :=
  mk_h5file (attrs self)
    (<["gal_type" := TableNode (gal_type self)]>
     (<["tpcf_shape" := Dataset (OShape (tpcf_shape self))]>
      (with_kwargs (tpcf_kwargs self)
        (<["tpcf_args" := Group (list_to_map (named_args (tpcf_args self)))]>
         (<["tpcf_matrix" := Dataset (OMatrix (tpcf_matrix self))]> ∅))))).

(** [fstream[name].value] *)
Definition dataset_value (file : h5file F) (name : string)
  : result (pyobj F) :=
  node <- from_option KeyError (f_root file !! name) ;;
  match node with
  | Dataset v => Ok v
  | _ => Raise AttributeError
  end.

(** The values of the members of a group, in the order of its keys. *)
Definition member_values (g : gmap string (pyobj F)) : result (list (pyobj F)) :=
  map_result (fun key => from_option KeyError (g !! key)) (keys g).

(** [TabCorr.read].  The fields of the object are typed here, so that a
    file whose [tpcf_matrix] is not a matrix, or whose [tpcf_shape] is
    not a sequence, is refused. *)
Definition read (fname : string) (fs : store F) : result (TabCorr F) :=
  file <- from_option FileNotFoundError (fs !! fname) ;;
  let attrs := f_attrs file in
  mv <- dataset_value file "tpcf_matrix" ;;
  matrix <- match mv with OMatrix m => Ok m | _ => Raise ValueError end ;;
  anode <- from_option KeyError (f_root file !! "tpcf_args") ;;
  args <- match anode with
          | Group g => member_values g
          | _ => Raise AttributeError
          end ;;
  kwargs <- match f_root file !! "tpcf_kwargs" with
            | None => Ok ∅
            | Some (Group g) => Ok g
            | Some _ => Raise AttributeError
            end ;;
  sv <- dataset_value file "tpcf_shape" ;;
  shp <- match sv with OShape l => Ok l | _ => Raise ValueError end ;;
  tnode <- from_option KeyError (f_root file !! "gal_type") ;;
  t <- match tnode with TableNode t => Ok t | _ => Raise ValueError end ;;
  Ok (mk_TabCorr true t attrs args kwargs shp matrix).
End Persistence.

(** ** Membership of a galaxy in a bin, as a proposition *)


Section Intervals.
Context {F : Type} `{Num F} {P : Type}.
Variable opts : tab_options F.
Variable t : bin_table F.


End Intervals.

(** ** The cross-mode prediction, entry by entry *)

Section PredictCrossSpec.
Context {F : Type} `{Num F}.

Definition entry2 (m : tmatrix F) (s i : nat) : F :=
  default fzero (cell2 m s i).

(** The sum over the bin dimension of the matrix times the density
    vector, for statistic element [s]. *)
Definition weighted_sum (m : tmatrix F) (ngal : list F) (s : nat) : F :=
  sum_list
    (map (fun i => fmul (entry2 m s i) (at_index ngal i))
       (seq 0 (length ngal))).

Definition cross_statistic (m : tmatrix F) (ngal : list F) : list F :=
  map (fun s => fdiv (weighted_sum m ngal s) (sum_list ngal))
    (seq 0 (depth m)).
End PredictCrossSpec.

(** ** Files and steps on files *)

Section FileStatements.
Context {F : Type}.

(** The file that [write] leaves for an object without positional
    argument: it has no group [tpcf_args]. *)
Definition written_no_args (self : TabCorr F) : h5file F :=
  mk_h5file (attrs self)
    (<["gal_type" := TableNode (gal_type self)]>
     (<["tpcf_shape" := Dataset (OShape (tpcf_shape self))]>
      (with_kwargs (tpcf_kwargs self)
        (<["tpcf_matrix" := Dataset (OMatrix (tpcf_matrix self))]> ∅)))).

(** A file as written before keyword arguments were stored: without the
    group [tpcf_kwargs]. *)
Definition without_kwargs (file : h5file F) : h5file F :=
  mk_h5file (f_attrs file) (delete "tpcf_kwargs" (f_root file)).

(** A step leaves the files of other names alone, and does not remove
    the file of this name. *)
Definition local_to {A} (fname : string) (c : io (F:=F) A) : Prop :=
  forall fs : store F,
    (forall other, other <> fname -> (c fs).2 !! other = fs !! other)
    /\ (is_Some (fs !! fname) -> is_Some ((c fs).2 !! fname)).
End FileStatements.

(** ** The cross-mode loop, bin by bin *)

Section CrossLoop.
Context {F : Type} `{Num F}.

(** The bins the cross-mode loop goes through, in order, written as the
    pairs the log of calls uses. *)
Definition cross_pairs (n : nat) : list (nat * nat) :=
  (fun i => (i, i)) <$> range 0 n.

(** The columns of the bins that were not computed hold zero. *)
Definition untouched_zero2 (m : tmatrix F) (calls : list (nat * nat)) : Prop :=
  forall s i, s < depth m -> i < bins_of m ->
    (i, i) ∉ calls -> cell2 m s i = Some fzero.

Definition cross_zero_inv (n : nat) (b : builder (F:=F)) : Prop :=
  match b_locals b with
  | None => True
  | Some ms =>
      wf2 ms.1 /\ bins_of ms.1 = n /\ untouched_zero2 ms.1 (b_calls b)
  end.
End CrossLoop.

(** ** A small catalogue over the integers

    Integers with truncating division stand for the numbers; they serve
    for running the definitions on concrete inputs. *)

Module Demo.
(** The integer part of the decimal logarithm. *)
Fixpoint log10_fuel (fuel : nat) (z : Z) : Z :=
  match fuel with
  | 0 => 0%Z
  | S fuel' =>
      if (z <? 10)%Z then 0%Z else (1 + log10_fuel fuel' (z / 10))%Z
  end.

(** One half truncates to zero. *)
#[global] Instance Z_Num : Num Z := {|
  fzero := 0%Z;
  fone := 1%Z;
  fhalf := 0%Z;
  fadd := Z.add;
  fsub := Z.sub;
  fmul := Z.mul;
  fdiv := Z.div;
  of_nat := Z.of_nat;
  flt := Z.ltb;
  fle := Z.leb;
  feq := Z.eqb;
  fis_finite := fun _ => true;
  log10 := fun z => log10_fuel (S (Z.to_nat (Z.log2 z))) z;
  pow10 := fun z => (10 ^ z)%Z
|}.

(** Three host halos of 100, 1000 and 10000 particle masses and one
    sub-halo. *)
Definition halocat : halo_catalog Z :=
  mk_halocat
    [mk_halo 1 (-1) 100; mk_halo 2 (-1) 1000; mk_halo 3 (-1) 10000;
     mk_halo 4 1 500]%Z
    1%Z [1; 1; 1]%Z 0%Z "demo".

(** A stand-in for the conditional percentiles: ten times the halo id. *)
Definition ccp (halos : list (halo Z)) : list Z :=
  map (fun h => (halo_id h * 10)%Z) halos.

(** Positions are plain integers here. *)
Definition gals : list (galaxy Z Z) :=
  [mk_galaxy 1 100 "centrals" 11; mk_galaxy 2 1000 "centrals" 12;
   mk_galaxy 3 10000 "centrals" 13; mk_galaxy 3 10000 "satellites" 14;
   mk_galaxy 3 10000 "satellites" 15]%Z.

(** The same galaxies and one more, whose halo id 9 is the id of no
    halo. *)
Definition gals_orphan : list (galaxy Z Z) :=
  gals ++ [mk_galaxy 9 1000 "centrals" 16]%Z.

(** A callable that returns the sizes of its two samples. *)
Definition tpcf (c : tpcf_call Z) : result (pyval Z) :=
  Ok (PArr (mk_ndarray [2]
        [Z.of_nat (length (sample1 c));
         Z.of_nat (length (default [] (sample2 c)))])).

Definition opts (m : tmode) : tab_options Z :=
  mk_options m 50 "halo_mvir" false "halo_nfw_conc" 0%Z 2.

(** A callable in the manner of [delta_sigma]: it returns a pair, the
    bin centres and the profile. *)
Definition delta_sigma (c : tpcf_call Z) : result (pyval Z) :=
  Ok (PTuple [mk_ndarray [2] [5; 50]%Z;
              mk_ndarray [2]
                [Z.of_nat (length (sample1 c));
                 (2 * Z.of_nat (length (sample1 c)))%Z]]).

(** The same halos in a simulation whose particles are so massive
    that no halo holds 50 of them. *)
Definition halocat_coarse : halo_catalog Z :=
  mk_halocat (halo_table halocat) 1000%Z [1; 1; 1]%Z 0%Z "coarse".

(** A model with one central and one satellite expected in every
    halo. *)
Definition model : hod_model Z :=
  mk_model (fun xs _ => map (fun _ => 1%Z) xs)
           (fun xs _ => map (fun _ => 1%Z) xs).

(** Eleven positional arguments for the callable. *)
Definition eleven_args : list (pyobj Z) :=
  map (fun i => OInt (Z.of_nat i)) (seq 0 11).

Definition run (m : tmode) : result (TabCorr Z * list (nat * nat)) :=
  tabulate_run ccp gals tpcf "tpcf" [] ∅ halocat (opts m).

(** The object that [tabulate] builds from the catalogue. *)
Definition tabulated (m : tmode) (args : list (pyobj Z))
  : result (TabCorr Z) :=
  tabulate ccp gals tpcf "tpcf" args ∅ halocat (opts m).

(** An object with its attributes changed. *)
Definition with_attrs (f : gmap string (pyobj Z) -> gmap string (pyobj Z))
    (ht : TabCorr Z) : TabCorr Z :=
  mk_TabCorr (init ht) (gal_type ht) (f (attrs ht)) (tpcf_args ht)
    (tpcf_kwargs ht) (tpcf_shape ht) (tpcf_matrix ht).

(** A model whose evaluator for the centrals returns three values,
    whatever the bins. *)
Definition model_three : hod_model Z :=
  mk_model (fun _ _ => [1; 1; 1]%Z) (fun xs _ => map (fun _ => 1%Z) xs).

(** The options with no primary bin. *)
Definition opts_no_bins : tab_options Z :=
  mk_options Auto 50 "halo_mvir" false "halo_nfw_conc" 0%Z 0.

(** A small object with one positional and one keyword argument. *)
Definition small : TabCorr Z :=
  mk_TabCorr true (mk_bin_table [] None [] [] [] []) ∅ [OInt 7]
    {["period" := OInt 1]} [2] (Mat2 0 [[]; []]).
End Demo.

(** ** A catalogue over binary64 numbers *)

(** The numbers of the program, with the operations of IEEE 754 that
    the kernel provides.  The two halos below have masses [10^15] and
    [10^15 + 64], so close that their logarithms are sixteen units in
    the last place apart. *)
Module FloatDemo.
Import PrimFloat.

(** A count as a float: exact below [2^53]. *)
Definition float_of_nat (n : nat) : float :=
  Nat.iter n (fun x => x + 1)%float 0%float.

Definition ln10 : float := 0x1.26bb1bbb55516p+1%float.

(** [np.log10] and [10**x] on the narrow range of this catalogue, by
    their tangents at [10^15] and at [15]: there the tangents are within
    a unit in the last place of the functions. *)
Definition log10_near (p : float) : float :=
  (15 + (p - 1e15) / (1e15 * ln10))%float.

Definition pow10_near (x : float) : float :=
  (1e15 + (x - 15) * (1e15 * ln10))%float.

#[global] Instance Float_Num : Num float := {|
  fzero := 0%float;
  fone := 1%float;
  fhalf := 0.5%float;
  fadd := add;
  fsub := sub;
  fmul := mul;
  fdiv := div;
  of_nat := float_of_nat;
  flt := ltb;
  fle := leb;
  feq := eqb;
  fis_finite := is_finite;
  log10 := log10_near;
  pow10 := pow10_near
|}.


Definition halocat : halo_catalog float :=
  mk_halocat
    [mk_halo 1%Z (-1)%Z 1e15%float;
     mk_halo 2%Z (-1)%Z 1000000000000064%float]
    1e12%float [1; 1; 1]%float 0%float "close".

Definition ccp (halos : list (halo float)) : list float :=
  map (fun _ => 0.5%float) halos.

(** One central galaxy in each halo. *)
Definition gals : list (galaxy float Z) :=
  [mk_galaxy 1%Z 1e15%float "centrals" 11%Z;
   mk_galaxy 2%Z 1000000000000064%float "centrals" 12%Z].

Definition tpcf (c : tpcf_call Z) : result (pyval float) :=
  Ok (PArr (mk_ndarray [1] [float_of_nat (length (sample1 c))])).

(** A hundred primary bins, no secondary split. *)
Definition opts : tab_options float :=
  mk_options Auto 300 "halo_mvir" false "halo_nfw_conc" 0.5%float 100.
End FloatDemo.

(** * Properties *)

(** ** The result monad and loops *)

Lemma bind_Ok {A B} (r : result A) (k : A -> result B) (b : B) :
  bind r k = Ok b -> exists a, r = Ok a /\ k a = Ok b.
Proof. destruct r as [a|e]; simpl; [eauto | discriminate]. Qed.

Lemma from_option_Ok {A} e (o : option A) a :
  from_option e o = Ok a -> o = Some a.
Proof. destruct o; simpl; congruence. Qed.

Ltac inv_bind H :=
  let a := fresh "a" in
  let Ha := fresh "Ha" in
  apply bind_Ok in H; destruct H as (a & Ha & H).

Lemma elem_of_range a b k : k ∈ range a b <-> a <= k < b.
Proof. unfold range. rewrite elem_of_seq. lia. Qed.

(** ** Arrays *)

Section ArrayFacts.
Context {F : Type} `{Num F}.

Lemma broadcast_to_length k (v v' : list F) :
  broadcast_to k v = Ok v' -> length v' = k.
Proof.
  unfold broadcast_to. case_decide as Hl.
  - intros [= <-]. exact Hl.
  - destruct v as [|x [|y v]]; intros [= <-]. apply length_replicate.
Qed.

Lemma broadcast_to_same k (v : list F) :
  length v = k -> broadcast_to k v = Ok v.
Proof. intros Hl. unfold broadcast_to. by rewrite decide_True. Qed.
End ArrayFacts.

(** ** The matrix builder *)

Section BuilderFacts.
Context {F : Type} `{Num F} {P : Type}.

Lemma grid_set_cell n i k (x : F) (plane : list (list F)) :
  grid n plane -> grid n (set_cell i k x plane).
Proof.
  intros [Hl Hrows]. split.
  - unfold set_cell. by rewrite length_alter.
  - unfold set_cell. apply Forall_alter; [done|].
    intros row _ Hrow. by rewrite length_insert.
Qed.

Lemma set_cell_lookup n i k (x : F) (plane : list (list F)) a b :
  grid n plane -> i < n -> k < n ->
  (row ← set_cell i k x plane !! a; row !! b)
  = if decide (a = i /\ b = k) then Some x
    else (row ← plane !! a; row !! b).
Proof.
  intros [Hl Hrows] Hi Hk. unfold set_cell.
  rewrite list_lookup_alter.
  destruct (decide (i = a)) as [<-|Hne].
  - destruct (lookup_lt_is_Some_2 plane i) as [row Hrow]; [lia|].
    rewrite Hrow. simpl.
    assert (length row = n) as Hlr.
    { eapply (proj1 (Forall_lookup _ _) Hrows); eauto. }
    rewrite list_lookup_insert.
    destruct (decide (b = k)) as [->|Hb].
    + rewrite !decide_True by (split; [done|lia]). done.
    + rewrite !decide_False by (intros [? ?]; congruence). done.
  - rewrite decide_False by (intros [? ?]; congruence). done.
Qed.

Lemma zeros3_wf k n : wf3 (Mat3 n (zeros3 (F:=F) k n)).
Proof.
  simpl. apply Forall_replicate. split.
  - apply length_replicate.
  - apply Forall_replicate, length_replicate.
Qed.

Lemma zeros3_cell k n s i j :
  s < k -> i < n -> j < n -> cell3 (Mat3 n (zeros3 (F:=F) k n)) s i j = Some fzero.
Proof.
  intros Hs Hi Hj. simpl. unfold zeros3.
  rewrite lookup_replicate_2 by done. simpl.
  rewrite lookup_replicate_2 by done. simpl.
  by rewrite lookup_replicate_2.
Qed.

Lemma zeros3_cell_None k n s i j :
  ~ (s < k /\ i < n /\ j < n) -> cell3 (Mat3 n (zeros3 (F:=F) k n)) s i j = None.
Proof.
  intros Hn. simpl. unfold zeros3.
  destruct (decide (s < k)) as [Hs|Hs].
  - rewrite lookup_replicate_2 by done. simpl.
    destruct (decide (i < n)) as [Hi|Hi].
    + rewrite lookup_replicate_2 by done. simpl.
      apply lookup_replicate_None. lia.
    + rewrite (proj1 (lookup_replicate_None _ _ _)) by lia. done.
  - rewrite (proj1 (lookup_replicate_None _ _ _)) by lia. done.
Qed.

(** What [tpcf_matrix[:, i, k] = v] does to every cell. *)
Lemma assign3_spec (m : tmatrix F) i k (v : list F) (m' : tmatrix F) :
  wf3 m -> assign3 m i k v = Ok m' ->
  exists v', broadcast_to (depth m) v = Ok v'
    /\ wf3 m' /\ depth m' = depth m /\ bins_of m' = bins_of m
    /\ i < bins_of m /\ k < bins_of m
    /\ forall s a b, cell3 m' s a b
         = if decide (a = i /\ b = k) then v' !! s else cell3 m s a b.
Proof.
  destruct m as [n planes|n rows]; simpl; [|done].
  intros Hwf. case_decide as Hik; [|done].
  intros Hrun. inv_bind Hrun. injection Hrun as <-.
  pose proof (broadcast_to_length _ _ _ Ha) as Hlen.
  exists a. split; [done|]. split; [|split; [|split; [done|split; [lia|split; [lia|]]]]].
  - simpl. apply Forall_forall. intros plane Hin.
    apply list_elem_of_lookup in Hin as [s Hs].
    apply lookup_zip_with_Some in Hs as (p & x & -> & Hp & Hx).
    apply grid_set_cell. eapply (proj1 (Forall_lookup _ _) Hwf); eauto.
  - simpl. rewrite length_zip_with_l_eq; [done|lia].
  - intros s a' b. simpl. rewrite lookup_zip_with.
    destruct (planes !! s) as [plane|] eqn:Hp; simpl.
    + destruct (lookup_lt_is_Some_2 a s) as [x Hx].
      { rewrite Hlen. eapply lookup_lt_Some; eauto. }
      rewrite Hx. simpl.
      rewrite (set_cell_lookup n); [done| |lia|lia].
      eapply (proj1 (Forall_lookup _ _) Hwf); eauto.
    + case_decide; [|done].
      symmetry. apply lookup_ge_None. rewrite Hlen.
      by apply lookup_ge_None.
Qed.
End BuilderFacts.

Section AutoLoop.
Context {F : Type} `{Num F} {P : Type}.
Variable tpcf : tpcf_call P -> result (pyval F).
Variable tpcf_name : string.
Variable pos : list (list P).

Local Abbreviation n := (length pos).

Lemma pos_at_Ok i (p : list P) :
  pos_at pos i = Ok p -> i < n /\ pos !! i = Some p
                         /\ subset_len pos i = length p.
Proof.
  unfold pos_at. intros Hp%from_option_Ok. split; [|split; [done|]].
  - eapply lookup_lt_Some; eauto.
  - unfold subset_len. by rewrite Hp.
Qed.

Lemma zeros3_symmetric k m : symmetric3 (Mat3 m (zeros3 (F:=F) k m)).
Proof.
  intros s i j.
  destruct (decide (s < k /\ i < m /\ j < m)) as [(?&?&?)|Hn].
  - by rewrite !zeros3_cell.
  - rewrite !zeros3_cell_None; [done|lia|lia].
Qed.

(** One iteration of the inner loop: it keeps the invariant and logs
    its call exactly when both subsets hold a galaxy. *)
Lemma auto_body_spec i k (b b' : builder (F:=F)) :
  auto_inv n b -> auto_body tpcf pos i k b = Ok b' ->
  auto_inv n b'
  /\ b_calls b' = (if decide (nonempty_pair pos (i, k)) then [(i, k)] else [])
                  ++ b_calls b.
Proof.
  intros Hinv Hrun. unfold auto_body in Hrun.
  inv_bind Hrun. rename a into pi, Ha into Hpi.
  inv_bind Hrun. rename a into pk, Ha into Hpk.
  apply pos_at_Ok in Hpi as (Hi & _ & Hli).
  apply pos_at_Ok in Hpk as (Hk & _ & Hlk).
  assert (nonempty_pair pos (i, k) <-> 0 < length pi * length pk) as Hiff.
  { unfold nonempty_pair. simpl. by rewrite Hli, Hlk. }
  case_decide as Hne;
    [rewrite decide_True by (by apply Hiff)
    |rewrite decide_False by (by rewrite Hiff); injection Hrun as <-; done].
  inv_bind Hrun. rename a into xi, Ha into Hxi.
  inv_bind Hrun. rename a into v, Ha into Hv.
  inv_bind Hrun. rename a into ms, Ha into Hms.
  inv_bind Hrun. rename a into m1, Ha into Hm1.
  inv_bind Hrun. rename a into m2, Ha into Hm2.
  injection Hrun as <-. split; [|done].
  assert (wf3 ms.1 /\ bins_of ms.1 = n /\ symmetric3 ms.1
          /\ untouched_zero ms.1 (b_calls b)) as (Hwf & Hn & Hsym & Hz).
  { unfold auto_inv in Hinv. destruct (b_locals b) as [ms0|].
    - injection Hms as <-. exact Hinv.
    - inv_bind Hms. injection Hms as <-. simpl.
      split; [apply zeros3_wf|]. split; [done|].
      split; [apply zeros3_symmetric|].
      intros s a' c Hs Ha' Hc _ _. simpl in *.
      unfold zeros3 in Hs. rewrite length_replicate in Hs.
      by apply zeros3_cell. }
  destruct (assign3_spec _ _ _ _ _ Hwf Hm1)
    as (v1 & Hv1 & Hwf1 & Hd1 & Hb1 & _ & _ & Hc1).
  destruct (assign3_spec _ _ _ _ _ Hwf1 Hm2)
    as (v2 & Hv2 & Hwf2 & Hd2 & Hb2 & _ & _ & Hc2).
  rewrite Hd1 in Hv2. rewrite Hv1 in Hv2. injection Hv2 as <-.
  unfold auto_inv. simpl. split; [done|]. split; [congruence|]. split.
  - intros s a' c. rewrite !Hc2, !Hc1. rewrite (Hsym s a' c).
    repeat case_decide; try done; exfalso; intuition congruence.
  - intros s a' c Hs Ha' Hc Hn1 Hn2. rewrite Hc2, Hc1.
    rewrite !not_elem_of_cons in Hn1, Hn2.
    destruct Hn1 as [Hn1 Hn1'], Hn2 as [Hn2 Hn2'].
    rewrite !decide_False by (intros [? ?]; congruence).
    apply Hz; [lia|congruence|congruence|done|done].
Qed.

Lemma inner_loop_spec i ks (b b' : builder (F:=F)) :
  auto_inv n b -> for_each (auto_body tpcf pos i) ks b = Ok b' ->
  auto_inv n b'
  /\ b_calls b' = reverse (filter (nonempty_pair pos) (pair i <$> ks))
                  ++ b_calls b.
Proof.
  revert b. induction ks as [|k ks IH]; intros b Hinv Hrun; simpl in Hrun.
  - injection Hrun as <-. done.
  - inv_bind Hrun.
    destruct (auto_body_spec _ _ _ _ Hinv Ha) as [Hinv1 Hc1].
    destruct (IH _ Hinv1 Hrun) as [Hinv2 Hc2].
    split; [done|]. rewrite Hc2, Hc1. rewrite fmap_cons, filter_cons.
    case_decide; [|done].
    rewrite reverse_cons, <- app_assoc. done.
Qed.

Lemma outer_loop_spec rows (b b' : builder (F:=F)) :
  auto_inv n b ->
  for_each (row_body tpcf tpcf_name pos Auto) rows b = Ok b' ->
  auto_inv n b'
  /\ b_calls b'
     = reverse (filter (nonempty_pair pos)
                  (i ← rows; pair i <$> range i n))
       ++ b_calls b.
Proof.
  revert b. induction rows as [|i rows IH]; intros b Hinv Hrun;
    simpl in Hrun.
  - injection Hrun as <-. done.
  - inv_bind Hrun. unfold n_bins in Ha.
    destruct (inner_loop_spec _ _ _ _ Hinv Ha) as [Hinv1 Hc1].
    destruct (IH _ Hinv1 Hrun) as [Hinv2 Hc2].
    split; [done|]. rewrite Hc2, Hc1. rewrite bind_cons, filter_app.
    rewrite reverse_app, <- app_assoc. done.
Qed.

(** The auto-mode builder: its invariant and its calls. *)
Lemma build_auto_spec (b : builder (F:=F)) :
  build tpcf tpcf_name pos Auto = Ok b ->
  auto_inv n b
  /\ b_calls b = reverse (filter (nonempty_pair pos) (auto_pairs n)).
Proof.
  intros Hrun. unfold build, n_bins in Hrun.
  destruct (outer_loop_spec _ builder_init b I Hrun) as [Hinv Hc].
  split; [done|]. rewrite Hc. simpl. by rewrite app_nil_r.
Qed.

Lemma elem_of_auto_pairs m i k :
  (i, k) ∈ auto_pairs m <-> i <= k < m.
Proof.
  unfold auto_pairs. rewrite list_elem_of_bind. split.
  - intros (i' & Hin & Hi'). apply list_elem_of_fmap in Hin as (k' & [= -> ->] & Hk').
    apply elem_of_range in Hk'. lia.
  - intros Hik. exists i. split.
    + apply list_elem_of_fmap. exists k. split; [done|].
      apply elem_of_range. lia.
    + apply elem_of_range. lia.
Qed.

Lemma build_auto_calls_mem (b : builder (F:=F)) a c :
  build tpcf tpcf_name pos Auto = Ok b ->
  (a, c) ∈ b_calls b
  <-> a <= c < n /\ 0 < subset_len pos a /\ 0 < subset_len pos c.
Proof.
  intros Hrun. destruct (build_auto_spec _ Hrun) as [_ Hcalls].
  rewrite Hcalls, elem_of_reverse, list_elem_of_filter.
  rewrite elem_of_auto_pairs. unfold nonempty_pair. simpl.
  split.
  - intros [Hp ?]. split; [done|]. nia.
  - intros (? & ? & ?). split; [nia|done].
Qed.
End AutoLoop.

(** ** [tabulate] stage by stage *)

Lemma map_result_length {A B} (f : A -> result B) l l' :
  map_result f l = Ok l' -> length l' = length l.
Proof.
  revert l'. induction l as [|x l IH]; intros l' Hrun; simpl in Hrun.
  - by injection Hrun as <-.
  - inv_bind Hrun. inv_bind Hrun. injection Hrun as <-.
    simpl. f_equal. by apply IH.
Qed.

Lemma map_result_lookup {A B} (f : A -> result B) l l' i x :
  map_result f l = Ok l' -> l !! i = Some x ->
  exists y, f x = Ok y /\ l' !! i = Some y.
Proof.
  revert l' i. induction l as [|x0 l IH]; intros l' i Hrun Hx; [done|].
  simpl in Hrun. inv_bind Hrun. inv_bind Hrun. injection Hrun as <-.
  destruct i as [|i]; simpl in *.
  - injection Hx as <-. eauto.
  - eapply IH; eauto.
Qed.

Section TabulateFacts.
Context {F : Type} `{Num F} {P : Type}.
Variable compute_conditional_percentiles : list (halo F) -> list F.
Variable gals : list (galaxy F P).
Variable tpcf : tpcf_call P -> result (pyval F).
Variable tpcf_name : string.
Variable args : list (pyobj F).
Variable kwargs : gmap string (pyobj F).
Variable halocat : halo_catalog F.
Variable opts : tab_options F.

Local Abbreviation run :=
  (tabulate_run compute_conditional_percentiles gals tpcf tpcf_name
     args kwargs halocat opts).
Local Abbreviation halos := (qualifying_halos halocat opts).

(** A run of [tabulate] that returns went through every stage. *)
Lemma tabulate_run_inv ht calls :
  run = Ok (ht, calls) ->
  exists pct gpct pos b,
    percentiles compute_conditional_percentiles halos = Ok pct
    /\ make_bin_table halocat opts halos pct = Ok (gal_type ht)
    /\ join_percentiles gals halos pct = Ok gpct
    /\ position_subsets gals opts (gal_type ht) gpct = Ok pos
    /\ length pos = table_len (gal_type ht)
    /\ build tpcf tpcf_name pos (mode opts) = Ok b
    /\ b_locals b = Some (tpcf_matrix ht, tpcf_shape ht)
    /\ calls = b_calls b
    /\ attrs ht = make_attrs tpcf_name halocat opts
    /\ tpcf_args ht = args /\ tpcf_kwargs ht = kwargs /\ init ht = true.
Proof.
  unfold tabulate_run. intros Hrun.
  inv_bind Hrun. rename a into pct, Ha into Hpct.
  inv_bind Hrun. rename a into t, Ha into Ht.
  inv_bind Hrun. rename a into gpct, Ha into Hg.
  inv_bind Hrun. rename a into pos, Ha into Hpos.
  inv_bind Hrun. rename a into b, Ha into Hb.
  inv_bind Hrun. rename a into ms, Ha into Hms.
  apply from_option_Ok in Hms. injection Hrun as <- <-. simpl.
  exists pct, gpct, pos, b. repeat split; try done.
  - apply map_result_length in Hpos. rewrite Hpos. unfold range.
    rewrite length_seq. lia.
  - rewrite Hms. by destruct ms.
Qed.

Lemma tabulate_Ok ht :
  tabulate compute_conditional_percentiles gals tpcf tpcf_name
    args kwargs halocat opts = Ok ht ->
  exists calls, run = Ok (ht, calls).
Proof.
  unfold tabulate. intros Hrun. inv_bind Hrun. injection Hrun as <-.
  exists a.2. by destruct a.
Qed.
End TabulateFacts.


(** A loop over [range(a, a + len)] whose invariant knows the index. *)
Lemma for_each_seq_inv {St} (I : nat -> St -> Prop)
    (body : nat -> St -> result St) len :
  forall a s s',
    (forall i t t', a <= i < a + len -> I i t -> body i t = Ok t' -> I (1 + i) t') ->
    I a s -> for_each body (seq a len) s = Ok s' -> I (a + len) s'.
Proof.
  induction len as [|len IH]; intros a s s' Hstep Hs Hrun; simpl in Hrun.
  - injection Hrun as <-. by rewrite Nat.add_0_r.
  - inv_bind Hrun. replace (a + S len) with (S a + len) by lia.
    eapply IH; [| |exact Hrun].
    + intros i t t' Hi. apply Hstep. lia.
    + apply (Hstep a s a0); [lia|done|done].
Qed.

Section MatrixContents.
Context {F : Type} `{Num F} {P : Type}.
Variable tpcf : tpcf_call P -> result (pyval F).
Variable tpcf_name : string.
Variable pos : list (list P).

Local Abbreviation n := (length pos).

Lemma zeros2_wf k m : wf2 (Mat2 m (zeros2 (F:=F) k m)).
Proof. simpl. apply Forall_replicate, length_replicate. Qed.

Lemma column2_cells (m : tmatrix F) i (col : list F) :
  wf2 m -> length col = depth m ->
  (forall s, cell2 m s i = col !! s) -> column2 m i = Some col.
Proof.
  destruct m as [|k rows]; simpl; [done|]. intros _ Hlen Hcells.
  apply mapM_Some. apply Forall2_same_length_lookup. split; [done|].
  intros s row x Hrow Hx. specialize (Hcells s).
  rewrite Hrow in Hcells. simpl in Hcells. congruence.
Qed.

Lemma column2_Some_cells (m : tmatrix F) i (col : list F) :
  column2 m i = Some col ->
  length col = depth m /\ forall s, cell2 m s i = col !! s.
Proof.
  destruct m as [|k rows]; simpl; [done|]. intros Hcol.
  apply mapM_Some in Hcol.
  assert (length rows = length col) as Hlen
    by (eapply Forall2_length; eauto).
  split; [done|]. intros s.
  destruct (rows !! s) as [row|] eqn:Hrow; simpl.
  - destruct (Forall2_lookup_l _ _ _ _ _ Hcol Hrow) as (x & Hx & Hr).
    congruence.
  - symmetry. apply lookup_ge_None.
    rewrite <- Hlen. by apply lookup_ge_None.
Qed.

(** What [tpcf_matrix[:, i] = v] does to every cell. *)
Lemma assign2_spec (m : tmatrix F) i (v : list F) (m' : tmatrix F) :
  wf2 m -> assign2 m i v = Ok m' ->
  exists v', broadcast_to (depth m) v = Ok v'
    /\ wf2 m' /\ depth m' = depth m /\ bins_of m' = bins_of m
    /\ i < bins_of m
    /\ forall s a, cell2 m' s a
         = if decide (a = i) then v' !! s else cell2 m s a.
Proof.
  destruct m as [|k rows]; simpl; [done|].
  intros Hwf. case_decide as Hi; [|done].
  intros Hrun. inv_bind Hrun. injection Hrun as <-.
  pose proof (broadcast_to_length _ _ _ Ha) as Hlen.
  exists a. split; [done|].
  split; [|split; [|split; [done|split; [done|]]]].
  - simpl. apply Forall_forall. intros row Hin.
    apply list_elem_of_lookup in Hin as [s Hs].
    apply lookup_zip_with_Some in Hs as (r & x & -> & Hr & Hx).
    rewrite length_insert. eapply (proj1 (Forall_lookup _ _) Hwf); eauto.
  - simpl. rewrite length_zip_with_l_eq; [done|lia].
  - intros s a'. simpl. rewrite lookup_zip_with.
    destruct (rows !! s) as [row|] eqn:Hrow; simpl.
    + destruct (lookup_lt_is_Some_2 a s) as [x Hx].
      { rewrite Hlen. eapply lookup_lt_Some; eauto. }
      rewrite Hx. simpl. rewrite list_lookup_insert.
      rewrite (proj1 (Forall_lookup _ _) Hwf _ _ Hrow).
      destruct (decide (a' = i)) as [->|Hne].
      * by rewrite decide_True.
      * rewrite decide_False; [done|]. intros [? _]. congruence.
    + case_decide; [|done].
      symmetry. apply lookup_ge_None. rewrite Hlen.
      by apply lookup_ge_None.
Qed.

Lemma pos_at_default i (p : list P) :
  pos_at pos i = Ok p -> default [] (pos !! i) = p.
Proof. intros Hp%from_option_Ok. by rewrite Hp. Qed.

Lemma recorded_depth (m m' : tmatrix F) shp xi :
  depth m' = depth m -> recorded m shp xi -> recorded m' shp xi.
Proof. intros Hd (Hs & v & Hv & Hl). split; [done|]. exists v. by rewrite Hd. Qed.

(** One iteration of the cross-mode loop. *)
Lemma cross_body_inv i (b b' : builder (F:=F)) :
  cross_inv tpcf tpcf_name pos i b ->
  cross_body tpcf tpcf_name pos i b = Ok b' ->
  cross_inv tpcf tpcf_name pos (1 + i) b'.
Proof.
  intros (Hcalls & Hall & Hloc) Hrun. unfold cross_body in Hrun.
  inv_bind Hrun. rename a into pi, Ha into Hpi.
  pose proof (pos_at_default _ _ Hpi) as Hdef.
  apply pos_at_Ok in Hpi as (Hi & _ & Hli).
  case_decide as Hne.
  2:{ injection Hrun as <-. split; [|split; [|done]].
      - intros a c Hin. destruct (Hcalls a c Hin) as (? & ? & ?).
        split; [done|]. split; [lia|done].
      - intros a Ha Hpos. apply Hall; [|done].
        destruct (decide (a = i)) as [->|]; lia. }
  inv_bind Hrun. rename a into xi0, Ha into Hxi0.
  inv_bind Hrun. rename a into xi, Ha into Hxi.
  inv_bind Hrun. rename a into v, Ha into Hv.
  inv_bind Hrun. rename a into ms, Ha into Hms.
  inv_bind Hrun. rename a into m1, Ha into Hm1.
  injection Hrun as <-. simpl.
  assert (tpcf (cross_call pos i) = Ok xi0) as Hcall.
  { unfold cross_call. by rewrite Hdef. }
  assert (kept_component tpcf_name xi0 = Ok xi) as Hkept by done.
  assert (wf2 ms.1 /\ bins_of ms.1 = n) as [Hwf Hn].
  { destruct (b_locals b) as [ms0|].
    - injection Hms as <-. tauto.
    - inv_bind Hms. injection Hms as <-. simpl.
      split; [apply zeros2_wf|done]. }
  destruct (assign2_spec _ _ _ _ Hwf Hm1)
    as (v' & Hv' & Hwf1 & Hd1 & Hb1 & _ & Hc1).
  pose proof (broadcast_to_length _ _ _ Hv') as Hlv'.
  unfold cross_inv. simpl. split; [|split].
  - intros a c [[= -> ->]|Hin]%elem_of_cons.
    + split; [done|]. split; lia.
    + destruct (Hcalls a c Hin) as (? & ? & ?).
      split; [done|]. split; [lia|done].
  - intros a Ha Hpos. destruct (decide (a = i)) as [->|Hai].
    + by left.
    + right. apply Hall; [lia|done].
  - split; [done|]. split; [congruence|]. split.
    + intros a [[= ->]|Hin]%elem_of_cons.
      * exists xi0, xi. split; [done|]. split; [done|].
        exists v, v'. split; [done|]. split; [by rewrite Hd1|].
        apply column2_cells; [done|congruence|].
        intros s. rewrite Hc1. by rewrite decide_True.
      * destruct (Hcalls a a Hin) as (_ & Hai & _).
        destruct (b_locals b) as [ms0|] eqn:Hl0;
          [|rewrite Hloc in Hin; by apply not_elem_of_nil in Hin].
        injection Hms as <-.
        destruct Hloc as (_ & _ & Hst & _).
        destruct (Hst a Hin) as (y0 & y & Hy0 & Hy & w & col & Hw & Hcol & Hcc).
        exists y0, y. split; [done|]. split; [done|].
        exists w, col. split; [done|]. split; [by rewrite Hd1|].
        apply column2_Some_cells in Hcc as [Hlc Hcc].
        apply column2_cells; [done|congruence|].
        intros s. rewrite Hc1. rewrite decide_False by lia. apply Hcc.
    + destruct (b_locals b) as [ms0|] eqn:Hl0.
      * injection Hms as <-.
        destruct Hloc as (_ & _ & _ & a0 & y0 & y & Hlast & Hy0 & Hy & Hrec).
        exists a0, y0, y. split; [|split; [done|split; [done|]]].
        -- rewrite last_cons, Hlast. done.
        -- eapply recorded_depth; eauto.
      * inv_bind Hms. injection Hms as <-. rewrite Hloc. simpl.
        exists i, xi0, xi. split; [done|]. split; [done|]. split; [done|].
        split; [done|]. exists v. split; [done|].
        rewrite Hd1. simpl. unfold zeros2. by rewrite length_replicate.
Qed.

(** The cross-mode builder. *)
Lemma build_cross_spec (b : builder (F:=F)) :
  build tpcf tpcf_name pos Cross = Ok b ->
  cross_inv tpcf tpcf_name pos n b.
Proof.
  intros Hrun. unfold build, n_bins, range in Hrun.
  rewrite Nat.sub_0_r in Hrun.
  refine (for_each_seq_inv (cross_inv tpcf tpcf_name pos)
            _ n 0 _ b _ _ Hrun).
  - intros i t t' _ Hinv Hbody. exact (cross_body_inv _ _ _ Hinv Hbody).
  - split; [|split; [|done]].
    + intros a c Hin. by apply not_elem_of_nil in Hin.
    + intros a Ha. lia.
Qed.

(** One iteration of the inner auto-mode loop. *)
Lemma auto_body_stored i k (b b' : builder (F:=F)) :
  i <= k ->
  auto_stored_inv tpcf pos i k b ->
  auto_body tpcf pos i k b = Ok b' ->
  auto_stored_inv tpcf pos i (1 + k) b'.
Proof.
  intros Hik (Hcalls & Hloc) Hrun. unfold auto_body in Hrun.
  inv_bind Hrun. rename a into pi, Ha into Hpi.
  inv_bind Hrun. rename a into pk, Ha into Hpk.
  pose proof (pos_at_default _ _ Hpi) as Hdi.
  pose proof (pos_at_default _ _ Hpk) as Hdk.
  case_decide as Hne.
  2:{ injection Hrun as <-. split; [|done].
      intros a c Hin. destruct (Hcalls a c Hin). lia. }
  inv_bind Hrun. rename a into xi, Ha into Hxi.
  inv_bind Hrun. rename a into v, Ha into Hv.
  inv_bind Hrun. rename a into ms, Ha into Hms.
  inv_bind Hrun. rename a into m1, Ha into Hm1.
  inv_bind Hrun. rename a into m2, Ha into Hm2.
  injection Hrun as <-. simpl.
  assert (tpcf (auto_call pos i k) = Ok xi) as Hcall.
  { unfold auto_call. by rewrite Hdi, Hdk. }
  assert (wf3 ms.1 /\ bins_of ms.1 = n) as [Hwf Hn].
  { destruct (b_locals b) as [ms0|].
    - injection Hms as <-. tauto.
    - inv_bind Hms. injection Hms as <-. simpl.
      split; [apply zeros3_wf|done]. }
  destruct (assign3_spec _ _ _ _ _ Hwf Hm1)
    as (v1 & Hv1 & Hwf1 & Hd1 & Hb1 & _ & _ & Hc1).
  destruct (assign3_spec _ _ _ _ _ Hwf1 Hm2)
    as (v2 & Hv2 & Hwf2 & Hd2 & Hb2 & _ & _ & Hc2).
  rewrite Hd1 in Hv2. rewrite Hv1 in Hv2. injection Hv2 as <-.
  unfold auto_stored_inv. simpl. split.
  - intros a c [[= -> ->]|Hin]%elem_of_cons; [lia|].
    destruct (Hcalls a c Hin). lia.
  - split; [done|]. split; [congruence|]. split.
    + intros a c [[= -> ->]|Hin]%elem_of_cons.
      * exists xi. split; [done|]. exists v, v1. split; [done|].
        split; [by rewrite Hd2, Hd1|].
        intros s. rewrite !Hc2, !Hc1. split.
        -- destruct (decide (i = k)) as [->|Hne'].
           ++ by rewrite decide_True.
           ++ rewrite decide_False by lia. by rewrite decide_True.
        -- by rewrite decide_True.
      * destruct (Hcalls a c Hin) as [Hac Hlt].
        destruct (b_locals b) as [ms0|] eqn:Hl0;
          [|rewrite Hloc in Hin; by apply not_elem_of_nil in Hin].
        injection Hms as <-.
        destruct Hloc as (_ & _ & Hst & _).
        destruct (Hst a c Hin) as (y & Hy & w & col & Hw & Hcol & Hcc).
        exists y. split; [done|]. exists w, col. split; [done|].
        split; [by rewrite Hd2, Hd1|].
        intros s. rewrite !Hc2, !Hc1.
        rewrite !decide_False by lia. apply Hcc.
    + destruct (b_locals b) as [ms0|] eqn:Hl0.
      * injection Hms as <-.
        destruct Hloc as (_ & _ & _ & a0 & c0 & y & Hlast & Hy & Hrec).
        exists a0, c0, y. split; [|split; [done|]].
        -- rewrite last_cons, Hlast. done.
        -- eapply recorded_depth; [|exact Hrec]. congruence.
      * inv_bind Hms. injection Hms as <-. rewrite Hloc. simpl.
        exists i, k, xi. split; [done|]. split; [done|].
        split; [done|]. exists v. split; [done|].
        rewrite Hd2, Hd1. simpl. unfold zeros3. by rewrite length_replicate.
Qed.

Lemma auto_row_stored i (b b' : builder (F:=F)) :
  i < n ->
  auto_stored_inv tpcf pos i i b ->
  row_body tpcf tpcf_name pos Auto i b = Ok b' ->
  auto_stored_inv tpcf pos (1 + i) (1 + i) b'.
Proof.
  intros Hi Hinv Hrun. simpl in Hrun. unfold n_bins, range in Hrun.
  assert (auto_stored_inv tpcf pos i (i + (n - i)) b') as [Hcalls Hloc].
  { refine (for_each_seq_inv (auto_stored_inv tpcf pos i)
              _ (n - i) i b b' _ _ Hrun).
    - intros k t t' Hk Ht Hbody.
      apply (auto_body_stored i k t t'); [lia|done|done].
    - done. }
  split; [|done].
  intros a c Hin. destruct (Hcalls a c Hin). lia.
Qed.

(** The auto-mode builder: what the matrix holds. *)
Lemma build_auto_stored (b : builder (F:=F)) :
  build tpcf tpcf_name pos Auto = Ok b ->
  auto_stored_inv tpcf pos n n b.
Proof.
  intros Hrun. unfold build, n_bins, range in Hrun.
  rewrite Nat.sub_0_r in Hrun.
  refine (for_each_seq_inv (fun i => auto_stored_inv tpcf pos i i)
            _ n 0 _ b _ _ Hrun).
  - intros i t t' Hi Hinv Hbody.
    apply (auto_row_stored i t t'); [lia|done|done].
  - split; [|done]. intros a c Hin. by apply not_elem_of_nil in Hin.
Qed.
End MatrixContents.

(** ** Where the builder consults the callable *)

Lemma for_each_ext {St X} (body body' : X -> St -> result St) xs s :
  (forall x t, x ∈ xs -> body x t = body' x t) ->
  for_each body xs s = for_each body' xs s.
Proof.
  revert s. induction xs as [|x xs IH]; intros s Hb; cbn [for_each]; [done|].
  rewrite (Hb x s) by (by left).
  destruct (body' x s) as [s'|e]; cbn [bind]; [|done].
  apply IH. intros y t Hy. apply Hb. by right.
Qed.

Section CallableUse.
Context {F : Type} `{Num F} {P : Type}.
Variable tpcf tpcf' : tpcf_call P -> result (pyval F).
Variable tpcf_name : string.
Variable pos : list (list P).

Local Abbreviation n := (length pos).

Lemma auto_body_ext i k (b : builder (F:=F)) :
  (0 < subset_len pos i -> 0 < subset_len pos k ->
   tpcf' (auto_call pos i k) = tpcf (auto_call pos i k)) ->
  auto_body tpcf' pos i k b = auto_body tpcf pos i k b.
Proof.
  intros Hag. unfold auto_body.
  destruct (pos_at pos i) as [pi|e] eqn:Hpi; cbn [bind]; [|done].
  destruct (pos_at pos k) as [pk|e] eqn:Hpk; cbn [bind]; [|done].
  pose proof (pos_at_default _ _ _ Hpi) as Hdi.
  pose proof (pos_at_default _ _ _ Hpk) as Hdk.
  apply pos_at_Ok in Hpi as (_ & _ & Hli).
  apply pos_at_Ok in Hpk as (_ & _ & Hlk).
  case_decide as Hne; [|done].
  unfold auto_call in Hag. rewrite Hdi, Hdk in Hag.
  rewrite Hag; [done|nia|nia].
Qed.

Lemma cross_body_ext i (b : builder (F:=F)) :
  (0 < subset_len pos i ->
   tpcf' (cross_call pos i) = tpcf (cross_call pos i)) ->
  cross_body tpcf' tpcf_name pos i b = cross_body tpcf tpcf_name pos i b.
Proof.
  intros Hag. unfold cross_body.
  destruct (pos_at pos i) as [pi|e] eqn:Hpi; cbn [bind]; [|done].
  pose proof (pos_at_default _ _ _ Hpi) as Hdi.
  apply pos_at_Ok in Hpi as (_ & _ & Hli).
  case_decide as Hne; [|done].
  unfold cross_call in Hag. rewrite Hdi in Hag.
  rewrite Hag; [done|lia].
Qed.

(** Two callables that agree on the calls of the pairs of non-empty
    subsets give the same auto-mode builder. *)
Lemma build_auto_ext :
  (forall i k, i <= k < n ->
     0 < subset_len pos i -> 0 < subset_len pos k ->
     tpcf' (auto_call pos i k) = tpcf (auto_call pos i k)) ->
  build tpcf' tpcf_name pos Auto = build tpcf tpcf_name pos Auto.
Proof.
  intros Hag. unfold build. apply for_each_ext.
  intros i b Hi%elem_of_range. unfold n_bins in Hi. cbn [row_body].
  apply for_each_ext. intros k b' Hk%elem_of_range. unfold n_bins in Hk.
  apply auto_body_ext. apply Hag. lia.
Qed.

Lemma build_cross_ext :
  (forall i, i < n -> 0 < subset_len pos i ->
     tpcf' (cross_call pos i) = tpcf (cross_call pos i)) ->
  build tpcf' tpcf_name pos Cross = build tpcf tpcf_name pos Cross.
Proof.
  intros Hag. unfold build. apply for_each_ext.
  intros i b Hi%elem_of_range. unfold n_bins in Hi. cbn [row_body].
  apply cross_body_ext. apply Hag. lia.
Qed.
End CallableUse.

Section SameRun.
Context {F : Type} `{Num F} {P : Type}.
Variable compute_conditional_percentiles : list (halo F) -> list F.
Variable gals : list (galaxy F P).
Variable tpcf tpcf' : tpcf_call P -> result (pyval F).
Variable tpcf_name : string.
Variable args : list (pyobj F).
Variable kwargs : gmap string (pyobj F).
Variable halocat : halo_catalog F.
Variable opts : tab_options F.

Local Abbreviation halos := (qualifying_halos halocat opts).

(** A callable that gives the same builder on the subsets of a run
    gives the same run. *)
Lemma tabulate_run_same_build ht calls pct gpct pos :
  tabulate_run compute_conditional_percentiles gals tpcf tpcf_name
    args kwargs halocat opts = Ok (ht, calls) ->
  percentiles compute_conditional_percentiles halos = Ok pct ->
  join_percentiles gals halos pct = Ok gpct ->
  position_subsets gals opts (gal_type ht) gpct = Ok pos ->
  build tpcf' tpcf_name pos (mode opts) = build tpcf tpcf_name pos (mode opts) ->
  tabulate_run compute_conditional_percentiles gals tpcf' tpcf_name
    args kwargs halocat opts = Ok (ht, calls).
Proof.
  intros Hrun Hpct Hj Hpos Hsame.
  unfold tabulate_run in *. rewrite Hpct in *. cbn [bind] in *.
  destruct (make_bin_table halocat opts halos pct) as [t|e]; [|done].
  cbn [bind] in *. rewrite Hj in *. cbn [bind] in *.
  destruct (position_subsets gals opts t gpct) as [pos0|e] eqn:Hp0; [|done].
  cbn [bind] in *.
  assert (gal_type ht = t) as Ht.
  { destruct (build tpcf tpcf_name pos0 (mode opts)); [|done].
    cbn [bind] in Hrun. destruct (b_locals _); [|done].
    cbn in Hrun. by injection Hrun as <- _. }
  rewrite Ht, Hp0 in Hpos. injection Hpos as ->.
  by rewrite Hsame.
Qed.
End SameRun.

Section AutoMode.
Context {F : Type} `{Num F} {P : Type}.
Variable compute_conditional_percentiles : list (halo F) -> list F.
Variable gals : list (galaxy F P).
Variable tpcf : tpcf_call P -> result (pyval F).
Variable tpcf_name : string.
Variable args : list (pyobj F).
Variable kwargs : gmap string (pyobj F).
Variable halocat : halo_catalog F.
Variable opts : tab_options F.

Lemma wf3_cell_defined (m : tmatrix F) s i j :
  wf3 m -> s < depth m -> i < bins_of m -> j < bins_of m ->
  is_Some (cell3 m s i j).
Proof.
  destruct m as [n planes|]; simpl; [|done].
  intros Hwf Hs Hi Hj.
  destruct (lookup_lt_is_Some_2 planes s Hs) as [plane Hp].
  rewrite Hp. simpl.
  destruct (proj1 (Forall_lookup _ _) Hwf _ _ Hp) as [Hl Hrows].
  destruct (lookup_lt_is_Some_2 plane i) as [row Hr]; [lia|].
  rewrite Hr. simpl. apply lookup_lt_is_Some_2.
  rewrite (proj1 (Forall_lookup _ _) Hrows _ _ Hr). done.
Qed.

(** C2. After [tabulate] completes in auto mode the tabulation matrix is
    symmetric under the swap of the two bin indices: for every statistic
    element [s] and all bins [i], [j], the cells [matrix[s, i, j]] and
    [matrix[s, j, i]] exist and hold the same value. *)
Theorem tabulate_auto_matrix_symmetric ht :
  tabulate compute_conditional_percentiles gals tpcf tpcf_name
    args kwargs halocat opts = Ok ht ->
  mode opts = Auto ->
  bins_of (tpcf_matrix ht) = table_len (gal_type ht)
  /\ forall s i j,
       s < depth (tpcf_matrix ht) ->
       i < table_len (gal_type ht) -> j < table_len (gal_type ht) ->
       exists x, cell3 (tpcf_matrix ht) s i j = Some x
                 /\ cell3 (tpcf_matrix ht) s j i = Some x.
Proof.
  intros Hrun Hmode.
  destruct (tabulate_Ok _ _ _ _ _ _ _ _ _ Hrun) as [calls Hrun'].
  destruct (tabulate_run_inv _ _ _ _ _ _ _ _ _ _ Hrun')
    as (pct & gpct & pos & b & _ & _ & _ & _ & Hlen & Hb & Hloc & _).
  rewrite Hmode in Hb.
  destruct (build_auto_spec _ _ _ _ Hb) as [Hinv _].
  unfold auto_inv in Hinv. rewrite Hloc in Hinv. simpl in Hinv.
  destruct Hinv as (Hwf & Hn & Hsym & _).
  split; [congruence|]. intros s i j Hs Hi Hj.
  destruct (wf3_cell_defined _ s i j Hwf Hs) as [x Hx]; [lia|lia|].
  exists x. split; [done|]. by rewrite <- Hsym.
Qed.

(** C4. In auto mode, for every pair of bins [i <= j], the correlation
    callable is invoked for the pair if and only if both position
    subsets are non-empty.  For such a pair the run has the value that
    the callable returns for the two subsets, and the cells [(i, j)] and
    [(j, i)] hold it; the run consults the callable at no other
    argument, since any callable that agrees with it on these calls
    gives the same run.  When either subset is empty the pair is skipped
    and the cells [(i, j)] and [(j, i)] of the matrix are zero. *)
Theorem tabulate_auto_calls_iff_nonempty ht calls :
  tabulate_run compute_conditional_percentiles gals tpcf tpcf_name
    args kwargs halocat opts = Ok (ht, calls) ->
  mode opts = Auto ->
  exists pct gpct pos,
    join_percentiles gals (qualifying_halos halocat opts) pct = Ok gpct
    /\ position_subsets gals opts (gal_type ht) gpct = Ok pos
    /\ length pos = table_len (gal_type ht)
    /\ (forall i j, i <= j < length pos ->
         ((i, j) ∈ calls
          <-> 0 < subset_len pos i /\ 0 < subset_len pos j)
         /\ (0 < subset_len pos i -> 0 < subset_len pos j ->
             exists xi, tpcf (auto_call pos i j) = Ok xi
                        /\ stored3 (tpcf_matrix ht) i j xi)
         /\ (subset_len pos i = 0 \/ subset_len pos j = 0 ->
             forall s, s < depth (tpcf_matrix ht) ->
               cell3 (tpcf_matrix ht) s i j = Some fzero
               /\ cell3 (tpcf_matrix ht) s j i = Some fzero))
    /\ (forall tpcf' : tpcf_call P -> result (pyval F),
         (forall i j, i <= j < length pos ->
            0 < subset_len pos i -> 0 < subset_len pos j ->
            tpcf' (auto_call pos i j) = tpcf (auto_call pos i j)) ->
         tabulate_run compute_conditional_percentiles gals tpcf' tpcf_name
           args kwargs halocat opts = Ok (ht, calls)).
Proof.
  intros Hrun Hmode.
  destruct (tabulate_run_inv _ _ _ _ _ _ _ _ _ _ Hrun)
    as (pct & gpct & pos & b & Hpct & _ & Hj & Hpos & Hlen & Hb & Hloc & Hc
        & _).
  rewrite Hmode in Hb.
  destruct (build_auto_spec _ _ _ _ Hb) as [Hinv Hcalls].
  unfold auto_inv in Hinv. rewrite Hloc in Hinv. simpl in Hinv.
  destruct Hinv as (Hwf & Hn & Hsym & Hz).
  destruct (build_auto_stored _ _ _ _ Hb) as (_ & Hst).
  rewrite Hloc in Hst. simpl in Hst. destruct Hst as (_ & _ & Hst & _).
  exists pct, gpct, pos. split; [done|]. split; [done|]. split; [done|].
  assert (forall a c, (a, c) ∈ calls
            <-> a <= c < length pos
                /\ 0 < subset_len pos a /\ 0 < subset_len pos c) as Hmem.
  { intros a c. rewrite Hc, Hcalls, elem_of_reverse, list_elem_of_filter.
    rewrite elem_of_auto_pairs. unfold nonempty_pair. simpl.
    split.
    - intros [Hp ?]. split; [done|]. nia.
    - intros (? & ? & ?). split; [nia|done]. }
  split.
  - intros i j Hij. split; [|split].
    + rewrite Hmem. tauto.
    + intros Hi Hnj. apply Hst. rewrite <- Hc. by apply Hmem.
    + intros Hempty s Hs.
      assert (((i, j) ∉ calls) /\ ((j, i) ∉ calls)) as [Hn1 Hn2].
      { rewrite !Hmem. lia. }
      rewrite Hc in Hn1, Hn2.
      split; apply Hz; (done || lia).
  - intros tpcf' Hag.
    apply (tabulate_run_same_build _ _ tpcf tpcf' _ _ _ _ _ ht calls
             pct gpct pos Hrun Hpct Hj Hpos).
    rewrite Hmode. by apply build_auto_ext.
Qed.

Lemma kept_component_cases (xi0 xi : pyval F) :
  kept_component tpcf_name xi0 = Ok xi ->
  (tpcf_name = "delta_sigma" -> val_item1 xi0 = Ok xi)
  /\ (tpcf_name <> "delta_sigma" -> xi = xi0).
Proof.
  unfold kept_component. case_decide as Hn; intros Hk.
  - split; [done|]. intros Hne. by destruct Hne.
  - split; [intros Heq; by destruct Hn|]. intros _. congruence.
Qed.

(** C9. In cross mode, when the callable is named [delta_sigma], the
    column of every bin with a non-empty subset holds the flattened
    second component (index 1) of what the callable returned, and the
    recorded shape is the shape of that component at the first call; for
    any other name the column holds the whole returned value.  In auto
    mode the cells of every computed pair hold the whole returned value,
    whatever the name of the callable. *)
Theorem tabulate_delta_sigma_cross_only ht calls :
  tabulate_run compute_conditional_percentiles gals tpcf tpcf_name
    args kwargs halocat opts = Ok (ht, calls) ->
  exists pct gpct pos,
    join_percentiles gals (qualifying_halos halocat opts) pct = Ok gpct
    /\ position_subsets gals opts (gal_type ht) gpct = Ok pos
    /\ (mode opts = Cross ->
          (forall i, i < length pos -> 0 < subset_len pos i ->
             exists xi0 xi, tpcf (cross_call pos i) = Ok xi0
               /\ (tpcf_name = "delta_sigma" -> val_item1 xi0 = Ok xi)
               /\ (tpcf_name <> "delta_sigma" -> xi = xi0)
               /\ stored2 (tpcf_matrix ht) i xi)
          /\ exists i0 xi0 xi, last calls = Some (i0, i0)
               /\ tpcf (cross_call pos i0) = Ok xi0
               /\ (tpcf_name = "delta_sigma" -> val_item1 xi0 = Ok xi)
               /\ (tpcf_name <> "delta_sigma" -> xi = xi0)
               /\ recorded (tpcf_matrix ht) (tpcf_shape ht) xi)
    /\ (mode opts = Auto ->
          (forall i j, i <= j < length pos ->
             0 < subset_len pos i -> 0 < subset_len pos j ->
             exists xi, tpcf (auto_call pos i j) = Ok xi
               /\ stored3 (tpcf_matrix ht) i j xi)
          /\ exists i0 j0 xi, last calls = Some (i0, j0)
               /\ tpcf (auto_call pos i0 j0) = Ok xi
               /\ recorded (tpcf_matrix ht) (tpcf_shape ht) xi).
Proof.
  intros Hrun.
  destruct (tabulate_run_inv _ _ _ _ _ _ _ _ _ _ Hrun)
    as (pct & gpct & pos & b & _ & _ & Hj & Hpos & Hlen & Hb & Hloc & Hc & _).
  exists pct, gpct, pos. split; [done|]. split; [done|]. split.
  - intros Hmode. rewrite Hmode in Hb.
    destruct (build_cross_spec _ _ _ _ Hb) as (_ & Hall & Hinv).
    rewrite Hloc in Hinv. simpl in Hinv.
    destruct Hinv as (_ & _ & Hst & i0 & y0 & y & Hlast & Hy0 & Hy & Hrec).
    split.
    + intros i Hi Hne.
      destruct (Hst i (Hall i Hi Hne)) as (xi0 & xi & Hxi0 & Hk & Hs).
      exists xi0, xi. split; [done|].
      destruct (kept_component_cases _ _ Hk). done.
    + exists i0, y0, y. rewrite Hc. split; [done|]. split; [done|].
      destruct (kept_component_cases _ _ Hy). done.
  - intros Hmode. rewrite Hmode in Hb.
    destruct (build_auto_stored _ _ _ _ Hb) as (_ & Hinv).
    rewrite Hloc in Hinv. simpl in Hinv.
    destruct Hinv as (_ & _ & Hst & i0 & j0 & y & Hlast & Hy & Hrec).
    split.
    + intros i j Hij Hi Hnj. apply Hst.
      apply (build_auto_calls_mem _ _ _ _ _ _ Hb). done.
    + exists i0, j0, y. rewrite Hc. done.
Qed.
End AutoMode.

(** ** The Binning Engine *)

Section BinningFacts.
Context {F : Type} `{Num F}.

Lemma tile_2 {A} (l : list A) : tile l 2 = l ++ l.
Proof. unfold tile. simpl. by rewrite app_nil_r. Qed.

Lemma tile_add {A} (l : list A) a b :
  tile l (a + b) = tile l a ++ tile l b.
Proof. unfold tile. by rewrite replicate_add, concat_app. Qed.

Lemma length_tile {A} (l : list A) k : length (tile l k) = k * length l.
Proof.
  unfold tile. induction k as [|k IH]; simpl; [done|].
  rewrite length_app, IH. done.
Qed.

Lemma length_repeat_each {A} (l : list A) k :
  length (repeat_each l k) = length l * k.
Proof.
  unfold repeat_each. induction l as [|x l IH]; simpl; [done|].
  rewrite length_app, length_replicate, IH. done.
Qed.

(** A list made of two copies of the same half repeats after the
    length of the half. *)
Lemma lookup_second_half {A} (x : list A) i :
  i < length x -> (x ++ x) !! (length x + i) = (x ++ x) !! i.
Proof.
  intros Hi. rewrite lookup_app_r by lia.
  rewrite lookup_app_l by done. f_equal. lia.
Qed.

Lemma length_bin_counts (a edges : list F) :
  length (bin_counts a edges) = length edges - 1.
Proof.
  induction edges as [|lo [|hi rest] IH]; simpl in *; [done|done|].
  rewrite IH. lia.
Qed.

Lemma length_linspace (start stop : F) k :
  length (linspace start stop k) = k + 1.
Proof.
  unfold linspace. rewrite length_app, length_map, length_seq. done.
Qed.

Lemma histogram_Ok (a : list F) bins counts edges :
  histogram a bins = Ok (counts, edges) ->
  bins <> 0 /\ length edges = bins + 1 /\ length counts = bins
  /\ counts = bin_counts a edges.
Proof.
  unfold histogram. case_decide as Hb; [done|].
  intros Hrun. inv_bind Hrun. injection Hrun as <- <-.
  rewrite length_bin_counts, length_linspace. repeat split; (done || lia).
Qed.

Lemma histogram_edges_Ok (a edges : list F) counts edges' :
  histogram_edges a edges = Ok (counts, edges') ->
  edges' = edges /\ counts = bin_counts a edges
  /\ length counts = length edges - 1.
Proof.
  unfold histogram_edges. case_decide; [done|].
  destruct (increasing edges); [|done].
  intros [= <- <-]. by rewrite length_bin_counts.
Qed.

Lemma bin_counts_nil (edges : list F) :
  bin_counts [] edges = replicate (length edges - 1) 0.
Proof.
  induction edges as [|lo [|hi rest] IH]; simpl in *; [done|done|].
  rewrite IH. rewrite Nat.sub_0_r. done.
Qed.

Lemma column_Ok {A} k (c c' : list A) :
  column k c = Ok c' -> c' = c /\ length c = k.
Proof. unfold column. case_decide; [|done]. by intros [= <-]. Qed.

Lemma floor_div_Ok a b q :
  floor_div a b = Ok q -> b <> 0 /\ q = Nat.div a b.
Proof. unfold floor_div. case_decide; [done|]. by intros [= <-]. Qed.

Lemma length_removelast {A} (l : list A) :
  length (removelast l) = length l - 1.
Proof.
  induction l as [|x [|y l] IH]; [done|done|].
  change (removelast (x :: y :: l)) with (x :: removelast (y :: l)).
  simpl length in *. rewrite IH. lia.
Qed.

Lemma length_tail_pred {A} (l : list A) : length (tail l) = length l - 1.
Proof. destruct l; simpl; lia. Qed.
End BinningFacts.

Section BinTable.
Context {F : Type} `{Num F}.
Variable halocat : halo_catalog F.
Variable opts : tab_options F.

Local Abbreviation bins := (prim_haloprop_bins opts).
Local Abbreviation sides := (if sec_haloprop opts then 2 else 1).

(** The layout of the bin table: every column is two copies of the
    same half, but [gal_type]. *)
Lemma make_bin_table_spec (halos : list (halo F)) (pct : list F) t :
  make_bin_table halocat opts halos pct = Ok t ->
  exists counts edges X,
    histogram (log_prims halos) bins = Ok (counts, edges)
    /\ length X = sides * bins
    /\ X = (if sec_haloprop opts
            then bin_counts (log_prims (select (below_split opts pct) halos))
                   edges
                 ++ bin_counts
                      (log_prims (select (above_split opts pct) halos)) edges
            else counts)
    /\ col_n_h t = density halocat (X ++ X)
    /\ col_sec t = (if sec_haloprop opts
                    then Some (repeat_each [0; 1] bins
                               ++ repeat_each [0; 1] bins)
                    else None)
    /\ col_gal_type t = replicate (sides * bins) "centrals"
                        ++ replicate (sides * bins) "satellites"
    /\ col_log_prim_haloprop_min t
       = tile (removelast edges) sides ++ tile (removelast edges) sides
    /\ col_log_prim_haloprop_max t
       = tile (tail edges) sides ++ tile (tail edges) sides
    /\ col_prim_haloprop t
       = zip_with (fun a b => pow10 (fmul fhalf (fadd a b)))
           (col_log_prim_haloprop_min t) (col_log_prim_haloprop_max t).
Proof.
  unfold make_bin_table. intros Hrun.
  inv_bind Hrun. destruct a as [counts edges].
  destruct (histogram_Ok _ _ _ _ Ha) as (Hb & Hle & Hlc & Hcounts).
  inv_bind Hrun. destruct a as [[col_n sec] edges']. simpl in Ha0.
  exists counts, edges.
  assert (exists X, length X = sides * bins
            /\ X = (if sec_haloprop opts
                    then bin_counts
                           (log_prims (select (below_split opts pct) halos))
                           edges
                         ++ bin_counts
                              (log_prims
                                 (select (above_split opts pct) halos)) edges
                    else counts)
            /\ col_n = density halocat (X ++ X)
            /\ sec = (if sec_haloprop opts
                      then Some (repeat_each [0; 1] bins
                                 ++ repeat_each [0; 1] bins)
                      else None)
            /\ edges' = edges) as (X & HlX & HX & Hcol & Hsec & ->).
  { destruct (sec_haloprop opts).
    - inv_bind Ha0. destruct a as [c0 e0].
      destruct (histogram_edges_Ok _ _ _ _ Ha1) as (-> & -> & Hl0).
      inv_bind Ha0. destruct a as [c1 e1].
      destruct (histogram_edges_Ok _ _ _ _ Ha2) as (-> & -> & Hl1).
      simpl in Ha0. inv_bind Ha0. injection Ha0 as <- <- <-.
      apply column_Ok in Ha3 as [-> _].
      eexists. split; [|split; [reflexivity|]].
      + rewrite length_app, !length_bin_counts. lia.
      + rewrite !tile_2, Hlc. done.
    - injection Ha0 as <- <- <-. exists counts.
      rewrite tile_2. repeat split; (done || lia). }
  exists X. split; [done|]. split; [done|]. split; [done|].
  assert (length col_n = (sides * bins) * 2) as Hn.
  { rewrite Hcol. unfold density.
    rewrite length_map, length_app. lia. }
  inv_bind Hrun. apply column_Ok in Ha1 as [-> _].
  inv_bind Hrun. apply floor_div_Ok in Ha1 as [_ ->].
  inv_bind Hrun. apply column_Ok in Ha1 as [-> _].
  inv_bind Hrun. apply floor_div_Ok in Ha1 as [_ ->].
  inv_bind Hrun. apply column_Ok in Ha1 as [-> _].
  injection Hrun as <-.
  cbn [col_n_h col_sec col_gal_type col_log_prim_haloprop_min
       col_log_prim_haloprop_max col_prim_haloprop].
  rewrite length_removelast, length_tail_pred, Hle.
  replace (bins + 1 - 1) with bins by lia.
  rewrite Hn.
  change (Nat.divmod (sides * bins * 2) 1 0 1).1
    with (Nat.div (sides * bins * 2) 2).
  rewrite Nat.div_mul by done.
  replace (sides * bins * 2) with ((sides + sides) * bins) by lia.
  rewrite Nat.div_mul by done. rewrite !tile_add.
  repeat split; done.
Qed.
End BinTable.

Section BinTableLayout.
Context {F : Type} `{Num F} {P : Type}.
Variable compute_conditional_percentiles : list (halo F) -> list F.
Variable gals : list (galaxy F P).
Variable tpcf : tpcf_call P -> result (pyval F).
Variable tpcf_name : string.
Variable args : list (pyobj F).
Variable kwargs : gmap string (pyobj F).
Variable halocat : halo_catalog F.
Variable opts : tab_options F.

Local Abbreviation bins := (prim_haloprop_bins opts).
Local Abbreviation sides := (if sec_haloprop opts then 2 else 1).

(** C8. After [tabulate] the bin table has
    [2 * prim_haloprop_bins * (2 if sec_haloprop else 1)] rows; the
    first half are centrals and the second half satellites; and the
    satellite bin of a property range (and secondary side) has the
    [n_h], the edges and the [sec] value of the corresponding central
    bin. *)
Theorem tabulate_bin_table_layout ht :
  tabulate compute_conditional_percentiles gals tpcf tpcf_name
    args kwargs halocat opts = Ok ht ->
  let t := gal_type ht in
  let half := sides * bins in
  table_len t = 2 * bins * sides
  /\ length (col_gal_type t) = table_len t
  /\ length (col_log_prim_haloprop_min t) = table_len t
  /\ length (col_log_prim_haloprop_max t) = table_len t
  /\ forall i, i < half ->
       col_gal_type t !! i = Some "centrals"
       /\ col_gal_type t !! (half + i) = Some "satellites"
       /\ is_Some (col_n_h t !! i)
       /\ col_n_h t !! (half + i) = col_n_h t !! i
       /\ col_log_prim_haloprop_min t !! (half + i)
          = col_log_prim_haloprop_min t !! i
       /\ col_log_prim_haloprop_max t !! (half + i)
          = col_log_prim_haloprop_max t !! i
       /\ match col_sec t with
          | Some sec =>
              sec_haloprop opts = true
              /\ is_Some (sec !! i) /\ sec !! (half + i) = sec !! i
          | None => sec_haloprop opts = false
          end.
Proof.
  intros Hrun.
  destruct (tabulate_Ok _ _ _ _ _ _ _ _ _ Hrun) as [calls Hrun'].
  destruct (tabulate_run_inv _ _ _ _ _ _ _ _ _ _ Hrun')
    as (pct & gpct & pos & b & _ & Ht & _).
  destruct (make_bin_table_spec _ _ _ _ _ Ht)
    as (counts & edges & X & Hh & HlX & _ & Hn & Hsec & Hgt & Hmin & Hmax & _).
  destruct (histogram_Ok _ _ _ _ Hh) as (Hb & Hle & _ & _).
  simpl. unfold table_len.
  assert (length (tile (removelast edges) sides) = sides * bins) as Hlmin.
  { rewrite length_tile, length_removelast, Hle. lia. }
  assert (length (tile (tail edges) sides) = sides * bins) as Hlmax.
  { rewrite length_tile, length_tail_pred, Hle. lia. }
  rewrite Hn, Hgt, Hmin, Hmax. unfold density.
  rewrite length_map, !length_app, !length_replicate, Hlmin, Hlmax, HlX.
  split; [lia|]. split; [done|]. split; [done|]. split; [done|].
  intros i Hi. split; [|split; [|split; [|split; [|split; [|split]]]]].
  - rewrite lookup_app_l by (rewrite length_replicate; lia).
    by apply lookup_replicate_2.
  - rewrite lookup_app_r by (rewrite length_replicate; lia).
    rewrite length_replicate. apply lookup_replicate_2. lia.
  - apply lookup_lt_is_Some_2. rewrite length_map, length_app. lia.
  - rewrite !list_lookup_fmap. f_equal.
    rewrite <- HlX. apply lookup_second_half. lia.
  - rewrite <- Hlmin at 1. apply lookup_second_half. lia.
  - rewrite <- Hlmax at 1. apply lookup_second_half. lia.
  - rewrite Hsec. destruct (sec_haloprop opts); [|done].
    assert (length (repeat_each [0; 1] bins) = 2 * bins) as Hls
      by (rewrite length_repeat_each; simpl; lia).
    split; [done|]. split.
    + apply lookup_lt_is_Some_2. rewrite length_app. lia.
    + rewrite <- Hls at 1. apply lookup_second_half. lia.
Qed.
End BinTableLayout.

(** ** The galaxy-to-halo join *)

Section JoinFacts.
Context {F : Type} `{Num F} {P : Type}.

Lemma index_of_Some z (y : list Z) b :
  index_of z y = Some b -> y !! b = Some z.
Proof.
  revert b. induction y as [|w y IH]; intros b; simpl; [done|].
  case_decide as Hw.
  - intros [= <-]. by rewrite Hw.
  - destruct (index_of z y) as [b'|]; [|done].
    intros [= <-]. simpl. by apply IH.
Qed.

(** Every pair of indices that [crossmatch] returns points at equal
    entries. *)
Lemma crossmatch_sound (x y : list Z) ia ib :
  crossmatch x y = Ok (ia, ib) ->
  Forall2 (fun a b => exists z, x !! a = Some z /\ y !! b = Some z) ia ib.
Proof.
  unfold crossmatch. case_decide; [|done]. intros [= <- <-].
  assert (Forall (fun p : nat * Z => x !! p.1 = Some p.2)
            (zip (seq 0 (length x)) x)) as Hzip.
  { apply Forall_forall. intros [a z] Hin.
    apply list_elem_of_lookup in Hin as [i Hi].
    apply lookup_zip_with_Some in Hi as (a' & z' & [= -> ->] & Hl & Hx).
    apply lookup_seq in Hl as [-> _]. done. }
  induction Hzip as [|[a z] l Ha _ IH]; simpl; [constructor|].
  destruct (index_of z y) as [b|] eqn:Hb; simpl; [|done].
  constructor; [|done]. exists z. split; [done|].
  by apply index_of_Some.
Qed.

Lemma take_at_matched {A} (x y : list A) ia ib gi hi :
  Forall2 (fun a b => exists z, x !! a = Some z /\ y !! b = Some z) ia ib ->
  take_at x ia = Ok gi -> take_at y ib = Ok hi -> gi = hi.
Proof.
  unfold take_at. intros Hm Hg%from_option_Ok Hh%from_option_Ok.
  apply mapM_Some in Hg, Hh.
  revert gi hi Hg Hh.
  induction Hm as [|a b ia ib (z & Hx & Hy) _ IH]; intros gi hi Hg Hh.
  - by inversion Hg; inversion Hh.
  - inversion Hg as [|? g ? gi' Hg1 Hg2]; subst.
    inversion Hh as [|? h ? hi' Hh1 Hh2]; subst.
    f_equal; [congruence|]. by apply IH.
Qed.

(** The assertion of [tabulate] compares entries that [crossmatch]
    paired because they are equal: it holds whatever the tables are. *)
Lemma join_assertion_never_fails (gals : list (galaxy F P))
    (halos : list (halo F)) (pct : list F) :
  join_percentiles gals halos pct <> Raise AssertionError.
Proof.
  unfold join_percentiles.
  destruct (crossmatch _ _) as [[ia ib]|e] eqn:Hc; simpl.
  2:{ unfold crossmatch in Hc. case_decide; [done|]. by injection Hc as <-. }
  pose proof (crossmatch_sound _ _ _ _ Hc) as Hm.
  destruct (take_at (map g_halo_id gals) ia) as [gi|e] eqn:Hg; simpl.
  2:{ unfold take_at in Hg. destruct (mapM _ _); [done|].
      by injection Hg as <-. }
  destruct (take_at (map halo_id halos) ib) as [hi|e] eqn:Hh; simpl.
  2:{ unfold take_at in Hh. destruct (mapM _ _); [done|].
      by injection Hh as <-. }
  rewrite (take_at_matched _ _ _ _ _ _ Hm Hg Hh).
  rewrite decide_True by done.
  destruct (take_at pct ib) as [vals|e] eqn:Hv; simpl.
  2:{ unfold take_at in Hv. destruct (mapM _ _); [done|].
      by injection Hv as <-. }
  generalize (replicate (length gals) (fzero (F:=F))).
  clear. revert vals. induction ia as [|i ia IH]; intros [|v vals] l;
    simpl; try done.
  case_decide; [apply IH|done].
Qed.

Lemma put_at_length {A} (idx : list nat) (vals a a' : list A) :
  put_at a idx vals = Ok a' -> length a' = length a.
Proof.
  revert vals a. induction idx as [|i idx IH]; intros [|v vals] a;
    simpl; try done.
  - by intros [= <-].
  - case_decide; [|done]. intros Hrun%IH.
    by rewrite length_insert in Hrun.
Qed.

Lemma join_percentiles_length (gals : list (galaxy F P))
    (halos : list (halo F)) (pct gpct : list F) :
  join_percentiles gals halos pct = Ok gpct -> length gpct = length gals.
Proof.
  unfold join_percentiles. intros Hrun.
  inv_bind Hrun. inv_bind Hrun. inv_bind Hrun.
  case_decide; [|done]. inv_bind Hrun.
  apply put_at_length in Hrun. by rewrite length_replicate in Hrun.
Qed.
End JoinFacts.

(** C6. A galaxy whose halo id is the id of no qualifying halo does not
    make the run fail: in the catalogue [Demo.gals_orphan], the galaxy of
    halo 9 is left out of the cross-match, the assertion passes, the galaxy
    gets the percentile zero and [tabulate] returns. *)
Theorem join_orphan_galaxy_not_rejected :
  join_percentiles Demo.gals_orphan
    (qualifying_halos Demo.halocat (Demo.opts Auto))
    (Demo.ccp (qualifying_halos Demo.halocat (Demo.opts Auto)))
  = Ok [10; 20; 30; 30; 30; 0]%Z
  /\ exists ht,
       tabulate Demo.ccp Demo.gals_orphan Demo.tpcf "tpcf" [] ∅
         Demo.halocat (Demo.opts Auto) = Ok ht.
Proof.
  split; [vm_compute; reflexivity|]. eexists. vm_compute. reflexivity.
Qed.

(** ** Galaxy Assignment *)

Section AssignmentFacts.
Context {F : Type} `{Num F} {P : Type}.
Variable gals : list (galaxy F P).
Variable opts : tab_options F.
Variable t : bin_table F.
Variable gpct : list F.



Lemma position_subsets_lookup pos i :
  position_subsets gals opts t gpct = Ok pos -> i < table_len t ->
  exists mask, bin_mask gals opts t gpct i = Ok mask
    /\ pos !! i = Some (select mask (map g_pos gals)).
Proof.
  unfold position_subsets. intros Hrun Hi.
  destruct (map_result_lookup _ _ _ i i Hrun) as (y & Hy & Hlook).
  { unfold range. rewrite lookup_seq. lia. }
  inv_bind Hy. injection Hy as <-. eauto.
Qed.
End AssignmentFacts.



Section EdgeFacts.
Context {F : Type} `{Num F} `{!NumOrder F}.




End EdgeFacts.

Section AssignmentIntervals.
Context {F : Type} `{Num F} {P : Type}.
Variable compute_conditional_percentiles : list (halo F) -> list F.
Variable gals : list (galaxy F P).
Variable tpcf : tpcf_call P -> result (pyval F).
Variable tpcf_name : string.
Variable args : list (pyobj F).
Variable kwargs : gmap string (pyobj F).
Variable halocat : halo_catalog F.
Variable opts : tab_options F.

Local Abbreviation halos := (qualifying_halos halocat opts).
Local Abbreviation bins := (prim_haloprop_bins opts).
Local Abbreviation volume := (prod_F (Lbox halocat)).

End AssignmentIntervals.


(** ** No qualifying halo *)


Lemma column_same {A} (c : list A) k : length c = k -> column k c = Ok c.
Proof. intros Hl. unfold column. by rewrite decide_True. Qed.

Section EmptyCatalogue.
Context {F : Type} `{Num F} {P : Type}.
Variable compute_conditional_percentiles : list (halo F) -> list F.
Variable gals : list (galaxy F P).
Variable tpcf : tpcf_call P -> result (pyval F).
Variable tpcf_name : string.
Variable args : list (pyobj F).
Variable kwargs : gmap string (pyobj F).
Variable halocat : halo_catalog F.
Variable opts : tab_options F.

(** C7, as the code has it.  [tabulate] holds no check of its own for a
    halo table without qualifying halos, but the run does not go on to an
    empty bin table: the conditional percentiles are computed first, on
    the empty table, and that call raises [ValueError].  So the run
    fails before the bin table, the subsets and the matrix are built,
    whatever the mock, the mode and the other options are. *)
Theorem empty_catalogue_value_error :
  qualifying_halos halocat opts = [] ->
  tabulate_run compute_conditional_percentiles gals tpcf tpcf_name
    args kwargs halocat opts = Raise ValueError
  /\ tabulate compute_conditional_percentiles gals tpcf tpcf_name
       args kwargs halocat opts = Raise ValueError.
Proof.
  intros Hq.
  assert (tabulate_run compute_conditional_percentiles gals tpcf tpcf_name
            args kwargs halocat opts = Raise ValueError) as Hrun.
  { unfold tabulate_run. rewrite Hq. reflexivity. }
  split; [exact Hrun|]. unfold tabulate. by rewrite Hrun.
Qed.
End EmptyCatalogue.

(** ** The statements on the catalogue [Demo] *)

Lemma tabulate_auto_matrix_symmetric_witness :
  exists ht,
    tabulate Demo.ccp Demo.gals Demo.tpcf "tpcf" [] ∅ Demo.halocat
      (Demo.opts Auto) = Ok ht
    /\ bins_of (tpcf_matrix ht) = table_len (gal_type ht)
    /\ forall s i j,
         s < depth (tpcf_matrix ht) ->
         i < table_len (gal_type ht) -> j < table_len (gal_type ht) ->
         exists x, cell3 (tpcf_matrix ht) s i j = Some x
                   /\ cell3 (tpcf_matrix ht) s j i = Some x.
Proof.
  eexists. split; [vm_compute; reflexivity|].
  apply (tabulate_auto_matrix_symmetric Demo.ccp Demo.gals Demo.tpcf "tpcf"
           [] ∅ Demo.halocat (Demo.opts Auto));
    [vm_compute; reflexivity|reflexivity].
Defined.

Lemma tabulate_auto_calls_iff_nonempty_witness :
  exists ht calls,
    Demo.run Auto = Ok (ht, calls)
    /\ exists pct gpct pos,
         join_percentiles Demo.gals
           (qualifying_halos Demo.halocat (Demo.opts Auto)) pct = Ok gpct
         /\ position_subsets Demo.gals (Demo.opts Auto) (gal_type ht) gpct
            = Ok pos
         /\ length pos = table_len (gal_type ht)
         /\ (forall i j, i <= j < length pos ->
              ((i, j) ∈ calls
               <-> 0 < subset_len pos i /\ 0 < subset_len pos j)
              /\ (0 < subset_len pos i -> 0 < subset_len pos j ->
                  exists xi, Demo.tpcf (auto_call pos i j) = Ok xi
                             /\ stored3 (tpcf_matrix ht) i j xi)
              /\ (subset_len pos i = 0 \/ subset_len pos j = 0 ->
                  forall s, s < depth (tpcf_matrix ht) ->
                    cell3 (tpcf_matrix ht) s i j = Some fzero
                    /\ cell3 (tpcf_matrix ht) s j i = Some fzero))
         /\ (forall tpcf' : tpcf_call Z -> result (pyval Z),
              (forall i j, i <= j < length pos ->
                 0 < subset_len pos i -> 0 < subset_len pos j ->
                 tpcf' (auto_call pos i j) = Demo.tpcf (auto_call pos i j)) ->
              tabulate_run Demo.ccp Demo.gals tpcf' "tpcf" [] ∅ Demo.halocat
                (Demo.opts Auto) = Ok (ht, calls)).
Proof.
  eexists. eexists. split; [vm_compute; reflexivity|].
  apply (tabulate_auto_calls_iff_nonempty Demo.ccp Demo.gals Demo.tpcf "tpcf"
           [] ∅ Demo.halocat (Demo.opts Auto));
    [vm_compute; reflexivity|reflexivity].
Defined.

Lemma tabulate_bin_table_layout_witness :
  exists ht,
    tabulate Demo.ccp Demo.gals Demo.tpcf "tpcf" [] ∅ Demo.halocat
      (Demo.opts Auto) = Ok ht
    /\ table_len (gal_type ht) = 4
    /\ col_gal_type (gal_type ht)
       = ["centrals"; "centrals"; "satellites"; "satellites"].
Proof.
  eexists. split; [vm_compute; reflexivity|].
  split.
  - apply (tabulate_bin_table_layout Demo.ccp Demo.gals Demo.tpcf "tpcf"
             [] ∅ Demo.halocat (Demo.opts Auto)).
    vm_compute. reflexivity.
  - reflexivity.
Defined.

Lemma tabulate_delta_sigma_cross_only_witness :
  exists ht calls,
    tabulate_run Demo.ccp Demo.gals Demo.delta_sigma "delta_sigma" [] ∅
      Demo.halocat (Demo.opts Cross) = Ok (ht, calls)
    /\ tpcf_matrix ht = Mat2 4 [[1; 1; 0; 2]; [2; 2; 0; 4]]%Z
    /\ tpcf_shape ht = [2]
    /\ exists pos,
         (forall i, i < length pos -> 0 < subset_len pos i ->
            exists xi0 xi, Demo.delta_sigma (cross_call pos i) = Ok xi0
              /\ val_item1 xi0 = Ok xi
              /\ stored2 (tpcf_matrix ht) i xi).
Proof.
  destruct (tabulate_run Demo.ccp Demo.gals Demo.delta_sigma "delta_sigma"
              [] ∅ Demo.halocat (Demo.opts Cross))
    as [[ht calls]|e] eqn:Hrun; [|vm_compute in Hrun; discriminate].
  exists ht, calls. split; [reflexivity|].
  destruct (tabulate_delta_sigma_cross_only Demo.ccp Demo.gals
              Demo.delta_sigma "delta_sigma" [] ∅ Demo.halocat
              (Demo.opts Cross) ht calls Hrun)
    as (pct & gpct & pos & _ & _ & Hcross & _).
  vm_compute in Hrun. injection Hrun as <- <-.
  split; [reflexivity|]. split; [reflexivity|].
  exists pos. intros i Hi Hne.
  destruct (proj1 (Hcross eq_refl) i Hi Hne) as (xi0 & xi & H0 & H1 & _ & H2).
  exists xi0, xi. split; [done|]. split; [by apply H1|done].
Defined.



(** With no qualifying halo [tabulate] raises [ValueError]: it returns
    no object, with a bin table of zero rows or of any other length. *)
Lemma empty_catalogue_counterexample :
  qualifying_halos Demo.halocat_coarse (Demo.opts Auto) = []
  /\ tabulate Demo.ccp [] Demo.tpcf "tpcf" [] ∅ Demo.halocat_coarse
       (Demo.opts Auto) = Raise ValueError
  /\ ~ (exists ht,
          tabulate Demo.ccp [] Demo.tpcf "tpcf" [] ∅ Demo.halocat_coarse
            (Demo.opts Auto) = Ok ht
          /\ table_len (gal_type ht) = 0).
Proof.
  split; [vm_compute; reflexivity|].
  split; [vm_compute; reflexivity|].
  intros (ht & Hrun & _). vm_compute in Hrun. discriminate.
Qed.

Lemma empty_catalogue_value_error_witness :
  qualifying_halos Demo.halocat_coarse (Demo.opts Auto) = []
  /\ tabulate Demo.ccp Demo.gals Demo.tpcf "tpcf" [] ∅ Demo.halocat_coarse
       (Demo.opts Auto) = Raise ValueError.
Proof.
  assert (qualifying_halos Demo.halocat_coarse (Demo.opts Auto) = []) as Hq
    by (vm_compute; reflexivity).
  split; [exact Hq|].
  apply (empty_catalogue_value_error Demo.ccp Demo.gals Demo.tpcf "tpcf" []
           ∅ Demo.halocat_coarse (Demo.opts Auto) Hq).
Defined.

(** ** The Prediction Engine *)

Section PredictFacts.
Context {F : Type} `{Num F}.

Lemma map_result_pure {A B} (f : A -> result B) (g : A -> B) l :
  (forall x, x ∈ l -> f x = Ok (g x)) -> map_result f l = Ok (map g l).
Proof.
  induction l as [|x l IH]; intros Hf; simpl; [done|].
  rewrite (Hf x) by (by left). simpl.
  rewrite IH by (intros y Hy; apply Hf; by right). done.
Qed.

Lemma bzip_same {A B C} (f : A -> B -> result C) (g : A -> B -> C) l k :
  length l = length k ->
  (forall i a b, l !! i = Some a -> k !! i = Some b -> f a b = Ok (g a b)) ->
  bzip f l k = Ok (zip_with g l k).
Proof.
  intros Hlen Hf. unfold bzip. rewrite decide_True by done.
  rewrite (map_result_pure _ (fun p => g p.1 p.2)).
  - f_equal. clear. revert k.
    induction l as [|a l IH]; intros [|b k]; simpl; [done..|].
    f_equal. apply IH.
  - intros [a b] Hin. apply list_elem_of_lookup in Hin as [i Hi].
    apply lookup_zip_with_Some in Hi as (a' & b' & [= -> ->] & Ha & Hb).
    simpl. eauto.
Qed.

Lemma zip_with_fmap_same {A B C D} (f : B -> C -> D) (g1 : A -> B)
    (g2 : A -> C) (l : list A) :
  zip_with f (map g1 l) (map g2 l) = map (fun x => f (g1 x) (g2 x)) l.
Proof. induction l as [|x l IH]; simpl; [done|]. by rewrite IH. Qed.

Lemma bind_concat_map {A B} (f : A -> list B) (l : list A) :
  l ≫= f = concat (map f l).
Proof.
  induction l as [|x l IH]; [done|]. rewrite bind_cons, IH. done.
Qed.

Lemma bind_singleton {A B} (g : A -> B) (l : list A) :
  l ≫= (fun x => [g x]) = map g l.
Proof.
  induction l as [|x l IH]; [done|]. rewrite bind_cons, IH. done.
Qed.

(** A list is the list of its entries. *)
Lemma list_tabulate {A} (d : A) (l : list A) :
  l = map (fun i => default d (l !! i)) (seq 0 (length l)).
Proof.
  apply list_eq. intros i. rewrite list_lookup_fmap.
  destruct (decide (i < length l)) as [Hi|Hi].
  - rewrite lookup_seq_lt by done. simpl.
    destruct (lookup_lt_is_Some_2 l i Hi) as [x Hx]. by rewrite Hx.
  - rewrite lookup_seq_ge by lia. simpl. apply lookup_ge_None. lia.
Qed.

Lemma map_lookup_seq {A B} (h : A -> B) (h' : nat -> B) (l : list A) :
  (forall i x, l !! i = Some x -> h x = h' i) ->
  map h l = map h' (seq 0 (length l)).
Proof.
  intros Hh. apply list_eq. intros i. rewrite !list_lookup_fmap.
  destruct (l !! i) as [x|] eqn:Hx; simpl.
  - rewrite lookup_seq_lt by (eapply lookup_lt_Some; eauto). simpl.
    f_equal. by apply Hh.
  - rewrite lookup_seq_ge; [done|]. by apply lookup_ge_None.
Qed.

Lemma length_select {A} (mask : list bool) (a : list A) :
  length mask = length a -> length (select mask a) = count_true mask.
Proof.
  unfold select, count_true. revert a.
  induction mask as [|b mask IH]; intros [|x a] Hl; try done.
  simpl in Hl. destruct b.
  - rewrite filter_cons_True by done. simpl. f_equal. apply IH. lia.
  - rewrite filter_cons_False by done. simpl. apply IH. lia.
Qed.

Lemma length_scatter (a : list F) mask vals :
  length (scatter a mask vals) = length a.
Proof.
  revert mask vals. induction a as [|x a IH]; intros [|[] mask] vals;
    simpl; try done.
  - destruct vals; simpl; by rewrite IH.
  - by rewrite IH.
Qed.

Lemma count_true_cons b mask :
  count_true (b :: mask) = (if b then 1 else 0) + count_true mask.
Proof.
  unfold count_true. destruct b.
  - by rewrite filter_cons_True.
  - by rewrite filter_cons_False.
Qed.

(** Filling the bins of centrals and then the bins of satellites gives
    every bin the next value of its evaluator. *)
Lemma scatter_interleave (zeros : list F) mask cen sat :
  length zeros = length mask ->
  length cen = count_true mask ->
  length sat = count_true (map negb mask) ->
  scatter (scatter zeros mask cen) (map negb mask) sat
  = interleave mask cen sat.
Proof.
  revert zeros cen sat.
  induction mask as [|b mask IH]; intros [|z zeros] cen sat Hz Hc Hs;
    simpl in *; try done.
  rewrite count_true_cons in Hc, Hs.
  destruct b; simpl in *.
  - destruct cen as [|c cen]; simpl in Hc; [lia|].
    simpl. unfold at_index at 1. simpl. f_equal.
    apply IH; lia.
  - destruct sat as [|s sat]; simpl in Hs; [lia|].
    simpl. unfold at_index at 1. simpl. f_equal.
    apply IH; lia.
Qed.

Lemma length_interleave mask (cen sat : list F) :
  length (interleave mask cen sat) = length mask.
Proof.
  revert cen sat. induction mask as [|[] mask IH]; intros cen sat;
    simpl; [done|by rewrite IH|by rewrite IH].
Qed.

(** One plane of the matrix against the outer product: the array
    expression and the double sum agree. *)
Lemma plane_contraction (m : tmatrix F) (ngal : list F) s plane :
  wf3 m -> bins_of m = length ngal ->
  match m with Mat3 _ planes => planes !! s = Some plane | _ => False end ->
  bzip (bzip mul2) plane (outer ngal ngal)
  = Ok (zip_with (zip_with fmul) plane (outer ngal ngal))
  /\ sum_list (concat (zip_with (zip_with fmul) plane (outer ngal ngal)))
     = weighted_pair_sum m ngal s.
Proof.
  destruct m as [n planes|]; [|done]. simpl. intros Hwf Hn Hs. subst n.
  destruct (proj1 (Forall_lookup _ _) Hwf _ _ Hs) as [Hl Hrows].
  assert (length (outer ngal ngal) = length ngal) as Hlo
    by (unfold outer; by rewrite length_map).
  split.
  - apply bzip_same; [congruence|].
    intros i row orow Hrow Horow. apply bzip_same; [|done].
    rewrite (proj1 (Forall_lookup _ _) Hrows _ _ Hrow).
    unfold outer in Horow. rewrite list_lookup_fmap in Horow.
    destruct (ngal !! i); [|done]. injection Horow as <-.
    by rewrite length_map.
  - unfold weighted_pair_sum. f_equal.
    assert (plane
            = map (fun i => map (fun j => entry3 (Mat3 (length ngal) planes)
                                            s i j)
                             (seq 0 (length ngal)))
                (seq 0 (length ngal))) as Hplane.
    { rewrite (list_tabulate [] plane) at 1. rewrite Hl.
      apply map_ext_in. intros i Hi%list_elem_of_In%elem_of_seq.
      destruct (lookup_lt_is_Some_2 plane i) as [row Hrow]; [lia|].
      rewrite Hrow. simpl.
      rewrite (list_tabulate fzero row) at 1.
      rewrite (proj1 (Forall_lookup _ _) Hrows _ _ Hrow).
      apply map_ext. intros j. unfold entry3. simpl.
      rewrite Hs. simpl. by rewrite Hrow. }
    assert (outer ngal ngal
            = map (fun i => map (fun j => fmul (at_index ngal i)
                                            (at_index ngal j))
                             (seq 0 (length ngal)))
                (seq 0 (length ngal))) as Houter.
    { unfold outer. apply map_lookup_seq. intros i x Hx.
      unfold at_index at 1. rewrite Hx. simpl.
      apply map_lookup_seq. intros j y Hy.
      unfold at_index. by rewrite Hy. }
    rewrite Houter. rewrite Hplane at 1.
    rewrite zip_with_fmap_same.
    rewrite bind_concat_map. f_equal. apply map_ext. intros i.
    by rewrite zip_with_fmap_same, bind_singleton.
Qed.
End PredictFacts.

Section PredictAuto.
Context {F : Type} `{Num F}.
Variable self : TabCorr F.
Variable model : hod_model F.
Variable b : bool.

Local Abbreviation t := (gal_type self).
Local Abbreviation m := (tpcf_matrix self).

Hypothesis Hflag : attrs self !! "sec_haloprop" = Some (OBool b).
Hypothesis Hsec : b = true -> is_Some (col_sec t).
Hypothesis Hgt : length (col_gal_type t) = table_len t.
Hypothesis Hprim : length (col_prim_haloprop t) = table_len t.
Hypothesis Hcen : forall xs secs,
  length (mean_occupation_centrals model xs secs) = length xs.
Hypothesis Hsat : forall xs secs,
  length (mean_occupation_satellites model xs secs) = length xs.

Lemma sec_argument_spec mask :
  sec_argument self mask = Ok (sec_sides b t mask).
Proof using Hflag Hsec.
  unfold sec_argument, sec_sides. rewrite Hflag. simpl.
  destruct b; [|done].
  destruct (Hsec eq_refl) as [secs Hs]. by rewrite Hs.
Qed.

Lemma length_centrals_mask : length (centrals_mask t) = table_len t.
Proof using Hgt. unfold centrals_mask. by rewrite length_map. Qed.

(** The density vector [predict] computes is the mean occupation of
    every bin times its [n_h]. *)
Lemma galaxy_density_spec :
  galaxy_density self model = Ok (bin_density model b t).
Proof using Hflag Hsec Hgt Hprim Hcen Hsat.
  unfold galaxy_density. fold (centrals_mask t).
  pose proof length_centrals_mask as Hlm.
  rewrite !sec_argument_spec. cbn [bind].
  unfold mask_assign.
  rewrite decide_True by (by rewrite length_replicate).
  rewrite broadcast_to_same
    by (rewrite Hcen; apply length_select; congruence).
  cbn [bind].
  rewrite decide_True
    by (by rewrite length_scatter, length_map, length_replicate).
  rewrite broadcast_to_same
    by (rewrite Hsat; apply length_select; rewrite length_map; congruence).
  cbn [bind].
  rewrite scatter_interleave.
  - apply bzip_same; [|done].
    unfold bin_occupation. rewrite length_interleave. done.
  - by rewrite length_replicate.
  - rewrite Hcen. apply length_select. congruence.
  - rewrite Hsat. apply length_select. rewrite length_map. congruence.
Qed.

Lemma length_bin_density : length (bin_density model b t) = table_len t.
Proof using Hgt.
  unfold bin_density, bin_occupation.
  rewrite length_zip_with_l_eq; rewrite length_interleave;
    apply length_centrals_mask.
Qed.

(** The contraction of the matrix with a density vector that
    [galaxy_density] returned. *)
Lemma predict_auto_from_density (ngal : list F) :
  galaxy_density self model = Ok ngal ->
  length ngal = table_len t ->
  attrs self !! "mode" = Some (OStr "auto") ->
  wf3 m -> bins_of m = table_len t ->
  prod_list (tpcf_shape self) = depth m ->
  predict self model
  = Ok (ngal, mk_ndarray (tpcf_shape self) (auto_statistic m ngal)).
Proof.
  intros Hngal Hln Hmode Hwf Hbins Hshape.
  unfold predict. rewrite Hngal. cbn [bind].
  rewrite Hmode. cbn [from_option bind is_str].
  change (String.eqb "auto" "auto") with true. cbv iota.
  destruct m as [n planes|] eqn:Hm; [|done].
  simpl in Hbins. subst n.
  rewrite (map_result_pure _
             (fun plane => zip_with (zip_with fmul) plane (outer ngal ngal))).
  2:{ intros plane Hin. apply list_elem_of_lookup in Hin as [s Hs].
      apply (plane_contraction (Mat3 (table_len t) planes) ngal s);
        [done|by rewrite Hln|done]. }
  cbn [bind].
  assert (map (fun x => fdiv x (fmul (sum_list ngal) (sum_list ngal)))
            (map (fun plane =>
                    sum_list
                      (concat (zip_with (zip_with fmul) plane
                                 (outer ngal ngal)))) planes)
          = auto_statistic (Mat3 (table_len t) planes) ngal) as Hstat.
  { unfold auto_statistic. rewrite map_map. simpl.
    apply map_lookup_seq. intros s plane Hs. f_equal.
    apply (plane_contraction (Mat3 (table_len t) planes) ngal s);
      [done|by rewrite Hln|done]. }
  rewrite (map_map _ (fun p => sum_list (concat p))), Hstat.
  unfold reshape. rewrite decide_True; [done|].
  unfold auto_statistic. rewrite length_map, length_seq. done.
Qed.

(** C1. In auto mode [predict] returns the density vector (the mean
    occupation of every bin times its [n_h]) and, in the recorded
    shape, for every statistic element the sum over both bin dimensions
    of the matrix times the outer product of the density vector with
    itself, divided by the square of the sum of the density vector. *)
Theorem predict_auto_statistic :
  attrs self !! "mode" = Some (OStr "auto") ->
  wf3 m -> bins_of m = table_len t ->
  prod_list (tpcf_shape self) = depth m ->
  predict self model
  = Ok (bin_density model b t,
        mk_ndarray (tpcf_shape self)
          (auto_statistic m (bin_density model b t))).
Proof using Hflag Hsec Hgt Hprim Hcen Hsat.
  intros Hmode Hwf Hbins Hshape.
  apply predict_auto_from_density.
  - apply galaxy_density_spec.
  - apply length_bin_density.
  - exact Hmode.
  - exact Hwf.
  - exact Hbins.
  - exact Hshape.
Qed.
End PredictAuto.

Ltac solve_Forall :=
  repeat first
    [ apply Forall_nil_2
    | apply Forall_cons_2
    | split
    | reflexivity ].

Lemma predict_auto_statistic_witness :
  exists self,
    tabulate Demo.ccp Demo.gals Demo.tpcf "tpcf" [] ∅ Demo.halocat
      (Demo.opts Auto) = Ok self
    /\ predict self Demo.model
       = Ok ([1; 2; 1; 2]%Z, mk_ndarray [2] [0; 0]%Z).
Proof.
  destruct (tabulate Demo.ccp Demo.gals Demo.tpcf "tpcf" [] ∅ Demo.halocat
              (Demo.opts Auto)) as [self|e] eqn:Hrun;
    [|vm_compute in Hrun; discriminate].
  exists self. split; [reflexivity|].
  vm_compute in Hrun. injection Hrun as <-.
  rewrite (predict_auto_statistic _ Demo.model false).
  - vm_compute. reflexivity.
  - vm_compute. reflexivity.
  - discriminate.
  - reflexivity.
  - reflexivity.
  - intros xs secs. simpl. by rewrite length_map.
  - intros xs secs. simpl. by rewrite length_map.
  - vm_compute. reflexivity.
  - simpl. solve_Forall.
  - reflexivity.
  - reflexivity.
Defined.

(** ** The Persistence Adapter *)

Section WriteFacts.
Context {F : Type}.

(** C5. [write] fails when the target file exists, and it fails before
    anything is written: the files are what they were. *)
Theorem write_existing_file_untouched (self : TabCorr F) fname
    (fs : store F) file :
  fs !! fname = Some file ->
  write self fname fs = (Raise FileExistsError, fs).
Proof.
  intros Hfile. unfold write, io_bind, create_new. by rewrite Hfile.
Qed.

(** A failure after the file was created does leave a file behind: an
    object without attributes stops [write] at the first key. *)
Lemma write_missing_attribute_partial (self : TabCorr F) fname
    (fs : store F) :
  fs !! fname = None -> attrs self !! "tpcf" = None ->
  write self fname fs = (Raise KeyError, <[fname := empty_file]> fs).
Proof.
  intros Hfile Hattr. unfold write, io_bind, create_new. rewrite Hfile.
  unfold attr_keys. cbn [io_for]. unfold io_bind, on_file.
  rewrite lookup_insert_eq, Hattr. done.
Qed.
End WriteFacts.

Lemma write_existing_file_untouched_witness :
  exists ht,
    tabulate Demo.ccp Demo.gals Demo.tpcf "tpcf" [] ∅ Demo.halocat
      (Demo.opts Auto) = Ok ht
    /\ write ht "halotab.hdf5" {["halotab.hdf5" := empty_file]}
       = (Raise FileExistsError, {["halotab.hdf5" := empty_file]}).
Proof.
  eexists. split; [vm_compute; reflexivity|].
  apply (write_existing_file_untouched _ "halotab.hdf5" _ empty_file).
  apply lookup_singleton_eq.
Defined.

(** C3. Writing an object and reading the file back does not always give
    the object back.  The object that [tabulate] builds when the callable
    gets no positional argument is written without a group [tpcf_args],
    and [read] fails on the missing group; with eleven positional
    arguments the file lists [arg_10] before [arg_2], and [read] returns
    them in that order. *)
Theorem read_after_write_positional_arguments :
  (exists ht fs,
     tabulate Demo.ccp Demo.gals Demo.tpcf "tpcf" [] ∅ Demo.halocat
       (Demo.opts Auto) = Ok ht
     /\ write ht "halotab.hdf5" ∅ = (Ok tt, fs)
     /\ read "halotab.hdf5" fs = Raise KeyError)
  /\ (exists ht fs ht',
        tabulate Demo.ccp Demo.gals Demo.tpcf "tpcf" Demo.eleven_args ∅
          Demo.halocat (Demo.opts Auto) = Ok ht
        /\ write ht "halotab.hdf5" ∅ = (Ok tt, fs)
        /\ read "halotab.hdf5" fs = Ok ht'
        /\ tpcf_args ht = map OInt [0; 1; 2; 3; 4; 5; 6; 7; 8; 9; 10]%Z
        /\ tpcf_args ht' = map OInt [0; 1; 10; 2; 3; 4; 5; 6; 7; 8; 9]%Z).
Proof.
  split.
  - eexists. eexists. split; [vm_compute; reflexivity|].
    split; vm_compute; reflexivity.
  - eexists. eexists. eexists. split; [vm_compute; reflexivity|].
    split; [vm_compute; reflexivity|].
    split; [vm_compute; reflexivity|].
    split; reflexivity.
Qed.

(** *** Writing and reading back *)

Section RoundTrip.
Context {F : Type}.

Lemma io_for_on_file {X} (f : X -> h5file F -> result (h5file F)) fname xs :
  forall (fs : store F) file file',
    fs !! fname = Some file ->
    for_each f xs file = Ok file' ->
    io_for (fun x => on_file fname (f x)) xs fs
    = (Ok tt, <[fname := file']> fs).
Proof.
  induction xs as [|x xs IH]; intros fs file file' Hfile Hrun; simpl in *.
  - injection Hrun as <-. unfold io_ret. by rewrite insert_id.
  - inv_bind Hrun. unfold io_bind, on_file. rewrite Hfile, Ha.
    rewrite (IH _ a file'); [|by rewrite lookup_insert_eq|done].
    by rewrite insert_insert_eq.
Qed.

Lemma on_file_Ok (f : h5file F -> result (h5file F)) fname
    (fs : store F) file file' :
  fs !! fname = Some file -> f file = Ok file' ->
  on_file fname f fs = (Ok tt, <[fname := file']> fs).
Proof. intros Hfile Hf. unfold on_file. by rewrite Hfile, Hf. Qed.

(** [write] on a fresh name stores what [write_file] builds. *)
Lemma write_as_file (self : TabCorr F) fname (fs : store F) file' :
  fs !! fname = None ->
  write_file self empty_file = Ok file' ->
  write self fname fs = (Ok tt, <[fname := file']> fs).
Proof.
  intros Hnew Hrun. unfold write_file in Hrun.
  inv_bind Hrun. rename a into f1, Ha into H1.
  inv_bind Hrun. rename a into f2, Ha into H2.
  inv_bind Hrun. rename a into f3, Ha into H3.
  inv_bind Hrun. rename a into f4, Ha into H4.
  inv_bind Hrun. rename a into f5, Ha into H5.
  unfold write. unfold io_bind at 1. unfold create_new. rewrite Hnew.
  unfold io_bind at 1.
  rewrite (io_for_on_file _ fname attr_keys _ empty_file f1);
    [|by rewrite lookup_insert_eq|done].
  rewrite insert_insert_eq.
  unfold io_bind at 1.
  rewrite (on_file_Ok _ fname _ f1 f2); [|by rewrite lookup_insert_eq|done].
  rewrite insert_insert_eq.
  unfold io_bind at 1.
  rewrite (io_for_on_file _ fname _ _ f2 f3);
    [|by rewrite lookup_insert_eq|done].
  rewrite insert_insert_eq.
  unfold io_bind at 1.
  rewrite (io_for_on_file _ fname _ _ f3 f4);
    [|by rewrite lookup_insert_eq|done].
  rewrite insert_insert_eq.
  unfold io_bind at 1.
  rewrite (on_file_Ok _ fname _ f4 f5); [|by rewrite lookup_insert_eq|done].
  rewrite insert_insert_eq.
  rewrite (on_file_Ok _ fname _ f5 file'); [|by rewrite lookup_insert_eq|done].
  by rewrite insert_insert_eq.
Qed.

(** The loop over the attribute keys copies the attributes of the
    object. *)
Lemma write_attrs_spec (m : gmap string (pyobj F)) ks :
  forall a r,
    (forall k, k ∈ ks -> is_Some (m !! k)) ->
    exists a',
      for_each (fun key file =>
                  v <- from_option KeyError (m !! key) ;;
                  set_attr key v file) ks (mk_h5file a r)
      = Ok (mk_h5file a' r)
      /\ forall i, a' !! i = if decide (i ∈ ks) then m !! i else a !! i.
Proof.
  induction ks as [|k ks IH]; intros a r Hks; cbn [for_each].
  - exists a. split; [done|]. intros i.
    rewrite decide_False; [done|apply not_elem_of_nil].
  - destruct (Hks k) as [v Hv]; [by left|]. rewrite Hv.
    cbn [from_option bind set_attr f_attrs f_root].
    destruct (IH (<[k := v]> a) r) as (a' & Hrun & Ha').
    { intros k' Hk'. apply Hks. by right. }
    exists a'. split; [done|]. intros i. rewrite Ha'.
    destruct (decide (i ∈ ks)) as [Hi|Hi].
    + rewrite decide_True; [done|by right].
    + destruct (decide (i = k)) as [->|Hne].
      * rewrite decide_True by (by left). by rewrite lookup_insert_eq.
      * rewrite decide_False.
        -- by rewrite lookup_insert_ne.
        -- rewrite elem_of_cons. intros [?|?]; done.
Qed.

Lemma set_member_existing group k (v : pyobj F) file g0 :
  f_root file !! group = Some (Group g0) -> g0 !! k = None ->
  set_member group k v file
  = Ok (mk_h5file (f_attrs file)
          (<[group := Group (<[k := v]> g0)]> (f_root file))).
Proof. intros Hg Hk. unfold set_member. by rewrite Hg, Hk. Qed.

Lemma set_member_absent group k (v : pyobj F) file :
  f_root file !! group = None ->
  set_member group k v file
  = Ok (mk_h5file (f_attrs file)
          (<[group := Group {[k := v]}]> (f_root file))).
Proof. intros Hg. unfold set_member. by rewrite Hg. Qed.

(** The loop over the members of a group adds them to the group. *)
Lemma set_members_spec group (ps : list (string * pyobj F)) :
  forall file g0,
    NoDup ps.*1 ->
    (forall k, k ∈ ps.*1 -> g0 !! k = None) ->
    f_root file !! group = Some (Group g0) ->
    for_each (fun p : string * pyobj F => set_member group p.1 p.2) ps file
    = Ok (mk_h5file (f_attrs file)
            (<[group := Group (list_to_map ps ∪ g0)]> (f_root file))).
Proof.
  induction ps as [|[k v] ps IH]; intros file g0 Hnd Hfresh Hg.
  - cbn [for_each list_to_map foldr].
    rewrite (left_id_L ∅ (∪)). rewrite insert_id by done. by destruct file.
  - rewrite fmap_cons in Hnd. apply NoDup_cons in Hnd as [Hk Hnd].
    cbn [for_each fst snd].
    rewrite (set_member_existing group k v file g0);
      [|done|apply Hfresh; by left].
    cbn [bind].
    rewrite (IH _ (<[k := v]> g0)).
    + cbn [f_attrs f_root]. rewrite insert_insert_eq. do 3 f_equal.
      rewrite list_to_map_cons. cbn [fst snd].
      rewrite <- insert_union_r by (by apply not_elem_of_list_to_map_1).
      by rewrite insert_union_l.
    + done.
    + intros k' Hk'. rewrite lookup_insert_ne by (intros ->; done).
      apply Hfresh. by right.
    + cbn [f_root]. by rewrite lookup_insert_eq.
Qed.

Lemma set_members_fresh group (ps : list (string * pyobj F)) file :
  ps <> [] -> NoDup ps.*1 -> f_root file !! group = None ->
  for_each (fun p : string * pyobj F => set_member group p.1 p.2) ps file
  = Ok (mk_h5file (f_attrs file)
          (<[group := Group (list_to_map ps)]> (f_root file))).
Proof.
  destruct ps as [|[k v] ps]; [done|]. intros _ Hnd Hg.
  rewrite fmap_cons in Hnd. apply NoDup_cons in Hnd as [Hk Hnd].
  cbn [for_each fst snd].
  rewrite (set_member_absent group k v file Hg). cbn [bind].
  rewrite (set_members_spec group ps _ {[k := v]}).
  - cbn [f_attrs f_root]. rewrite insert_insert_eq. do 3 f_equal.
    rewrite list_to_map_cons. cbn [fst snd].
    rewrite insert_union_singleton_r; [done|].
    by apply not_elem_of_list_to_map_1.
  - done.
  - intros k' Hk'. apply lookup_singleton_ne. intros ->. done.
  - cbn [f_root]. by rewrite lookup_insert_eq.
Qed.

Lemma for_each_fmap {St X Y} (g : X -> Y) (body : Y -> St -> result St)
    xs s :
  for_each body (map g xs) s = for_each (fun x => body (g x)) xs s.
Proof.
  revert s. induction xs as [|x xs IH]; intros s; simpl; [done|].
  destruct (body (g x) s); simpl; [apply IH|done].
Qed.

Lemma arg_name_inj i j : arg_name i = arg_name j -> i = j.
Proof.
  unfold arg_name. intros Heq.
  apply (inj (String.app "arg_")) in Heq. by apply (inj pretty) in Heq.
Qed.

Lemma named_args_fst (args : list (pyobj F)) :
  (named_args args).*1 = map arg_name (seq 0 (length args)).
Proof.
  unfold named_args. apply list_eq. intros i.
  rewrite !list_lookup_fmap, list_lookup_imap.
  destruct (args !! i) as [v|] eqn:Hv; simpl.
  - rewrite lookup_seq_lt by (eapply lookup_lt_Some; eauto). done.
  - rewrite lookup_seq_ge; [done|]. by apply lookup_ge_None.
Qed.

Lemma named_args_NoDup (args : list (pyobj F)) : NoDup (named_args args).*1.
Proof.
  rewrite named_args_fst. apply NoDup_fmap_2_strong; [|apply NoDup_seq].
  intros i j _ _. apply arg_name_inj.
Qed.

Lemma named_args_pairs (args : list (pyobj F)) :
  map (fun p : nat * pyobj F => (arg_name p.1, p.2)) (imap pair args)
  = named_args args.
Proof. unfold named_args. rewrite fmap_imap. done. Qed.

Lemma for_each_named_args (args : list (pyobj F)) file :
  for_each (fun p : nat * pyobj F => set_member "tpcf_args" (arg_name p.1) p.2)
    (imap pair args) file
  = for_each (fun q : string * pyobj F => set_member "tpcf_args" q.1 q.2)
      (named_args args) file.
Proof. rewrite <- named_args_pairs. by rewrite for_each_fmap. Qed.

(** Up to ten positional arguments come back in their order. *)
Lemma member_values_named_args (args : list (pyobj F)) :
  0 < length args <= 10 ->
  member_values (list_to_map (named_args args)) = Ok args.
Proof.
  intros Hlen.
  do 11 (destruct args as [|? args];
         [first [simpl in Hlen; lia | vm_compute; reflexivity]|]).
  simpl in Hlen. lia.
Qed.

Lemma set_node_fresh name (node : h5node F) file :
  f_root file !! name = None ->
  set_node name node file
  = Ok (mk_h5file (f_attrs file) (<[name := node]> (f_root file))).
Proof. intros Hn. unfold set_node. by rewrite Hn. Qed.

Lemma set_kwargs_spec (kwargs : gmap string (pyobj F)) file :
  f_root file !! "tpcf_kwargs" = None ->
  for_each (fun p : string * pyobj F => set_member "tpcf_kwargs" p.1 p.2)
    (map_to_list kwargs) file
  = Ok (mk_h5file (f_attrs file) (with_kwargs kwargs (f_root file))).
Proof.
  intros Hroot. unfold with_kwargs. case_decide as Hk.
  - subst kwargs. rewrite map_to_list_empty. simpl. by destruct file.
  - rewrite set_members_fresh.
    + by rewrite list_to_map_to_list.
    + intros Hnil. by apply map_to_list_empty_iff in Hnil.
    + apply NoDup_fst_map_to_list.
    + done.
Qed.

Lemma with_kwargs_lookup (kwargs : gmap string (pyobj F)) root name :
  name <> "tpcf_kwargs" -> with_kwargs kwargs root !! name = root !! name.
Proof.
  intros Hne. unfold with_kwargs. case_decide; [done|].
  by rewrite lookup_insert_ne.
Qed.

Lemma with_kwargs_group (kwargs : gmap string (pyobj F)) root :
  root !! "tpcf_kwargs" = None ->
  match with_kwargs kwargs root !! "tpcf_kwargs" with
  | None => Ok ∅
  | Some (Group g) => Ok g
  | Some _ => Raise AttributeError
  end = Ok kwargs.
Proof.
  intros Hroot. unfold with_kwargs. case_decide as Hk.
  - rewrite Hroot. by subst.
  - by rewrite lookup_insert_eq.
Qed.

(** What [write] stores for an object with the nine attributes and a
    positional argument. *)
Lemma write_file_spec (self : TabCorr F) :
  dom (attrs self) = list_to_set attr_keys ->
  tpcf_args self <> [] ->
  write_file self empty_file = Ok (written self).
Proof.
  intros Hdom Hargs. unfold write_file, empty_file.
  destruct (write_attrs_spec (attrs self) attr_keys ∅ ∅) as (a' & -> & Ha').
  { intros k Hk. apply elem_of_dom. rewrite Hdom.
    by apply elem_of_list_to_set. }
  assert (a' = attrs self) as ->.
  { apply map_eq. intros i. rewrite Ha'. case_decide as Hi; [done|].
    rewrite lookup_empty. symmetry. apply not_elem_of_dom.
    rewrite Hdom. by rewrite elem_of_list_to_set. }
  cbn [bind].
  rewrite set_node_fresh by done. cbn [bind f_attrs f_root].
  rewrite for_each_named_args.
  rewrite set_members_fresh.
  - cbn [bind f_attrs f_root].
    rewrite set_kwargs_spec by done. cbn [bind f_attrs f_root].
    rewrite set_node_fresh
      by (cbn [f_root]; by rewrite with_kwargs_lookup).
    cbn [bind f_attrs f_root].
    rewrite set_node_fresh;
      [done|cbn [f_root];
            rewrite lookup_insert_ne by done; by rewrite with_kwargs_lookup].
  - unfold named_args. destruct (tpcf_args self); [done|discriminate].
  - apply named_args_NoDup.
  - done.
Qed.

(** [read] gives back the object that [written] holds. *)
Lemma read_written (self : TabCorr F) fname (fs : store F) :
  0 < length (tpcf_args self) <= 10 -> init self = true ->
  read fname (<[fname := written self]> fs) = Ok self.
Proof.
  intros Hlen Hinit. unfold read. rewrite lookup_insert_eq.
  cbn [from_option bind]. unfold dataset_value, written.
  cbn [f_attrs f_root].
  rewrite !lookup_insert_ne by done.
  rewrite (with_kwargs_lookup _ _ "tpcf_matrix") by done.
  rewrite lookup_insert_ne by done. rewrite lookup_insert_eq.
  cbn [from_option bind].
  rewrite (with_kwargs_lookup _ _ "tpcf_args") by done.
  rewrite lookup_insert_eq. cbn [from_option bind].
  rewrite member_values_named_args by done. cbn [bind].
  rewrite with_kwargs_group by done. cbn [bind].
  rewrite lookup_insert_eq. cbn [from_option bind].
  rewrite lookup_insert_eq. cbn [from_option bind].
  destruct self. simpl in *. by subst.
Qed.
End RoundTrip.

Section RoundTripTheorem.
Context {F : Type}.

(** Writing an object to a fresh name and reading the file back gives
    the object back, when it has the nine attributes of [tabulate] and
    between one and ten positional arguments. *)
Lemma write_read_round_trip (self : TabCorr F) fname (fs : store F) :
  fs !! fname = None ->
  dom (attrs self) = list_to_set attr_keys ->
  0 < length (tpcf_args self) <= 10 ->
  init self = true ->
  exists fs', write self fname fs = (Ok tt, fs')
              /\ read fname fs' = Ok self.
Proof.
  intros Hnew Hdom Hlen Hinit.
  exists (<[fname := written self]> fs). split.
  - apply write_as_file; [done|]. apply write_file_spec; [done|].
    intros Hnil. rewrite Hnil in Hlen. simpl in Hlen. lia.
  - by apply read_written.
Qed.
End RoundTripTheorem.

(** ** Objects that [tabulate] built *)

Section Tabulated.
Context {F : Type} `{Num F} {P : Type}.
Variable compute_conditional_percentiles : list (halo F) -> list F.
Variable gals : list (galaxy F P).
Variable tpcf : tpcf_call P -> result (pyval F).
Variable tpcf_name : string.
Variable args : list (pyobj F).
Variable kwargs : gmap string (pyobj F).
Variable halocat : halo_catalog F.
Variable opts : tab_options F.

Lemma make_attrs_mode :
  make_attrs tpcf_name halocat opts !! "mode"
  = Some (OStr (mode_string (mode opts))).
Proof.
  unfold make_attrs. rewrite !lookup_insert_ne by done.
  by rewrite lookup_insert_eq.
Qed.

Lemma make_attrs_sec_haloprop :
  make_attrs tpcf_name halocat opts !! "sec_haloprop"
  = Some (OBool (sec_haloprop opts)).
Proof.
  unfold make_attrs. rewrite !lookup_insert_ne by done.
  by rewrite lookup_insert_eq.
Qed.

Lemma make_attrs_dom :
  dom (make_attrs tpcf_name halocat opts) = list_to_set attr_keys.
Proof.
  unfold make_attrs, attr_keys. rewrite !dom_insert_L, dom_empty_L.
  simpl. set_solver.
Qed.

(** The columns of the bin table have the length of the table. *)
Lemma bin_table_columns (halos : list (halo F)) (pct : list F) t :
  make_bin_table halocat opts halos pct = Ok t ->
  length (col_gal_type t) = table_len t
  /\ length (col_prim_haloprop t) = table_len t
  /\ (sec_haloprop opts = true -> is_Some (col_sec t)).
Proof.
  intros Ht.
  destruct (make_bin_table_spec _ _ _ _ _ Ht)
    as (counts & edges & X & Hh & HlX & _ & Hn & Hsec & Hgt & Hmin & Hmax
        & Hprim).
  destruct (histogram_Ok _ _ _ _ Hh) as (Hb & Hle & _ & _).
  unfold table_len.
  rewrite Hprim, length_zip_with, Hmin, Hmax, Hgt, Hn. unfold density.
  rewrite length_map, !length_app, !length_replicate, !length_tile.
  rewrite length_removelast, length_tail_pred, Hle, HlX.
  split; [lia|]. split; [lia|].
  intros Hs. rewrite Hsec, Hs. eauto.
Qed.

(** In auto mode, for a callable that returns arrays with as many
    elements as their shape says, the object that [tabulate] returns
    meets what [predict] needs: the prediction is the contraction of the
    stored matrix. *)
Lemma predict_after_tabulate (model : hod_model F) ht :
  tabulate compute_conditional_percentiles gals tpcf tpcf_name
    args kwargs halocat opts = Ok ht ->
  mode opts = Auto ->
  (forall c a, tpcf c = Ok (PArr a) -> prod_list (shape a) = length (ravel a)) ->
  (forall xs secs,
     length (mean_occupation_centrals model xs secs) = length xs) ->
  (forall xs secs,
     length (mean_occupation_satellites model xs secs) = length xs) ->
  predict ht model
  = Ok (bin_density model (sec_haloprop opts) (gal_type ht),
        mk_ndarray (tpcf_shape ht)
          (auto_statistic (tpcf_matrix ht)
             (bin_density model (sec_haloprop opts) (gal_type ht)))).
Proof.
  intros Hrun Hmode Hshape Hcen Hsat.
  destruct (tabulate_Ok _ _ _ _ _ _ _ _ _ Hrun) as [calls Hrun'].
  destruct (tabulate_run_inv _ _ _ _ _ _ _ _ _ _ Hrun')
    as (pct & gpct & pos & b & _ & Ht & _ & _ & Hlen & Hb & Hloc & _
        & Hattrs & _).
  rewrite Hmode in Hb.
  destruct (bin_table_columns _ _ _ Ht) as (Hgt & Hprim & Hsec).
  destruct (build_auto_spec _ _ _ _ Hb) as [Hinv _].
  unfold auto_inv in Hinv. rewrite Hloc in Hinv. simpl in Hinv.
  destruct Hinv as (Hwf & Hn & _ & _).
  destruct (build_auto_stored _ _ _ _ Hb) as (_ & Hst).
  rewrite Hloc in Hst. simpl in Hst.
  destruct Hst as (_ & _ & _ & i0 & j0 & xi & _ & Hxi & Hsh & v & Hv & Hlv).
  apply predict_auto_from_density.
  - apply galaxy_density_spec; try done.
    rewrite Hattrs. apply make_attrs_sec_haloprop.
  - by apply length_bin_density.
  - rewrite Hattrs, make_attrs_mode, Hmode. done.
  - done.
  - congruence.
  - destruct xi as [a|]; [|done]. simpl in Hsh, Hv.
    injection Hsh as <-. injection Hv as <-.
    rewrite <- Hlv. by eapply Hshape.
Qed.

(** The object that [tabulate] returns for a callable with one to ten
    positional arguments is read back from the file it is written to. *)
Lemma tabulate_write_read ht fname (fs : store F) :
  tabulate compute_conditional_percentiles gals tpcf tpcf_name
    args kwargs halocat opts = Ok ht ->
  0 < length args <= 10 ->
  fs !! fname = None ->
  exists fs', write ht fname fs = (Ok tt, fs') /\ read fname fs' = Ok ht.
Proof.
  intros Hrun Hlen Hnew.
  destruct (tabulate_Ok _ _ _ _ _ _ _ _ _ Hrun) as [calls Hrun'].
  destruct (tabulate_run_inv _ _ _ _ _ _ _ _ _ _ Hrun')
    as (pct & gpct & pos & b & _ & _ & _ & _ & _ & _ & _ & _
        & Hattrs & Hargs & _ & Hinit).
  exists (<[fname := written ht]> fs). split.
  - apply write_as_file; [done|]. apply write_file_spec.
    + rewrite Hattrs. apply make_attrs_dom.
    + rewrite Hargs. intros Hnil. rewrite Hnil in Hlen. simpl in Hlen. lia.
  - apply read_written; [by rewrite Hargs|done].
Qed.
End Tabulated.

(** * Further properties *)

(** ** [predict] in cross mode and its failures *)

Section PredictCross.
Context {F : Type} `{Num F}.
Variable self : TabCorr F.
Variable model : hod_model F.

Local Abbreviation t := (gal_type self).
Local Abbreviation m := (tpcf_matrix self).

(** One row of the cross-mode matrix against the density vector. *)
Lemma row_contraction (ngal : list F) s row :
  wf2 m -> bins_of m = length ngal ->
  match m with Mat2 _ rows => rows !! s = Some row | _ => False end ->
  bzip mul2 row ngal = Ok (zip_with fmul row ngal)
  /\ sum_list (zip_with fmul row ngal) = weighted_sum m ngal s.
Proof.
  destruct m as [|n rows]; [done|]. simpl. intros Hwf Hn Hs. subst n.
  pose proof (proj1 (Forall_lookup _ _) Hwf _ _ Hs) as Hl. simpl in Hl.
  split; [by apply bzip_same|].
  unfold weighted_sum. f_equal.
  apply list_eq. intros i. rewrite lookup_zip_with, list_lookup_fmap.
  unfold entry2, at_index. simpl. rewrite Hs. simpl.
  destruct (decide (i < length ngal)) as [Hi|Hi].
  - rewrite lookup_seq_lt by done. simpl.
    destruct (lookup_lt_is_Some_2 row i) as [x Hx]; [lia|].
    destruct (lookup_lt_is_Some_2 ngal i) as [y Hy]; [lia|].
    by rewrite Hx, Hy.
  - rewrite lookup_seq_ge by lia. simpl.
    rewrite (proj2 (lookup_ge_None row i)) by lia. done.
Qed.

Lemma predict_cross_from_density (ngal : list F) :
  galaxy_density self model = Ok ngal ->
  length ngal = table_len t ->
  attrs self !! "mode" = Some (OStr "cross") ->
  wf2 m -> bins_of m = table_len t ->
  prod_list (tpcf_shape self) = depth m ->
  predict self model
  = Ok (ngal, mk_ndarray (tpcf_shape self) (cross_statistic m ngal)).
Proof.
  intros Hngal Hln Hmode Hwf Hbins Hshape.
  unfold predict. rewrite Hngal. cbn [bind].
  rewrite Hmode. cbn [from_option bind].
  change (is_str "auto" (OStr "cross")) with false.
  change (is_str "cross" (OStr "cross")) with true. cbv iota.
  destruct m as [|n rows] eqn:Hm; [done|].
  simpl in Hbins. subst n.
  rewrite (map_result_pure _ (fun row => zip_with fmul row ngal)).
  2:{ intros row Hin. apply list_elem_of_lookup in Hin as [s Hs].
      apply (row_contraction ngal s); rewrite ?Hm; [done|by rewrite Hln|done]. }
  cbn [bind].
  assert (map (fun x => fdiv x (sum_list ngal))
            (map sum_list (map (fun row => zip_with fmul row ngal) rows))
          = cross_statistic (Mat2 (table_len t) rows) ngal) as Hstat.
  { unfold cross_statistic. rewrite !map_map. simpl.
    apply map_lookup_seq. intros s row Hs. f_equal.
    rewrite <- Hm.
    apply (row_contraction ngal s); rewrite ?Hm; [done|by rewrite Hln|done]. }
  rewrite Hstat.
  unfold reshape. rewrite decide_True; [done|].
  unfold cross_statistic. rewrite length_map, length_seq. done.
Qed.
End PredictCross.

Section PredictOutcomes.
Context {F : Type} `{Num F}.
Variable self : TabCorr F.
Variable model : hod_model F.
Variable b : bool.

Local Abbreviation t := (gal_type self).
Local Abbreviation m := (tpcf_matrix self).

Hypothesis Hflag : attrs self !! "sec_haloprop" = Some (OBool b).
Hypothesis Hsec : b = true -> is_Some (col_sec t).
Hypothesis Hgt : length (col_gal_type t) = table_len t.

(** In cross mode [predict] returns the density vector and, in the
    recorded shape, for every statistic element the sum over the bins of
    the matrix times the density vector, divided by the sum of the
    density vector. *)
Theorem predict_cross_statistic :
  length (col_prim_haloprop t) = table_len t ->
  (forall xs secs,
     length (mean_occupation_centrals model xs secs) = length xs) ->
  (forall xs secs,
     length (mean_occupation_satellites model xs secs) = length xs) ->
  attrs self !! "mode" = Some (OStr "cross") ->
  wf2 m -> bins_of m = table_len t ->
  prod_list (tpcf_shape self) = depth m ->
  predict self model
  = Ok (bin_density model b t,
        mk_ndarray (tpcf_shape self)
          (cross_statistic m (bin_density model b t))).
Proof using Hflag Hsec Hgt.
  intros Hprim Hcen Hsat Hmode Hwf Hbins Hshape.
  apply predict_cross_from_density.
  - by apply galaxy_density_spec.
  - by apply length_bin_density.
  - exact Hmode.
  - exact Hwf.
  - exact Hbins.
  - exact Hshape.
Qed.

(** Once the density vector is computed, a missing attribute ['mode']
    makes [predict] raise [KeyError], and a mode that is neither ['auto']
    nor ['cross'] leaves [xi] unbound: [predict] raises
    [UnboundLocalError]. *)
Theorem predict_mode_errors :
  length (col_prim_haloprop t) = table_len t ->
  (forall xs secs,
     length (mean_occupation_centrals model xs secs) = length xs) ->
  (forall xs secs,
     length (mean_occupation_satellites model xs secs) = length xs) ->
  (attrs self !! "mode" = None -> predict self model = Raise KeyError)
  /\ (forall o, attrs self !! "mode" = Some o ->
        is_str "auto" o = false -> is_str "cross" o = false ->
        predict self model = Raise UnboundLocalError).
Proof using Hflag Hsec Hgt.
  intros Hprim Hcen Hsat.
  pose proof (galaxy_density_spec self model b Hflag Hsec Hgt Hprim Hcen Hsat)
    as Hd.
  split.
  - intros Hmode. unfold predict. rewrite Hd. cbn [bind].
    by rewrite Hmode.
  - intros o Hmode Ha Hc. unfold predict. rewrite Hd. cbn [bind].
    rewrite Hmode. cbn [from_option bind]. by rewrite Ha, Hc.
Qed.

(** An evaluator for the centrals that returns neither one value per bin
    of centrals nor a single value makes [predict] raise [ValueError]. *)
Theorem predict_evaluator_length_error :
  let mask := centrals_mask t in
  let vals := mean_occupation_centrals model
                (select mask (col_prim_haloprop t)) (sec_sides b t mask) in
  length vals <> count_true mask -> length vals <> 1 ->
  predict self model = Raise ValueError.
Proof using Hflag Hsec Hgt.
  intros mask vals Hcount Hone.
  unfold predict, galaxy_density. fold (centrals_mask t). fold mask.
  rewrite (sec_argument_spec self b Hflag Hsec). cbn [bind]. fold vals.
  unfold mask_assign at 1.
  rewrite decide_True
    by (rewrite length_replicate; unfold mask;
        by apply length_centrals_mask).
  unfold broadcast_to. rewrite decide_False by done.
  destruct vals as [|x [|y vals']]; simpl in Hone; try done.
Qed.
End PredictOutcomes.

Section PredictReturns.
Context {F : Type} `{Num F}.




End PredictReturns.

(** ** What [write] does to the files *)

Section WriteFrame.
Context {F : Type}.

Lemma local_to_on_file fname (f : h5file F -> result (h5file F)) :
  local_to fname (on_file fname f).
Proof.
  intros fs. unfold on_file.
  destruct (fs !! fname) as [file|] eqn:Hfile; simpl; [|done].
  destruct (f file) as [file'|e]; simpl.
  - split.
    + intros other Hne. by rewrite lookup_insert_ne.
    + intros _. rewrite lookup_insert_eq. eauto.
  - rewrite Hfile. eauto.
Qed.

Lemma local_to_bind {A B} fname (c : io (F:=F) A) (k : A -> io (F:=F) B) :
  local_to fname c -> (forall a, local_to fname (k a)) ->
  local_to fname (io_bind c k).
Proof.
  intros Hc Hk fs. unfold io_bind.
  destruct (Hc fs) as [Hc1 Hc2].
  destruct (c fs) as [[a|e] fs'] eqn:Hcfs; simpl in *; [|done].
  destruct (Hk a fs') as [Hk1 Hk2]. split.
  - intros other Hne. rewrite Hk1 by done. by apply Hc1.
  - intros Hsome. by apply Hk2, Hc2.
Qed.

Lemma local_to_for {X} fname (body : X -> io (F:=F) unit) xs :
  (forall x, local_to fname (body x)) -> local_to fname (io_for body xs).
Proof.
  intros Hbody. induction xs as [|x xs IH]; simpl.
  - intros fs. done.
  - apply local_to_bind; [apply Hbody|]. intros _. apply IH.
Qed.

Lemma local_to_create_new fname : local_to fname (create_new (F:=F) fname).
Proof.
  intros fs. unfold create_new.
  destruct (fs !! fname) as [file|] eqn:Hfile; simpl.
  - rewrite Hfile. eauto.
  - split; [|by intros []].
    intros other Hne. by rewrite lookup_insert_ne.
Qed.

Lemma local_to_write (self : TabCorr F) fname :
  local_to fname (write self fname).
Proof.
  unfold write.
  repeat first
    [ apply local_to_for; intros ?; cbv beta
    | apply local_to_on_file
    | apply local_to_create_new
    | apply local_to_bind; [|intros _] ].
Qed.

(** [write] never touches a file of another name, whether it returns or
    raises. *)
Theorem write_keeps_other_files (self : TabCorr F) fname (fs : store F)
    other :
  other <> fname -> (write self fname fs).2 !! other = fs !! other.
Proof. intros Hne. by apply local_to_write. Qed.

Lemma write_existing_file_untouched_aux (self : TabCorr F) fname
    (fs : store F) file :
  fs !! fname = Some file ->
  write self fname fs = (Raise FileExistsError, fs).
Proof.
  intros Hfile. unfold write, io_bind, create_new. by rewrite Hfile.
Qed.

(** After [write], whether it returned or raised, there is a file of
    that name. *)
Lemma write_leaves_file (self : TabCorr F) fname (fs : store F) :
  is_Some ((write self fname fs).2 !! fname).
Proof.
  unfold write. unfold io_bind at 1.
  destruct (create_new fname fs) as [[u|e] fs'] eqn:Hc.
  - assert (is_Some (fs' !! fname)) as Hsome.
    { unfold create_new in Hc. destruct (fs !! fname); [done|].
      injection Hc as _ <-. rewrite lookup_insert_eq. eauto. }
    revert Hsome.
    match goal with |- _ -> is_Some ((?c fs').2 !! _) =>
      assert (local_to fname c) as Hloc end.
    { repeat first
        [ apply local_to_for; intros ?; cbv beta
        | apply local_to_on_file
        | apply local_to_bind; [|intros _] ]. }
    apply Hloc.
  - unfold create_new in Hc. destruct (fs !! fname) eqn:Hf; [|done].
    injection Hc as _ <-. simpl. rewrite Hf. eauto.
Qed.

(** A second [write] under the same name fails on the existing file and
    changes nothing, whatever the first one did: even a [write] that
    raised midway leaves a file that stops the next attempt. *)
Theorem write_twice_fails (self self' : TabCorr F) fname (fs : store F) :
  write self' fname (write self fname fs).2
  = (Raise FileExistsError, (write self fname fs).2).
Proof.
  destruct (write_leaves_file self fname fs) as [file Hfile].
  by apply (write_existing_file_untouched_aux self' fname _ file).
Qed.
End WriteFrame.

Section WriteFailures.
Context {F : Type}.

(** The attribute loop stops with [KeyError] at a missing key; until then
    it only adds attributes. *)
Lemma write_attrs_missing (m : gmap string (pyobj F)) ks :
  forall file,
    (exists k, k ∈ ks /\ m !! k = None) ->
    for_each (fun key file =>
                v <- from_option KeyError (m !! key) ;;
                set_attr key v file) ks file
    = Raise KeyError.
Proof.
  induction ks as [|k ks IH]; intros file (k0 & Hin & Hnone).
  - by apply not_elem_of_nil in Hin.
  - cbn [for_each]. destruct (m !! k) as [v|] eqn:Hk; [|done].
    cbn [from_option bind set_attr]. apply IH.
    apply elem_of_cons in Hin as [->|Hin]; [congruence|eauto].
Qed.

Lemma io_for_on_file_Raise {X} (I : h5file F -> Prop)
    (f : X -> h5file F -> result (h5file F)) fname xs e :
  (forall x file file', I file -> f x file = Ok file' -> I file') ->
  forall (fs : store F) file,
    fs !! fname = Some file -> I file ->
    for_each f xs file = Raise e ->
    exists file', I file'
      /\ io_for (fun x => on_file fname (f x)) xs fs
         = (Raise e, <[fname := file']> fs).
Proof.
  intros Hstep. induction xs as [|x xs IH]; intros fs file Hfile HI Hrun;
    [done|].
  cbn [for_each] in Hrun. cbn [io_for]. unfold io_bind, on_file at 1.
  rewrite Hfile.
  destruct (f x file) as [file1|e1] eqn:Hf.
  - cbn [bind] in Hrun.
    destruct (IH (<[fname := file1]> fs) file1) as (file' & HI' & Hio);
      [by rewrite lookup_insert_eq|by eapply Hstep|done|].
    exists file'. split; [done|]. rewrite Hio. by rewrite insert_insert_eq.
  - injection Hrun as <-. exists file. split; [done|].
    by rewrite insert_id.
Qed.

(** When the object lacks one of the nine attributes, [write] to a fresh
    name raises [KeyError] and leaves behind a file that holds no dataset
    at all. *)
Theorem write_missing_attribute_leaves_file (self : TabCorr F) fname
    (fs : store F) key :
  fs !! fname = None -> key ∈ attr_keys -> attrs self !! key = None ->
  exists file,
    write self fname fs = (Raise KeyError, <[fname := file]> fs)
    /\ f_root file = ∅.
Proof.
  intros Hnew Hkey Hnone. unfold write.
  unfold io_bind at 1. unfold create_new. rewrite Hnew.
  destruct (io_for_on_file_Raise (fun file => f_root file = ∅)
              (fun key file =>
                 v <- from_option KeyError (attrs self !! key) ;;
                 set_attr key v file)
              fname attr_keys KeyError) with
    (fs := <[fname := empty_file]> fs) (file := empty_file (F:=F))
    as (file & Hroot & Hio).
  - intros x file file' HI Hf. inv_bind Hf. by injection Hf as <-.
  - by rewrite lookup_insert_eq.
  - done.
  - apply write_attrs_missing. eauto.
  - exists file. split; [|done].
    unfold io_bind at 1. rewrite Hio. by rewrite insert_insert_eq.
Qed.
End WriteFailures.

Section ReadFacts.
Context {F : Type}.

Lemma write_file_no_args (self : TabCorr F) :
  dom (attrs self) = list_to_set attr_keys ->
  tpcf_args self = [] ->
  write_file self empty_file = Ok (written_no_args self).
Proof.
  intros Hdom Hargs. unfold write_file, empty_file.
  destruct (write_attrs_spec (attrs self) attr_keys ∅ ∅) as (a' & -> & Ha').
  { intros k Hk. apply elem_of_dom. rewrite Hdom.
    by apply elem_of_list_to_set. }
  assert (a' = attrs self) as ->.
  { apply map_eq. intros i. rewrite Ha'. case_decide as Hi; [done|].
    rewrite lookup_empty. symmetry. apply not_elem_of_dom.
    rewrite Hdom. by rewrite elem_of_list_to_set. }
  cbn [bind].
  rewrite set_node_fresh by done. cbn [bind f_attrs f_root].
  rewrite Hargs. cbn [imap for_each bind].
  rewrite set_kwargs_spec by done. cbn [bind f_attrs f_root].
  rewrite set_node_fresh
    by (cbn [f_root]; by rewrite with_kwargs_lookup).
  cbn [bind f_attrs f_root].
  rewrite set_node_fresh;
    [done|cbn [f_root];
          rewrite lookup_insert_ne by done; by rewrite with_kwargs_lookup].
Qed.

(** An object with the nine attributes and no positional argument is
    written without error, and the file cannot be read back: [read]
    raises [KeyError] on the group [tpcf_args] that [write] did not
    create. *)
Theorem write_read_no_args (self : TabCorr F) fname (fs : store F) :
  fs !! fname = None ->
  dom (attrs self) = list_to_set attr_keys ->
  tpcf_args self = [] ->
  exists fs', write self fname fs = (Ok tt, fs')
              /\ read fname fs' = Raise KeyError.
Proof.
  intros Hnew Hdom Hargs.
  exists (<[fname := written_no_args self]> fs). split.
  - apply write_as_file; [done|]. by apply write_file_no_args.
  - unfold read. rewrite lookup_insert_eq. cbn [from_option bind].
    unfold dataset_value, written_no_args. cbn [f_attrs f_root].
    rewrite !lookup_insert_ne by done.
    rewrite (with_kwargs_lookup _ _ "tpcf_matrix") by done.
    rewrite lookup_insert_eq. cbn [from_option bind].
    rewrite (with_kwargs_lookup _ _ "tpcf_args") by done.
    by rewrite lookup_insert_ne.
Qed.

(** [read] accepts a file without the group [tpcf_kwargs]: taking the
    group out of a file that [read] accepts gives a file that [read]
    accepts too, with the same object but for an empty mapping of keyword
    arguments. *)
Theorem read_without_kwargs fname (fs : store F) file ht :
  fs !! fname = Some file ->
  read fname fs = Ok ht ->
  read fname (<[fname := without_kwargs file]> fs)
  = Ok (mk_TabCorr (init ht) (gal_type ht) (attrs ht) (tpcf_args ht) ∅
          (tpcf_shape ht) (tpcf_matrix ht)).
Proof.
  intros Hfile Hrun. unfold read in *. rewrite Hfile in Hrun.
  rewrite lookup_insert_eq. cbn [from_option bind] in *.
  unfold dataset_value, without_kwargs in *. cbn [f_attrs f_root].
  inv_bind Hrun. rename a into mv, Ha into Hmv.
  rewrite lookup_delete_ne by done. rewrite Hmv. cbn [bind].
  inv_bind Hrun. rename a into mat, Ha into Hmat. rewrite Hmat. cbn [bind].
  inv_bind Hrun. rename a into anode, Ha into Han.
  rewrite lookup_delete_ne by done. rewrite Han. cbn [bind].
  inv_bind Hrun. rename a into args, Ha into Hargs. rewrite Hargs. cbn [bind].
  inv_bind Hrun. rename a into kw, Ha into Hkw.
  rewrite lookup_delete_eq. cbn [bind].
  inv_bind Hrun. rename a into sv, Ha into Hsv.
  rewrite lookup_delete_ne by done. rewrite Hsv. cbn [bind].
  inv_bind Hrun. rename a into shp, Ha into Hshp. rewrite Hshp. cbn [bind].
  inv_bind Hrun. rename a into tn, Ha into Htn.
  rewrite lookup_delete_ne by done. rewrite Htn. cbn [bind].
  inv_bind Hrun. rename a into tb, Ha into Htb. rewrite Htb. cbn [bind].
  by injection Hrun as <-.
Qed.
End ReadFacts.

(** ** The calls of [tabulate], in order *)

Section CallOrder.
Context {F : Type} `{Num F} {P : Type}.
Variable tpcf : tpcf_call P -> result (pyval F).
Variable tpcf_name : string.
Variable pos : list (list P).

Local Abbreviation n := (length pos).

Lemma auto_pairs_NoDup m : NoDup (auto_pairs m).
Proof.
  unfold auto_pairs. apply NoDup_bind.
  - intros i1 i2 [a c] _ _ H1 H2.
    apply list_elem_of_fmap in H1 as (k1 & [= -> ->] & _).
    apply list_elem_of_fmap in H2 as (k2 & [= -> ->] & _). done.
  - intros i _. apply NoDup_fmap_2; [|apply NoDup_seq].
    intros k1 k2 [= ->]. done.
  - apply NoDup_seq.
Qed.

Lemma cross_pairs_NoDup m : NoDup (cross_pairs m).
Proof.
  unfold cross_pairs. apply NoDup_fmap_2; [|apply NoDup_seq].
  intros k1 k2 [= ->]. done.
Qed.

Lemma elem_of_cross_pairs m a c : (a, c) ∈ cross_pairs m <-> a = c /\ a < m.
Proof.
  unfold cross_pairs. rewrite list_elem_of_fmap. split.
  - intros (i & [= -> ->] & Hi). apply elem_of_range in Hi. lia.
  - intros [<- Ha]. exists a. split; [done|]. apply elem_of_range. lia.
Qed.

(** One iteration of the cross-mode loop logs its call exactly when the
    subset of the bin holds a galaxy, and keeps the columns of the bins
    without a call at zero. *)
Lemma cross_body_calls i (b b' : builder (F:=F)) :
  cross_zero_inv n b ->
  cross_body tpcf tpcf_name pos i b = Ok b' ->
  cross_zero_inv n b'
  /\ b_calls b' = (if decide (nonempty_pair pos (i, i)) then [(i, i)] else [])
                  ++ b_calls b.
Proof.
  intros Hinv Hrun. unfold cross_body in Hrun.
  inv_bind Hrun. rename a into pi, Ha into Hpi.
  apply pos_at_Ok in Hpi as (Hi & _ & Hli).
  assert (nonempty_pair pos (i, i) <-> 0 < length pi) as Hiff.
  { unfold nonempty_pair. cbn [fst snd]. rewrite Hli. nia. }
  case_decide as Hne;
    [rewrite decide_True by (by apply Hiff)
    |rewrite decide_False by (by rewrite Hiff); injection Hrun as <-; done].
  inv_bind Hrun. rename a into xi0, Ha into Hxi0.
  inv_bind Hrun. rename a into xi, Ha into Hxi.
  inv_bind Hrun. rename a into v, Ha into Hv.
  inv_bind Hrun. rename a into ms, Ha into Hms.
  inv_bind Hrun. rename a into m1, Ha into Hm1.
  injection Hrun as <-. split; [|done].
  assert (wf2 ms.1 /\ bins_of ms.1 = n
          /\ untouched_zero2 ms.1 (b_calls b)) as (Hwf & Hn & Hz).
  { unfold cross_zero_inv in Hinv. destruct (b_locals b) as [ms0|].
    - injection Hms as <-. exact Hinv.
    - inv_bind Hms. injection Hms as <-. cbn [fst snd].
      split; [apply zeros2_wf|]. split; [done|].
      intros s a' Hs Ha' _. cbn [depth bins_of] in Hs, Ha'.
      unfold zeros2 in *. rewrite length_replicate in Hs.
      cbn [cell2]. rewrite lookup_replicate_2 by done. cbn.
      by rewrite lookup_replicate_2. }
  destruct (assign2_spec _ _ _ _ Hwf Hm1)
    as (v' & Hv' & Hwf1 & Hd1 & Hb1 & _ & Hc1).
  unfold cross_zero_inv. cbn [b_locals b_calls fst snd].
  split; [done|]. split; [congruence|].
  intros s a' Hs Ha' Hn1. rewrite Hc1.
  rewrite not_elem_of_cons in Hn1. destruct Hn1 as [Hn1 Hn1'].
  rewrite decide_False by congruence.
  apply Hz; [lia|congruence|done].
Qed.

Lemma cross_loop_calls rows (b b' : builder (F:=F)) :
  cross_zero_inv n b ->
  for_each (row_body tpcf tpcf_name pos Cross) rows b = Ok b' ->
  cross_zero_inv n b'
  /\ b_calls b'
     = reverse (filter (nonempty_pair pos) ((fun i => (i, i)) <$> rows))
       ++ b_calls b.
Proof.
  revert b. induction rows as [|i rows IH]; intros b Hinv Hrun;
    cbn [for_each] in Hrun.
  - injection Hrun as <-. done.
  - inv_bind Hrun. cbn [row_body] in Ha.
    destruct (cross_body_calls _ _ _ Hinv Ha) as [Hinv1 Hc1].
    destruct (IH _ Hinv1 Hrun) as [Hinv2 Hc2].
    split; [done|]. rewrite Hc2, Hc1. rewrite fmap_cons, filter_cons.
    case_decide; [|done].
    rewrite reverse_cons, <- app_assoc. done.
Qed.

(** The cross-mode builder: its calls and the columns it left alone. *)
Lemma build_cross_calls (b : builder (F:=F)) :
  build tpcf tpcf_name pos Cross = Ok b ->
  cross_zero_inv n b
  /\ b_calls b = reverse (filter (nonempty_pair pos) (cross_pairs n)).
Proof.
  intros Hrun. unfold build, n_bins in Hrun.
  destruct (cross_loop_calls _ builder_init b I Hrun) as [Hinv Hc].
  split; [done|]. rewrite Hc. cbn [b_calls builder_init].
  by rewrite app_nil_r.
Qed.

(** A mode that is neither ['auto'] nor ['cross'] leaves the builder as
    it was. *)
Lemma build_other_mode name :
  build tpcf tpcf_name pos (OtherMode name) = Ok (builder_init (F:=F)).
Proof.
  unfold build. generalize (range 0 (n_bins pos)).
  intros l. induction l as [|i l IH]; [done|]. cbn [for_each row_body bind].
  exact IH.
Qed.
End CallOrder.

Section TabulateCalls.
Context {F : Type} `{Num F} {P : Type}.
Variable compute_conditional_percentiles : list (halo F) -> list F.
Variable gals : list (galaxy F P).
Variable tpcf : tpcf_call P -> result (pyval F).
Variable tpcf_name : string.
Variable args : list (pyobj F).
Variable kwargs : gmap string (pyobj F).
Variable halocat : halo_catalog F.
Variable opts : tab_options F.

Local Abbreviation run :=
  (tabulate_run compute_conditional_percentiles gals tpcf tpcf_name
     args kwargs halocat opts).
Local Abbreviation halos := (qualifying_halos halocat opts).

(** The calls that [tabulate] makes are, in order, those of the pairs
    of bins (auto mode: rows first, and within a row the columns from the
    diagonal on) or of the bins (cross mode) whose subsets hold a galaxy,
    each once.  Every one of them is a call of the callable on the
    subsets of its bins, with its value in the matrix; and the shape and
    the leading dimension recorded are those of the value returned for
    the first of them in that order. *)
Theorem tabulate_calls_in_order ht calls :
  run = Ok (ht, calls) ->
  exists pct gpct pos,
    join_percentiles gals halos pct = Ok gpct
    /\ position_subsets gals opts (gal_type ht) gpct = Ok pos
    /\ NoDup calls
    /\ (mode opts = Auto ->
        reverse calls
        = filter (nonempty_pair pos) (auto_pairs (table_len (gal_type ht)))
        /\ (forall i j, (i, j) ∈ calls ->
              exists xi, tpcf (auto_call pos i j) = Ok xi
                         /\ stored3 (tpcf_matrix ht) i j xi)
        /\ exists i0 j0 xi,
             head (filter (nonempty_pair pos)
                     (auto_pairs (table_len (gal_type ht)))) = Some (i0, j0)
             /\ tpcf (auto_call pos i0 j0) = Ok xi
             /\ recorded (tpcf_matrix ht) (tpcf_shape ht) xi)
    /\ (mode opts = Cross ->
        reverse calls
        = filter (nonempty_pair pos) (cross_pairs (table_len (gal_type ht)))
        /\ (forall i, (i, i) ∈ calls ->
              exists xi0 xi, tpcf (cross_call pos i) = Ok xi0
                /\ kept_component tpcf_name xi0 = Ok xi
                /\ stored2 (tpcf_matrix ht) i xi)
        /\ exists i0 xi0 xi,
             head (filter (nonempty_pair pos)
                     (cross_pairs (table_len (gal_type ht)))) = Some (i0, i0)
             /\ tpcf (cross_call pos i0) = Ok xi0
             /\ kept_component tpcf_name xi0 = Ok xi
             /\ recorded (tpcf_matrix ht) (tpcf_shape ht) xi).
Proof.
  intros Hrun.
  destruct (tabulate_run_inv _ _ _ _ _ _ _ _ _ _ Hrun)
    as (pct & gpct & pos & b & _ & _ & Hj & Hpos & Hlen & Hb & Hloc & Hc & _).
  exists pct, gpct, pos. split; [done|]. split; [done|].
  rewrite <- Hlen, Hc.
  destruct (mode opts) as [| |name] eqn:Hmode.
  - destruct (build_auto_spec _ _ _ _ Hb) as [_ Hcalls].
    destruct (build_auto_stored _ _ _ _ Hb) as (_ & Hst).
    rewrite Hloc in Hst. cbn [fst snd] in Hst.
    destruct Hst as (_ & _ & Hst & i0 & j0 & xi & Hlast & Hxi & Hrec).
    split; [|split; [|done]].
    + rewrite Hcalls, reverse_Permutation.
      apply NoDup_filter, auto_pairs_NoDup.
    + intros _. split; [by rewrite Hcalls, reverse_involutive|].
      split; [exact Hst|].
      exists i0, j0, xi. split; [|done].
      rewrite Hcalls, last_reverse in Hlast. exact Hlast.
  - destruct (build_cross_calls _ _ _ _ Hb) as [_ Hcalls].
    destruct (build_cross_spec _ _ _ _ Hb) as (_ & _ & Hst).
    rewrite Hloc in Hst. cbn [fst snd] in Hst.
    destruct Hst as (_ & _ & Hst & i0 & xi0 & xi & Hlast & Hxi0 & Hk & Hrec).
    split; [|split; [done|]].
    + rewrite Hcalls, reverse_Permutation.
      apply NoDup_filter, cross_pairs_NoDup.
    + intros _. split; [by rewrite Hcalls, reverse_involutive|].
      split; [exact Hst|].
      exists i0, xi0, xi. split; [|done].
      rewrite Hcalls, last_reverse in Hlast. exact Hlast.
  - rewrite build_other_mode in Hb. injection Hb as <-. done.
Qed.

(** In cross mode, for every bin, the callable is invoked for the bin if
    and only if its subset holds a galaxy.  For such a bin the run has the
    value that the callable returns for the subset, and the column of the
    bin holds what is kept of it; the run consults the callable at no
    other argument, since any callable that agrees with it on these calls
    gives the same run.  The column of a bin with an empty subset is
    zero, and the matrix has one column per bin. *)
Theorem tabulate_cross_calls_iff_nonempty ht calls :
  run = Ok (ht, calls) ->
  mode opts = Cross ->
  exists pct gpct pos,
    join_percentiles gals halos pct = Ok gpct
    /\ position_subsets gals opts (gal_type ht) gpct = Ok pos
    /\ length pos = table_len (gal_type ht)
    /\ wf2 (tpcf_matrix ht)
    /\ bins_of (tpcf_matrix ht) = table_len (gal_type ht)
    /\ (forall i, i < length pos ->
         ((i, i) ∈ calls <-> 0 < subset_len pos i)
         /\ (0 < subset_len pos i ->
             exists xi0 xi, tpcf (cross_call pos i) = Ok xi0
               /\ kept_component tpcf_name xi0 = Ok xi
               /\ stored2 (tpcf_matrix ht) i xi)
         /\ (subset_len pos i = 0 ->
             forall s, s < depth (tpcf_matrix ht) ->
               cell2 (tpcf_matrix ht) s i = Some fzero))
    /\ (forall tpcf' : tpcf_call P -> result (pyval F),
         (forall i, i < length pos -> 0 < subset_len pos i ->
            tpcf' (cross_call pos i) = tpcf (cross_call pos i)) ->
         tabulate_run compute_conditional_percentiles gals tpcf' tpcf_name
           args kwargs halocat opts = Ok (ht, calls)).
Proof.
  intros Hrun Hmode.
  destruct (tabulate_run_inv _ _ _ _ _ _ _ _ _ _ Hrun)
    as (pct & gpct & pos & b & Hpct & _ & Hj & Hpos & Hlen & Hb & Hloc & Hc
        & _).
  rewrite Hmode in Hb.
  destruct (build_cross_calls _ _ _ _ Hb) as [Hinv Hcalls].
  unfold cross_zero_inv in Hinv. rewrite Hloc in Hinv. cbn [fst] in Hinv.
  destruct Hinv as (Hwf & Hn & Hz).
  destruct (build_cross_spec _ _ _ _ Hb) as (_ & _ & Hst).
  rewrite Hloc in Hst. cbn [fst snd] in Hst.
  destruct Hst as (_ & _ & Hst & _).
  exists pct, gpct, pos. split; [done|]. split; [done|]. split; [done|].
  split; [done|]. split; [congruence|]. split.
  - intros i Hi.
    assert ((i, i) ∈ calls <-> 0 < subset_len pos i) as Hmem.
    { rewrite Hc, Hcalls, elem_of_reverse, list_elem_of_filter.
      rewrite elem_of_cross_pairs. unfold nonempty_pair. cbn [fst snd].
      split.
      - intros [Hp _]. nia.
      - intros Hp. split; [nia|done]. }
    split; [done|]. split.
    + intros Hne. apply Hst. rewrite <- Hc. by apply Hmem.
    + intros Hempty s Hs. apply Hz; [done|lia|].
      rewrite <- Hc, Hmem. lia.
  - intros tpcf' Hag.
    apply (tabulate_run_same_build _ _ tpcf tpcf' _ _ _ _ _ ht calls
             pct gpct pos Hrun Hpct Hj Hpos).
    rewrite Hmode. by apply build_cross_ext.
Qed.
End TabulateCalls.

(** ** Galaxy Assignment never fails on a table of the Binning Engine *)

Lemma map_result_total {A B} (f : A -> result B) l :
  (forall x, x ∈ l -> exists y, f x = Ok y) -> exists l', map_result f l = Ok l'.
Proof.
  induction l as [|x l IH]; intros Hf; cbn [map_result]; [eauto|].
  destruct (Hf x) as [y Hy]; [by left|]. rewrite Hy. cbn [bind].
  destruct IH as [l' Hl']; [intros z Hz; apply Hf; by right|].
  rewrite Hl'. cbn [bind]. eauto.
Qed.

Lemma select_sublist {A} (mask : list bool) (a : list A) :
  sublist (select mask a) a.
Proof.
  unfold select. revert a.
  induction mask as [|b mask IH]; intros a; [apply sublist_nil_l|].
  destruct a as [|x a]; [apply sublist_nil_l|].
  change (zip (b :: mask) (x :: a)) with ((b, x) :: zip mask a).
  rewrite bind_cons. cbn [fst snd]. destruct b.
  - apply sublist_skip, IH.
  - apply sublist_cons, IH.
Qed.

Section AssignmentTotal.
Context {F : Type} `{Num F} {P : Type}.
Variable gals : list (galaxy F P).
Variable halocat : halo_catalog F.
Variable opts : tab_options F.

Lemma bin_mask_total (halos : list (halo F)) (pct gpct : list F) t i :
  make_bin_table halocat opts halos pct = Ok t -> i < table_len t ->
  exists mask, bin_mask gals opts t gpct i = Ok mask.
Proof.
  intros Ht Hi.
  destruct (make_bin_table_spec _ _ _ _ _ Ht)
    as (counts & edges & X & Hh & HlX & _ & Hn & Hsec & Hgt & Hmin & Hmax & _).
  destruct (histogram_Ok _ _ _ _ Hh) as (Hb & Hle & _ & _).
  unfold table_len in Hi. rewrite Hn in Hi. unfold density in Hi.
  rewrite length_map, length_app, HlX in Hi.
  unfold bin_mask.
  destruct (lookup_lt_is_Some_2 (col_log_prim_haloprop_min t) i) as [lo ->].
  { rewrite Hmin, length_app, !length_tile, length_removelast, Hle. lia. }
  destruct (lookup_lt_is_Some_2 (col_log_prim_haloprop_max t) i) as [hi ->].
  { rewrite Hmax, length_app, !length_tile, length_tail_pred, Hle. lia. }
  destruct (lookup_lt_is_Some_2 (col_gal_type t) i) as [gt ->].
  { rewrite Hgt, length_app, !length_replicate. lia. }
  cbn [from_option bind]. rewrite Hsec.
  destruct (sec_haloprop opts); [|eauto].
  cbn [from_option bind].
  destruct (lookup_lt_is_Some_2
              (repeat_each [0; 1] (prim_haloprop_bins opts)
               ++ repeat_each [0; 1] (prim_haloprop_bins opts)) i) as [s ->].
  { rewrite length_app, !length_repeat_each. cbn [length]. lia. }
  cbn [from_option bind]. case_decide; eauto.
Qed.

(** On a table that the Binning Engine returned, Galaxy Assignment
    raises no error: it gives one subset per row of the table, each a
    subsequence of the positions of the galaxies. *)
Theorem position_subsets_never_fails (halos : list (halo F))
    (pct gpct : list F) t :
  make_bin_table halocat opts halos pct = Ok t ->
  exists pos, position_subsets gals opts t gpct = Ok pos
    /\ length pos = table_len t
    /\ forall p, p ∈ pos -> sublist p (map g_pos gals).
Proof.
  intros Ht.
  destruct (map_result_total
              (fun i => mask <- bin_mask gals opts t gpct i ;;
                        Ok (select mask (map g_pos gals)))
              (range 0 (table_len t))) as [pos Hpos].
  { intros i Hi. apply elem_of_range in Hi.
    destruct (bin_mask_total _ _ gpct _ i Ht) as [mask ->]; [lia|].
    cbn [bind]. eauto. }
  exists pos. split; [done|]. split.
  - apply map_result_length in Hpos. rewrite Hpos. unfold range.
    rewrite length_seq. lia.
  - intros p Hp. apply list_elem_of_lookup in Hp as [i Hi].
    destruct (position_subsets_lookup gals opts t gpct pos i Hpos)
      as (mask & _ & Hlook).
    { apply map_result_length in Hpos. unfold range in Hpos.
      rewrite length_seq in Hpos. apply lookup_lt_Some in Hi. lia. }
    rewrite Hi in Hlook. injection Hlook as ->. apply select_sublist.
Qed.
End AssignmentTotal.

(** ** Runs of [tabulate] that never call the callable *)

Lemma for_each_fixed {St X} (body : X -> St -> result St) xs s :
  (forall x, x ∈ xs -> body x s = Ok s) -> for_each body xs s = Ok s.
Proof.
  induction xs as [|x xs IH]; intros Hb; cbn [for_each]; [done|].
  rewrite Hb by (by left). cbn [bind]. apply IH.
  intros y Hy. apply Hb. by right.
Qed.

Section NoCall.
Context {F : Type} `{Num F} {P : Type}.
Variable tpcf : tpcf_call P -> result (pyval F).
Variable tpcf_name : string.
Variable pos : list (list P).

Lemma pos_at_lt i : i < length pos ->
  pos_at pos i = Ok (default [] (pos !! i)).
Proof.
  intros Hi. unfold pos_at.
  destruct (lookup_lt_is_Some_2 pos i Hi) as [p ->]. done.
Qed.

(** When no subset holds a galaxy the loops leave the builder as it
    was, in any mode. *)
Lemma build_all_empty mode :
  (forall i, subset_len pos i = 0) ->
  build tpcf tpcf_name pos mode = Ok (builder_init (F:=F)).
Proof.
  intros Hempty. unfold build. apply for_each_fixed.
  intros i Hi%elem_of_range. unfold n_bins in Hi.
  destruct mode as [| |name]; cbn [row_body]; [| |done].
  - apply for_each_fixed. intros k Hk%elem_of_range. unfold n_bins in Hk.
    unfold auto_body. rewrite !pos_at_lt by lia. cbn [bind].
    rewrite decide_False; [done|].
    specialize (Hempty i). unfold subset_len in Hempty. rewrite Hempty. lia.
  - unfold cross_body. rewrite pos_at_lt by lia. cbn [bind].
    rewrite decide_False; [done|].
    specialize (Hempty i). unfold subset_len in Hempty. lia.
Qed.
End NoCall.

Section TabulateNoCall.
Context {F : Type} `{Num F} {P : Type}.
Variable compute_conditional_percentiles : list (halo F) -> list F.
Variable gals : list (galaxy F P).
Variable tpcf : tpcf_call P -> result (pyval F).
Variable tpcf_name : string.
Variable args : list (pyobj F).
Variable kwargs : gmap string (pyobj F).
Variable halocat : halo_catalog F.
Variable opts : tab_options F.

Local Abbreviation halos := (qualifying_halos halocat opts).

(** When the first four stages succeed but no subset holds a galaxy, or
    the mode is neither ['auto'] nor ['cross'], the callable is never
    invoked, the local [tpcf_shape] is never bound, and [tabulate] ends
    in an [UnboundLocalError]. *)
Theorem tabulate_without_call_unbound pct t gpct pos :
  percentiles compute_conditional_percentiles halos = Ok pct ->
  make_bin_table halocat opts halos pct = Ok t ->
  join_percentiles gals halos pct = Ok gpct ->
  position_subsets gals opts t gpct = Ok pos ->
  (forall i, subset_len pos i = 0)
  \/ (exists name, mode opts = OtherMode name) ->
  tabulate compute_conditional_percentiles gals tpcf tpcf_name
    args kwargs halocat opts = Raise UnboundLocalError.
Proof.
  intros Hpct Ht Hj Hpos Hcase.
  unfold tabulate, tabulate_run. rewrite Hpct. cbn [bind].
  rewrite Ht. cbn [bind]. rewrite Hj. cbn [bind]. rewrite Hpos. cbn [bind].
  destruct Hcase as [Hempty|[name ->]].
  - rewrite build_all_empty by done. done.
  - rewrite build_other_mode. done.
Qed.

End TabulateNoCall.

(** ** From [tabulate] to [predict] in cross mode, and a table without bins *)

Section TabulatedCross.
Context {F : Type} `{Num F} {P : Type}.
Variable compute_conditional_percentiles : list (halo F) -> list F.
Variable gals : list (galaxy F P).
Variable tpcf : tpcf_call P -> result (pyval F).
Variable tpcf_name : string.
Variable args : list (pyobj F).
Variable kwargs : gmap string (pyobj F).
Variable halocat : halo_catalog F.
Variable opts : tab_options F.

Local Abbreviation halos := (qualifying_halos halocat opts).

(** In cross mode, for a callable that is not named [delta_sigma] and
    returns arrays with as many elements as their shape says, the object
    that [tabulate] returns meets what [predict] needs: the prediction is
    the density-weighted mean of the stored columns. *)
Theorem predict_after_tabulate_cross (model : hod_model F) ht :
  tabulate compute_conditional_percentiles gals tpcf tpcf_name
    args kwargs halocat opts = Ok ht ->
  mode opts = Cross ->
  tpcf_name <> "delta_sigma" ->
  (forall c a, tpcf c = Ok (PArr a) -> prod_list (shape a) = length (ravel a)) ->
  (forall xs secs,
     length (mean_occupation_centrals model xs secs) = length xs) ->
  (forall xs secs,
     length (mean_occupation_satellites model xs secs) = length xs) ->
  predict ht model
  = Ok (bin_density model (sec_haloprop opts) (gal_type ht),
        mk_ndarray (tpcf_shape ht)
          (cross_statistic (tpcf_matrix ht)
             (bin_density model (sec_haloprop opts) (gal_type ht)))).
Proof.
  intros Hrun Hmode Hname Hshape Hcen Hsat.
  destruct (tabulate_Ok _ _ _ _ _ _ _ _ _ Hrun) as [calls Hrun'].
  destruct (tabulate_run_inv _ _ _ _ _ _ _ _ _ _ Hrun')
    as (pct & gpct & pos & b & _ & Ht & _ & _ & Hlen & Hb & Hloc & _
        & Hattrs & _).
  rewrite Hmode in Hb.
  destruct (bin_table_columns _ _ _ _ _ Ht) as (Hgt & Hprim & Hsec).
  destruct (build_cross_spec _ _ _ _ Hb) as (_ & _ & Hst).
  rewrite Hloc in Hst. cbn [fst snd] in Hst.
  destruct Hst as (Hwf & Hn & _ & i0 & xi0 & xi & _ & Hxi0 & Hk
                   & Hsh & v & Hv & Hlv).
  apply kept_component_cases in Hk as [_ Hk]. specialize (Hk Hname). subst xi.
  apply predict_cross_from_density.
  - apply galaxy_density_spec; try done.
    rewrite Hattrs. apply make_attrs_sec_haloprop.
  - by apply length_bin_density.
  - rewrite Hattrs, make_attrs_mode, Hmode. done.
  - done.
  - congruence.
  - destruct xi0 as [a|]; [|done]. cbn in Hsh, Hv.
    injection Hsh as <-. injection Hv as <-.
    rewrite <- Hlv. by eapply Hshape.
Qed.

(** With [prim_haloprop_bins = 0] the first call of [np.histogram]
    raises: [tabulate] ends in a [ValueError] before the mock is built
    (on a table without qualifying halos the percentiles already have
    raised it). *)
Theorem tabulate_zero_bins_error :
  length (compute_conditional_percentiles halos) = length halos ->
  prim_haloprop_bins opts = 0 ->
  tabulate compute_conditional_percentiles gals tpcf tpcf_name
    args kwargs halocat opts = Raise ValueError.
Proof.
  intros Hlen Hbins. unfold tabulate, tabulate_run, percentiles.
  destruct halos as [|h hs] eqn:Hh; [done|]. rewrite <- Hh in *.
  rewrite column_same by done. cbn [bind].
  unfold make_bin_table, histogram. rewrite decide_True by done. done.
Qed.
End TabulatedCross.

(** ** What the join gives every galaxy *)

Section JoinContents.
Context {F : Type} `{Num F} {P : Type}.

Lemma index_of_None z (y : list Z) : index_of z y = None <-> z ∉ y.
Proof.
  induction y as [|w y IH]; cbn [index_of].
  - split; [intros _; apply not_elem_of_nil|done].
  - rewrite not_elem_of_cons. case_decide as Hw.
    + split; [done|]. intros [Hn _]. by destruct Hn.
    + rewrite <- IH. destruct (index_of z y); cbn.
      * split; [done|]. intros [_ ?]. done.
      * split; [|done]. intros _. split; [congruence|done].
Qed.

(** The pairs of [crossmatch], entry by entry of [x], with the indices
    of [x] counted from [k]. *)
Lemma matched_pairs_spec (y : list Z) (x : list Z) k :
  let pairs := zip (seq k (length x)) x ≫=
                 (fun p : nat * Z => match index_of p.2 y with
                                     | Some b => [(p.1, b)]
                                     | None => []
                                     end) in
  (forall a, a ∈ pairs.*1 -> k <= a < k + length x)
  /\ NoDup pairs.*1
  /\ forall g z, x !! g = Some z ->
       match index_of z y with
       | Some b => exists j, pairs.*1 !! j = Some (k + g)
                             /\ pairs.*2 !! j = Some b
       | None => k + g ∉ pairs.*1
       end.
Proof.
  revert k. induction x as [|z0 x IH]; intros k; cbn zeta.
  - split; [intros a Ha; by apply not_elem_of_nil in Ha|].
    split; [constructor|]. intros g z Hg. done.
  - cbn [length seq]. change (zip (k :: seq (S k) (length x)) (z0 :: x))
      with ((k, z0) :: zip (seq (S k) (length x)) x).
    rewrite bind_cons. cbn [fst snd].
    destruct (IH (S k)) as (Hb & Hnd & Hall). cbn zeta in Hb, Hnd, Hall.
    set (rest := zip (seq (S k) (length x)) x ≫= _) in *.
    destruct (index_of z0 y) as [b0|] eqn:Hz0.
    + cbn [app fmap list_fmap fst snd]. split; [|split].
      * intros a [->|Ha]%elem_of_cons; [lia|]. apply Hb in Ha. lia.
      * constructor; [|done]. intros Hin. apply Hb in Hin. lia.
      * intros [|g] z Hg; cbn in Hg.
        -- injection Hg as <-. rewrite Hz0. exists 0.
           rewrite Nat.add_0_r. done.
        -- specialize (Hall g z Hg).
           replace (k + S g) with (S k + g) by lia.
           destruct (index_of z y) as [b|].
           ++ destruct Hall as (j & Hj1 & Hj2). exists (S j). done.
           ++ rewrite not_elem_of_cons. split; [lia|done].
    + cbn [app]. split; [|split; [done|]].
      * intros a Ha. apply Hb in Ha. lia.
      * intros [|g] z Hg; cbn in Hg.
        -- injection Hg as <-. rewrite Hz0. rewrite Nat.add_0_r.
           intros Hin. apply Hb in Hin. lia.
        -- specialize (Hall g z Hg).
           replace (k + S g) with (S k + g) by lia. done.
Qed.

(** [crossmatch] pairs every entry of [x] that occurs in [y] with its
    index in [y], once, and leaves the other entries out. *)
Lemma crossmatch_complete (x y : list Z) ia ib :
  crossmatch x y = Ok (ia, ib) ->
  NoDup y /\ NoDup ia /\ length ia = length ib
  /\ forall g z, x !! g = Some z ->
       match index_of z y with
       | Some b => exists j, ia !! j = Some g /\ ib !! j = Some b
       | None => g ∉ ia
       end.
Proof.
  unfold crossmatch. case_decide as Hy; [|done]. intros [= <- <-].
  destruct (matched_pairs_spec y x 0) as (_ & Hnd & Hall).
  cbn zeta in Hnd, Hall.
  split; [done|]. split; [done|]. split; [by rewrite !length_fmap|].
  exact Hall.
Qed.

(** [a[idx] = vals] with indices that do not repeat. *)
Lemma put_at_lookup {A} (idx : list nat) (vals a a' : list A) :
  NoDup idx -> put_at a idx vals = Ok a' ->
  (forall j i v, idx !! j = Some i -> vals !! j = Some v -> a' !! i = Some v)
  /\ (forall i, i ∉ idx -> a' !! i = a !! i).
Proof.
  revert vals a. induction idx as [|i0 idx IH]; intros [|v0 vals] a Hnd;
    cbn [put_at]; try done.
  - intros [= <-]. split; [intros j i v Hj; done|done].
  - apply NoDup_cons in Hnd as [Hni Hnd].
    case_decide as Hi0; [|done]. intros Hrun.
    destruct (IH _ _ Hnd Hrun) as [Hin Hout]. split.
    + intros [|j] i v Hj Hv; cbn in Hj, Hv.
      * injection Hj as <-. injection Hv as <-.
        rewrite (Hout i0 Hni). by apply list_lookup_insert_eq.
      * eapply Hin; eauto.
    + intros i [Hne Hni']%not_elem_of_cons.
      rewrite (Hout i Hni'). by apply list_lookup_insert_ne.
Qed.

Lemma take_at_lookup {A} (a : list A) idx vals j i :
  take_at a idx = Ok vals -> idx !! j = Some i ->
  exists v, a !! i = Some v /\ vals !! j = Some v.
Proof.
  unfold take_at. intros Ht%from_option_Ok Hj. apply mapM_Some in Ht.
  destruct (Forall2_lookup_l _ _ _ _ _ Ht Hj) as (v & Hv & Ha). eauto.
Qed.

(** The join: the halo ids of the qualifying halos do not repeat; a
    galaxy whose halo is in the table gets the percentile of that halo;
    a galaxy whose halo is not in the table keeps the initial zero. *)
Theorem join_percentiles_spec (gals : list (galaxy F P))
    (halos : list (halo F)) (pct gpct : list F) :
  join_percentiles gals halos pct = Ok gpct ->
  NoDup (map halo_id halos)
  /\ length gpct = length gals
  /\ forall g gal, gals !! g = Some gal ->
       (forall h hl, halos !! h = Some hl ->
          halo_id hl = g_halo_id gal ->
          is_Some (pct !! h) /\ gpct !! g = pct !! h)
       /\ ((forall hl, hl ∈ halos -> halo_id hl <> g_halo_id gal) ->
           gpct !! g = Some fzero).
Proof.
  intros Hrun. pose proof (join_percentiles_length _ _ _ _ Hrun) as Hlen.
  unfold join_percentiles in Hrun.
  inv_bind Hrun. destruct a as [ia ib]. rename Ha into Hc.
  inv_bind Hrun. rename a into gi, Ha into Hgi.
  inv_bind Hrun. rename a into hi, Ha into Hhi.
  case_decide as Heq; [|done].
  inv_bind Hrun. rename a into vals, Ha into Hvals.
  cbn [fst snd] in *.
  destruct (crossmatch_complete _ _ _ _ Hc) as (Hy & Hnd & Hl & Hall).
  destruct (put_at_lookup _ _ _ _ Hnd Hrun) as [Hin Hout].
  split; [done|]. split; [done|].
  intros g gal Hg.
  specialize (Hall g (g_halo_id gal)).
  rewrite list_lookup_fmap, Hg in Hall. specialize (Hall eq_refl).
  split.
  - intros h hl Hh Hid.
    assert (map halo_id halos !! h = Some (g_halo_id gal)) as Hh'.
    { rewrite list_lookup_fmap, Hh. cbn. by rewrite Hid. }
    destruct (index_of (g_halo_id gal) (map halo_id halos)) as [b|] eqn:Hb.
    + destruct Hall as (j & Hj1 & Hj2).
      pose proof (index_of_Some _ _ _ Hb) as Hb'.
      assert (b = h) as -> by exact (NoDup_lookup _ _ _ _ Hy Hb' Hh').
      destruct (take_at_lookup _ _ _ _ _ Hvals Hj2) as (v & Hv & Hvj).
      rewrite Hv. split; [eauto|]. eapply Hin; eauto.
    + apply index_of_None in Hb. exfalso. apply Hb.
      eapply list_elem_of_lookup_2; eauto.
  - intros Hnone.
    destruct (index_of (g_halo_id gal) (map halo_id halos)) as [b|] eqn:Hb.
    + apply index_of_Some in Hb. rewrite list_lookup_fmap in Hb.
      destruct (halos !! b) as [hl|] eqn:Hhl; [|done]. cbn in Hb.
      injection Hb as Hb. exfalso. apply (Hnone hl); [|done].
      eapply list_elem_of_lookup_2; eauto.
    + rewrite (Hout g Hall). apply lookup_replicate_2.
      eapply lookup_lt_Some; eauto.
Qed.
End JoinContents.

(** ** Reading back any number of positional arguments *)

Section ReadAnyArguments.
Context {F : Type}.

(** The values of a group come back as a rearrangement of what was
    stored under distinct names. *)
Lemma member_values_permutation (ps : list (string * pyobj F)) :
  NoDup ps.*1 ->
  exists l, member_values (list_to_map ps) = Ok l /\ l ≡ₚ ps.*2.
Proof.
  intros Hnd. set (g := list_to_map ps : gmap string (pyobj F)).
  set (val := fun k => default (OBool false) (g !! k)).
  assert (forall p, p ∈ ps -> g !! p.1 = Some p.2) as Hg.
  { intros [k v] Hin. by apply elem_of_list_to_map_1. }
  assert (keys g ≡ₚ ps.*1) as Hkeys.
  { unfold keys. rewrite merge_sort_Permutation.
    change (map fst (map_to_list g)) with ((map_to_list g).*1).
    unfold g. by rewrite map_to_list_to_map. }
  exists (map val (keys g)). split.
  - unfold member_values. apply map_result_pure.
    intros k Hk. rewrite Hkeys in Hk.
    apply list_elem_of_fmap in Hk as (p & -> & Hp).
    unfold val. by rewrite (Hg p Hp).
  - change (map val (keys g)) with (val <$> keys g). rewrite Hkeys.
    rewrite <- list_fmap_compose.
    assert (val ∘ fst <$> ps = ps.*2) as ->; [|done].
    apply list_fmap_ext. intros i p Hp. unfold val. cbn.
    rewrite (Hg p); [done|]. eapply list_elem_of_lookup_2; eauto.
Qed.

Lemma named_args_snd (args : list (pyobj F)) : (named_args args).*2 = args.
Proof.
  unfold named_args. apply list_eq. intros i.
  rewrite list_lookup_fmap, list_lookup_imap.
  by destruct (args !! i).
Qed.

(** Writing an object with the nine attributes and at least one
    positional argument to a fresh name and reading the file back
    restores every field; the positional arguments come back as a
    rearrangement of the ones written, however many they are. *)
Theorem write_read_arguments_permuted (self : TabCorr F) fname
    (fs : store F) :
  fs !! fname = None ->
  dom (attrs self) = list_to_set attr_keys ->
  tpcf_args self <> [] ->
  exists fs' ht,
    write self fname fs = (Ok tt, fs')
    /\ read fname fs' = Ok ht
    /\ tpcf_args ht ≡ₚ tpcf_args self
    /\ gal_type ht = gal_type self /\ attrs ht = attrs self
    /\ tpcf_kwargs ht = tpcf_kwargs self
    /\ tpcf_shape ht = tpcf_shape self
    /\ tpcf_matrix ht = tpcf_matrix self
    /\ init ht = true.
Proof.
  intros Hnew Hdom Hargs.
  destruct (member_values_permutation (named_args (tpcf_args self))
              (named_args_NoDup _)) as (l & Hl & Hperm).
  rewrite named_args_snd in Hperm.
  exists (<[fname := written self]> fs),
    (mk_TabCorr true (gal_type self) (attrs self) l (tpcf_kwargs self)
       (tpcf_shape self) (tpcf_matrix self)).
  split; [apply write_as_file; [done|]; by apply write_file_spec|].
  split; [|done].
  unfold read. rewrite lookup_insert_eq.
  cbn [from_option bind]. unfold dataset_value, written.
  cbn [f_attrs f_root].
  rewrite !lookup_insert_ne by done.
  rewrite (with_kwargs_lookup _ _ "tpcf_matrix") by done.
  rewrite lookup_insert_ne by done. rewrite lookup_insert_eq.
  cbn [from_option bind].
  rewrite (with_kwargs_lookup _ _ "tpcf_args") by done.
  rewrite lookup_insert_eq. cbn [from_option bind].
  rewrite Hl. cbn [bind].
  rewrite with_kwargs_group by done. cbn [bind].
  rewrite lookup_insert_eq. cbn [from_option bind].
  rewrite lookup_insert_eq. cbn [from_option bind]. done.
Qed.
End ReadAnyArguments.

(** ** The further statements on the catalogue [Demo] *)

Lemma predict_cross_statistic_witness :
  exists self,
    Demo.tabulated Cross [] = Ok self
    /\ predict self Demo.model
       = Ok ([1; 2; 1; 2]%Z, mk_ndarray [2] [1; 0]%Z).
Proof.
  destruct (Demo.tabulated Cross []) as [self|e] eqn:Hrun;
    [|vm_compute in Hrun; discriminate].
  exists self. split; [reflexivity|].
  vm_compute in Hrun. injection Hrun as <-.
  rewrite (predict_cross_statistic _ Demo.model false).
  - vm_compute. reflexivity.
  - vm_compute. reflexivity.
  - discriminate.
  - reflexivity.
  - reflexivity.
  - intros xs secs. simpl. by rewrite length_map.
  - intros xs secs. simpl. by rewrite length_map.
  - vm_compute. reflexivity.
  - simpl. solve_Forall.
  - reflexivity.
  - reflexivity.
Defined.

Lemma predict_mode_errors_witness :
  exists self,
    Demo.tabulated Auto [] = Ok self
    /\ predict (Demo.with_attrs (delete "mode") self) Demo.model
       = Raise KeyError
    /\ predict (Demo.with_attrs (insert "mode" (OStr "both")) self)
         Demo.model = Raise UnboundLocalError.
Proof.
  destruct (Demo.tabulated Auto []) as [self|e] eqn:Hrun;
    [|vm_compute in Hrun; discriminate].
  exists self. split; [reflexivity|].
  vm_compute in Hrun. injection Hrun as <-.
  split.
  - refine (proj1 (predict_mode_errors _ Demo.model false _ _ _ _ _ _) _).
    + vm_compute. reflexivity.
    + discriminate.
    + reflexivity.
    + reflexivity.
    + intros xs secs. simpl. by rewrite length_map.
    + intros xs secs. simpl. by rewrite length_map.
    + vm_compute. reflexivity.
  - refine (proj2 (predict_mode_errors _ Demo.model false _ _ _ _ _ _)
              (OStr "both") _ _ _).
    + vm_compute. reflexivity.
    + discriminate.
    + reflexivity.
    + reflexivity.
    + intros xs secs. simpl. by rewrite length_map.
    + intros xs secs. simpl. by rewrite length_map.
    + vm_compute. reflexivity.
    + reflexivity.
    + reflexivity.
Defined.

Lemma predict_evaluator_length_error_witness :
  exists self,
    Demo.tabulated Auto [] = Ok self
    /\ predict self Demo.model_three = Raise ValueError.
Proof.
  destruct (Demo.tabulated Auto []) as [self|e] eqn:Hrun;
    [|vm_compute in Hrun; discriminate].
  exists self. split; [reflexivity|].
  vm_compute in Hrun. injection Hrun as <-.
  apply (predict_evaluator_length_error _ Demo.model_three false).
  - vm_compute. reflexivity.
  - discriminate.
  - reflexivity.
  - vm_compute. lia.
  - vm_compute. lia.
Defined.


Lemma predict_after_tabulate_witness :
  exists ht,
    Demo.tabulated Auto [] = Ok ht
    /\ predict ht Demo.model
       = Ok ([1; 2; 1; 2]%Z, mk_ndarray [2] [0; 0]%Z).
Proof.
  destruct (Demo.tabulated Auto []) as [ht|e] eqn:Hrun;
    [|vm_compute in Hrun; discriminate].
  exists ht. split; [reflexivity|].
  rewrite (predict_after_tabulate Demo.ccp Demo.gals Demo.tpcf "tpcf" [] ∅
             Demo.halocat (Demo.opts Auto) Demo.model ht Hrun).
  - vm_compute in Hrun. injection Hrun as <-. vm_compute. reflexivity.
  - reflexivity.
  - intros c a [= <-]. reflexivity.
  - intros xs secs. simpl. by rewrite length_map.
  - intros xs secs. simpl. by rewrite length_map.
Defined.

Lemma predict_after_tabulate_cross_witness :
  exists ht,
    Demo.tabulated Cross [] = Ok ht
    /\ predict ht Demo.model
       = Ok ([1; 2; 1; 2]%Z, mk_ndarray [2] [1; 0]%Z).
Proof.
  destruct (Demo.tabulated Cross []) as [ht|e] eqn:Hrun;
    [|vm_compute in Hrun; discriminate].
  exists ht. split; [reflexivity|].
  rewrite (predict_after_tabulate_cross Demo.ccp Demo.gals Demo.tpcf "tpcf"
             [] ∅ Demo.halocat (Demo.opts Cross) Demo.model ht Hrun).
  - vm_compute in Hrun. injection Hrun as <-. vm_compute. reflexivity.
  - reflexivity.
  - discriminate.
  - intros c a [= <-]. reflexivity.
  - intros xs secs. simpl. by rewrite length_map.
  - intros xs secs. simpl. by rewrite length_map.
Defined.

Lemma tabulate_calls_in_order_witness :
  exists ht calls,
    Demo.run Auto = Ok (ht, calls)
    /\ NoDup calls
    /\ reverse calls = [(0, 0); (0, 1); (0, 3); (1, 1); (1, 3); (3, 3)]
    /\ exists pos,
         (forall i j, (i, j) ∈ calls ->
            exists xi, Demo.tpcf (auto_call pos i j) = Ok xi
                       /\ stored3 (tpcf_matrix ht) i j xi)
         /\ exists xi, Demo.tpcf (auto_call pos 0 0) = Ok xi
              /\ recorded (tpcf_matrix ht) (tpcf_shape ht) xi.
Proof.
  destruct (Demo.run Auto) as [[ht calls]|e] eqn:Hrun;
    [|vm_compute in Hrun; discriminate].
  exists ht, calls. split; [reflexivity|].
  destruct (tabulate_calls_in_order Demo.ccp Demo.gals Demo.tpcf "tpcf"
              [] ∅ Demo.halocat (Demo.opts Auto) ht calls Hrun)
    as (pct & gpct & pos & _ & _ & Hnd & Hauto & _).
  destruct (Hauto eq_refl)
    as (Hcalls & Hst & i0 & j0 & xi & Hhead & Hxi & Hrec).
  split; [exact Hnd|].
  vm_compute in Hrun. injection Hrun as <- <-.
  split; [reflexivity|]. exists pos. split; [exact Hst|].
  rewrite <- Hcalls in Hhead. injection Hhead as <- <-.
  exists xi. split; [exact Hxi|exact Hrec].
Defined.

Lemma tabulate_cross_calls_iff_nonempty_witness :
  exists ht calls,
    Demo.run Cross = Ok (ht, calls)
    /\ exists pct gpct pos,
         join_percentiles Demo.gals
           (qualifying_halos Demo.halocat (Demo.opts Cross)) pct = Ok gpct
         /\ position_subsets Demo.gals (Demo.opts Cross) (gal_type ht) gpct
            = Ok pos
         /\ length pos = table_len (gal_type ht)
         /\ wf2 (tpcf_matrix ht)
         /\ bins_of (tpcf_matrix ht) = table_len (gal_type ht)
         /\ (forall i, i < length pos ->
              ((i, i) ∈ calls <-> 0 < subset_len pos i)
              /\ (0 < subset_len pos i ->
                  exists xi0 xi, Demo.tpcf (cross_call pos i) = Ok xi0
                    /\ kept_component "tpcf" xi0 = Ok xi
                    /\ stored2 (tpcf_matrix ht) i xi)
              /\ (subset_len pos i = 0 ->
                  forall s, s < depth (tpcf_matrix ht) ->
                    cell2 (tpcf_matrix ht) s i = Some fzero))
         /\ (forall tpcf' : tpcf_call Z -> result (pyval Z),
              (forall i, i < length pos -> 0 < subset_len pos i ->
                 tpcf' (cross_call pos i) = Demo.tpcf (cross_call pos i)) ->
              tabulate_run Demo.ccp Demo.gals tpcf' "tpcf" [] ∅ Demo.halocat
                (Demo.opts Cross) = Ok (ht, calls)).
Proof.
  eexists. eexists. split; [vm_compute; reflexivity|].
  apply (tabulate_cross_calls_iff_nonempty Demo.ccp Demo.gals Demo.tpcf
           "tpcf" [] ∅ Demo.halocat (Demo.opts Cross));
    [vm_compute; reflexivity|reflexivity].
Defined.

Lemma tabulate_without_call_unbound_witness :
  tabulate Demo.ccp [] Demo.tpcf "tpcf" [] ∅ Demo.halocat (Demo.opts Cross)
  = Raise UnboundLocalError.
Proof.
  eapply (tabulate_without_call_unbound Demo.ccp [] Demo.tpcf "tpcf" [] ∅
            Demo.halocat (Demo.opts Cross)).
  - vm_compute. reflexivity.
  - vm_compute. reflexivity.
  - vm_compute. reflexivity.
  - vm_compute. reflexivity.
  - left. intros i. do 4 (destruct i as [|i]; [reflexivity|]). reflexivity.
Defined.


Lemma tabulate_zero_bins_error_witness :
  tabulate Demo.ccp Demo.gals Demo.tpcf "tpcf" [] ∅ Demo.halocat
    Demo.opts_no_bins = Raise ValueError.
Proof.
  apply (tabulate_zero_bins_error Demo.ccp Demo.gals Demo.tpcf "tpcf" [] ∅
           Demo.halocat Demo.opts_no_bins).
  - reflexivity.
  - reflexivity.
Defined.

Lemma position_subsets_never_fails_witness :
  exists t pos,
    make_bin_table Demo.halocat (Demo.opts Auto)
      (qualifying_halos Demo.halocat (Demo.opts Auto)) [10; 20; 30]%Z = Ok t
    /\ position_subsets Demo.gals (Demo.opts Auto) t [10; 20; 30; 30; 30]%Z
       = Ok pos
    /\ length pos = 4.
Proof.
  destruct (make_bin_table Demo.halocat (Demo.opts Auto)
              (qualifying_halos Demo.halocat (Demo.opts Auto))
              [10; 20; 30]%Z) as [t|e] eqn:Ht;
    [|vm_compute in Ht; discriminate].
  destruct (position_subsets_never_fails Demo.gals Demo.halocat
              (Demo.opts Auto) _ _ [10; 20; 30; 30; 30]%Z t Ht)
    as (pos & Hpos & Hlen & _).
  exists t, pos. split; [reflexivity|]. split; [exact Hpos|].
  rewrite Hlen. vm_compute in Ht. injection Ht as <-. reflexivity.
Defined.

Lemma join_percentiles_spec_witness :
  exists gpct,
    join_percentiles Demo.gals_orphan
      (qualifying_halos Demo.halocat (Demo.opts Auto)) [10; 20; 30]%Z
    = Ok gpct
    /\ NoDup (map halo_id (qualifying_halos Demo.halocat (Demo.opts Auto)))
    /\ length gpct = 6
    /\ gpct !! 1 = Some 20%Z
    /\ gpct !! 5 = Some 0%Z.
Proof.
  destruct (join_percentiles Demo.gals_orphan
              (qualifying_halos Demo.halocat (Demo.opts Auto))
              [10; 20; 30]%Z) as [gpct|e] eqn:Hj;
    [|vm_compute in Hj; discriminate].
  exists gpct. split; [reflexivity|].
  destruct (join_percentiles_spec _ _ _ _ Hj) as (Hnd & Hlen & Hall).
  split; [exact Hnd|]. split; [exact Hlen|]. split.
  - destruct (Hall 1 (mk_galaxy 2 1000 "centrals" 12)%Z eq_refl) as [Hm _].
    destruct (Hm 1 (mk_halo 2 (-1) 1000)%Z eq_refl eq_refl) as [_ ->].
    reflexivity.
  - destruct (Hall 5 (mk_galaxy 9 1000 "centrals" 16)%Z eq_refl) as [_ Hn].
    apply Hn. intros hl Hin. vm_compute in Hin.
    repeat (apply elem_of_cons in Hin as [->|Hin]; [discriminate|]).
    by apply not_elem_of_nil in Hin.
Defined.

Lemma write_keeps_other_files_witness :
  exists ht,
    Demo.tabulated Auto [] = Ok ht
    /\ (write ht "halotab.hdf5" {["other.hdf5" := empty_file]}).2
         !! "other.hdf5" = Some empty_file.
Proof.
  destruct (Demo.tabulated Auto []) as [ht|e] eqn:Hrun;
    [|vm_compute in Hrun; discriminate].
  exists ht. split; [reflexivity|].
  rewrite (write_keeps_other_files ht "halotab.hdf5"
             {["other.hdf5" := empty_file]} "other.hdf5").
  - apply lookup_singleton_eq.
  - discriminate.
Defined.

Lemma write_missing_attribute_leaves_file_witness :
  exists ht file,
    Demo.tabulated Auto [] = Ok ht
    /\ write (Demo.with_attrs (delete "redshift") ht) "halotab.hdf5" ∅
       = (Raise KeyError, <["halotab.hdf5" := file]> ∅)
    /\ f_root file = ∅.
Proof.
  destruct (Demo.tabulated Auto []) as [ht|e] eqn:Hrun;
    [|vm_compute in Hrun; discriminate].
  destruct (write_missing_attribute_leaves_file
              (Demo.with_attrs (delete "redshift") ht) "halotab.hdf5" ∅
              "redshift") as (file & Hw & Hroot).
  - apply lookup_empty.
  - unfold attr_keys. do 3 right. left.
  - apply lookup_delete_eq.
  - exists ht, file. split; [reflexivity|]. split; [exact Hw|exact Hroot].
Defined.

Lemma write_read_round_trip_witness :
  exists ht fs,
    Demo.tabulated Auto [OInt 7] = Ok ht
    /\ write ht "halotab.hdf5" ∅ = (Ok tt, fs)
    /\ read "halotab.hdf5" fs = Ok ht.
Proof.
  destruct (Demo.tabulated Auto [OInt 7]) as [ht|e] eqn:Hrun;
    [|vm_compute in Hrun; discriminate].
  destruct (write_read_round_trip ht "halotab.hdf5" ∅) as (fs & Hw & Hr).
  - apply lookup_empty.
  - vm_compute in Hrun. injection Hrun as <-.
    apply (make_attrs_dom "tpcf" Demo.halocat (Demo.opts Auto)).
  - vm_compute in Hrun. injection Hrun as <-. simpl. lia.
  - vm_compute in Hrun. injection Hrun as <-. reflexivity.
  - exists ht, fs. split; [reflexivity|]. split; [exact Hw|exact Hr].
Defined.

Lemma write_read_arguments_permuted_witness :
  exists ht fs ht',
    Demo.tabulated Auto Demo.eleven_args = Ok ht
    /\ write ht "halotab.hdf5" ∅ = (Ok tt, fs)
    /\ read "halotab.hdf5" fs = Ok ht'
    /\ tpcf_args ht' ≡ₚ tpcf_args ht
    /\ tpcf_matrix ht' = tpcf_matrix ht.
Proof.
  destruct (Demo.tabulated Auto Demo.eleven_args) as [ht|e] eqn:Hrun;
    [|vm_compute in Hrun; discriminate].
  destruct (write_read_arguments_permuted ht "halotab.hdf5" ∅)
    as (fs & ht' & Hw & Hr & Hp & _ & _ & _ & _ & Hm & _).
  - apply lookup_empty.
  - vm_compute in Hrun. injection Hrun as <-.
    apply (make_attrs_dom "tpcf" Demo.halocat (Demo.opts Auto)).
  - vm_compute in Hrun. injection Hrun as <-. discriminate.
  - exists ht, fs, ht'. split; [reflexivity|]. repeat (split; [assumption|]).
    exact Hm.
Defined.

Lemma write_read_no_args_witness :
  exists ht fs,
    Demo.tabulated Auto [] = Ok ht
    /\ write ht "halotab.hdf5" ∅ = (Ok tt, fs)
    /\ read "halotab.hdf5" fs = Raise KeyError.
Proof.
  destruct (Demo.tabulated Auto []) as [ht|e] eqn:Hrun;
    [|vm_compute in Hrun; discriminate].
  destruct (write_read_no_args ht "halotab.hdf5" ∅) as (fs & Hw & Hr).
  - apply lookup_empty.
  - vm_compute in Hrun. injection Hrun as <-.
    apply (make_attrs_dom "tpcf" Demo.halocat (Demo.opts Auto)).
  - vm_compute in Hrun. injection Hrun as <-. reflexivity.
  - exists ht, fs. split; [reflexivity|]. split; [exact Hw|exact Hr].
Defined.

Lemma read_without_kwargs_witness :
  read "halotab.hdf5" {["halotab.hdf5" := written Demo.small]}
  = Ok Demo.small
  /\ exists ht',
       read "halotab.hdf5"
         {["halotab.hdf5" := without_kwargs (written Demo.small)]} = Ok ht'
       /\ tpcf_kwargs ht' = ∅
       /\ tpcf_args ht' = tpcf_args Demo.small.
Proof.
  assert (read "halotab.hdf5" {["halotab.hdf5" := written Demo.small]}
          = Ok Demo.small) as Hread.
  { rewrite <- insert_empty. apply read_written; [simpl; lia|reflexivity]. }
  split; [exact Hread|].
  eexists. split.
  - rewrite <- (insert_singleton_eq "halotab.hdf5"
                  (without_kwargs (written Demo.small)) (written Demo.small)).
    apply (read_without_kwargs "halotab.hdf5" _ (written Demo.small)
             Demo.small).
    + apply lookup_singleton_eq.
    + exact Hread.
  - split; reflexivity.
Defined.

Lemma tabulate_write_read_witness :
  exists ht fs,
    Demo.tabulated Auto [OInt 7] = Ok ht
    /\ write ht "halotab.hdf5" ∅ = (Ok tt, fs)
    /\ read "halotab.hdf5" fs = Ok ht.
Proof.
  destruct (Demo.tabulated Auto [OInt 7]) as [ht|e] eqn:Hrun;
    [|vm_compute in Hrun; discriminate].
  destruct (tabulate_write_read Demo.ccp Demo.gals Demo.tpcf "tpcf" [OInt 7]
              ∅ Demo.halocat (Demo.opts Auto) ht "halotab.hdf5" ∅ Hrun)
    as (fs & Hw & Hr).
  - simpl. lia.
  - apply lookup_empty.
  - exists ht, fs. split; [reflexivity|]. split; [exact Hw|exact Hr].
Defined.
